(** * Conversation lifecycle controller of the realtime voice client

    A shallow embedding of the browser script that drives one realtime
    voice conversation (the strict confirmation state machine: turn-index
    guard, NO-lockout, stop-intent tracking, finalize fallback, autosave and
    the two-phase stop), together with the standalone [finalizeConversation]
    helper.

    Conventions of the embedding.
    - A JavaScript string is the list of its code points ([jsstring]);
      lengths and positions are counted as the script observes them, in
      UTF-16 units ([length16], [indexOf], [slice]).
    - [Date.now()] is an integer number of milliseconds ([Z]); one
      synchronous run of a handler reads one clock value.
    - The script's closure variables form the record [State]; a handler maps
      a state to a new state and the list of effects it emitted, in order.
    - An [await]ed [fetch] is resolved by an explicit [FetchOutcome] handed
      to the handler, and the clock value read after the response arrives is
      a separate argument.
    - An effect records a call the script makes; whether [eventsDC.send]
      then throws is part of what the environment hands to the handler. *)

From stdpp Require Import gmap.
From Stdlib Require Import ZArith NArith List Bool Lia String Ascii.
From coqutil Require Import Datatypes.RecordSetters.
Import ListNotations.
Import RecordSetters.OCamlLikeNotations.
Local Open Scope Z_scope.
Set Warnings "-register-all".

(** ** JavaScript strings *)

Module JsString.

Definition jsstring : Type := list N.

(** ASCII literal of the source text. *)
Definition lit (s : string) : jsstring :=
  List.map N_of_ascii (list_ascii_of_string s).

(** The UTF-16 units of one code point: two above the BMP. *)
Definition units (c : N) : Z := if (65536 <=? c)%N then 2 else 1.

(** [s.length]: code points above the BMP take two UTF-16 units. *)
Definition length16 (s : jsstring) : Z :=
  fold_right (fun c acc => (if (65536 <=? c)%N then 2 else 1) + acc) 0 s.

(** WhiteSpace and LineTerminator of ECMAScript: what [trim] strips and
    what [\s] matches. *)
Definition isWhiteSpace (c : N) : bool :=
  ((9 <=? c) && (c <=? 13) || (c =? 32) || (c =? 160) || (c =? 5760)
   || (8192 <=? c) && (c <=? 8202) || (c =? 8232) || (c =? 8233)
   || (c =? 8239) || (c =? 8287) || (c =? 12288) || (c =? 65279))%N.

Fixpoint trimStart (s : jsstring) : jsstring :=
  match s with
  | c :: r => if isWhiteSpace c then trimStart r else s
  | [] => []
  end.

Definition trimEnd (s : jsstring) : jsstring := rev (trimStart (rev s)).

Definition trim (s : jsstring) : jsstring := trimEnd (trimStart s).

(** [s.replace(/\s+/g, "")] *)
Definition removeWhiteSpace (s : jsstring) : jsstring :=
  List.filter (fun c => negb (isWhiteSpace c)) s.

Fixpoint startsWith (tok s : jsstring) : bool :=
  match tok, s with
  | [], _ => true
  | t :: tok', c :: s' => (t =? c)%N && startsWith tok' s'
  | _ :: _, [] => false
  end.

(** [s.indexOf(tok)], counted from position [i] of the whole string, in
    UTF-16 units. *)
Fixpoint indexOf_from (i : Z) (s tok : jsstring) : Z :=
  if startsWith tok s then i
  else match s with
       | [] => -1
       | c :: s' => indexOf_from (i + units c) s' tok
       end.

Definition indexOf (s tok : jsstring) : Z := indexOf_from 0 s tok.

(** [s.lastIndexOf(tok)]: the last position at which [tok] starts. *)
Fixpoint lastIndexOf_from (i acc : Z) (s tok : jsstring) : Z :=
  let acc' := if startsWith tok s then i else acc in
  match s with
  | [] => acc'
  | c :: s' => lastIndexOf_from (i + units c) acc' s' tok
  end.

Definition lastIndexOf (s tok : jsstring) : Z := lastIndexOf_from 0 (-1) s tok.

(** [s.includes(tok)], also written [s.indexOf(tok) !== -1]. *)
Definition includes (s tok : jsstring) : bool := negb (indexOf s tok =? -1).

(** [s] without its first [n] UTF-16 units, and the first [n] units of
    [s].  A position inside a code point above the BMP counts as the
    position after it: the script only cuts where [indexOf] or
    [lastIndexOf] found an ASCII character. *)
Fixpoint drop16 (n : Z) (s : jsstring) : jsstring :=
  match s with
  | [] => []
  | c :: r => if n <=? 0 then s else drop16 (n - units c) r
  end.

Fixpoint take16 (n : Z) (s : jsstring) : jsstring :=
  match s with
  | [] => []
  | c :: r => if n <=? 0 then [] else c :: take16 (n - units c) r
  end.

(** [s.slice(a, b)] for [0 <= a <= b], the only way the script calls it. *)
Definition slice (s : jsstring) (a b : Z) : jsstring :=
  take16 (b - a) (drop16 a s).

Definition isAsciiUpper (c : N) : bool := ((65 <=? c) && (c <=? 90))%N.
Definition isAsciiLower (c : N) : bool := ((97 <=? c) && (c <=? 122))%N.
Definition isAsciiDigit (c : N) : bool := ((48 <=? c) && (c <=? 57))%N.

(** [\w] of a regular expression without the [i] flag. *)
Definition isWordChar (c : N) : bool :=
  isAsciiUpper c || isAsciiLower c || isAsciiDigit c || (c =? 95)%N.

End JsString.
Export JsString.

(** ** Values produced by [JSON.parse] *)

Inductive jsval : Type :=
  | JNull
  | JBool (b : bool)
  | JNum (mantissa exponent : Z)      (* the decimal mantissa * 10^exponent *)
  | JStr (s : jsstring)
  | JArr (items : list jsval)
  | JObj (fields : list (jsstring * jsval)).

(** Truthiness of a parsed value, as [args && ...] tests it. *)
Definition truthy (v : jsval) : bool :=
  match v with
  | JNull => false
  | JBool b => b
  | JNum m _ => negb (m =? 0)
  | JStr s => match s with [] => false | _ => true end
  | JArr _ | JObj _ => true
  end.

Fixpoint assoc (k : jsstring) (fields : list (jsstring * jsval)) : option jsval :=
  match fields with
  | [] => None
  | (k', v) :: r => if bool_decide (k = k') then Some v else assoc k r
  end.

(** [v.k] for the two keys the script reads ("reason", "confirmed"):
    only an object can carry them; [None] is [undefined]. *)
Definition getField (v : jsval) (k : jsstring) : option jsval :=
  match v with
  | JObj fields => assoc k fields
  | _ => None
  end.

(** ** What the script takes from the JavaScript engine

    Case mapping and the letter category of code points outside ASCII come
    from the Unicode tables of the engine, and [JSON.parse] is the engine's
    parser ([None] when it throws a SyntaxError).  The ASCII part of both
    tables is fixed below, in [lowerCodePoint] and [isLetter].  Two facts
    about the Unicode tables are part of the interface: lower-casing is
    idempotent, and a letter is never white space.  The mapping is taken
    code point by code point; the one context rule of [toLowerCase] (the
    final sigma) chooses between two Greek letters and is left to the
    table. *)

Definition lowerCodePoint (tbl : N -> list N) (c : N) : list N :=
  if isAsciiUpper c then [(c + 32)%N]
  else if (c <? 128)%N then [c]
  else tbl c.

Class JsEngine : Type := {
  (** lower-case mapping of a code point outside ASCII *)
  lowerU : N -> list N;
  (** [\p{L}] on a code point outside ASCII *)
  isLetterU : N -> bool;
  (** [JSON.parse] *)
  JSON_parse : jsstring -> option jsval;
  (** lower-casing yields code points that lower-casing leaves alone *)
  lowerU_stable : forall c d : N,
      In d (lowerCodePoint lowerU c) -> lowerCodePoint lowerU d = [d];
  (** no letter is white space *)
  letterU_not_space : forall c : N, isLetterU c = true -> isWhiteSpace c = false
}.

Section Classifier.
Context {engine : JsEngine}.

(** [s.toLowerCase()] *)
Definition toLowerCase (s : jsstring) : jsstring :=
  flat_map (lowerCodePoint lowerU) s.

(** [\p{L}] *)
Definition isLetter (c : N) : bool :=
  if (c <? 128)%N then isAsciiUpper c || isAsciiLower c else isLetterU c.

(** [s.replace(/[^\p{L}]+/gu, " ")]: every maximal run of non-letters
    becomes one space; [inRun] says that the previous code point was part
    of such a run. *)
Fixpoint replaceNonLetters (inRun : bool) (s : jsstring) : jsstring :=
  match s with
  | [] => []
  | c :: r =>
      if isLetter c then c :: replaceNonLetters false r
      else if inRun then replaceNonLetters true r
      else 32%N :: replaceNonLetters true r
  end.

(** [function normalizeLetters(s)] *)
Definition normalizeLetters (s : jsstring) : jsstring :=
  trim (replaceNonLetters false (toLowerCase s)).

Definition YES_LONG_TOKENS : list jsstring :=
  List.map lit
    ["yes"; "yeah"; "yep"; "yup"; "confirm"; "please end"; "go ahead";
     "that's fine"; "that is fine"; "end now"; "sure"; "okay end"; "ok end";
     "please close"; "end it"; "yes please"; "affirmative"; "indeed"]%string.

Definition NO_TOKENS : list jsstring :=
  List.map lit
    ["no"; "not yet"; "wait"; "hold on"; "continue"; "don't"; "do not";
     "nope"; "cancel"; "not now"; "stop asking"; "no thanks"; "no thank you";
     "nah"; "never"; "please continue"; "keep going"; "no i don't";
     "no i do not"]%string
  ++ [ [1604; 1575]%N;                      (* U+0644 U+0627 *)
       [1085; 1077; 1090]%N;                (* U+043D U+0435 U+0442 *)
       lit "nein";
       [2951; 2994; 3021; 2994; 3016]%N;    (* Tamil *)
       [3122; 3143; 3110; 3137]%N;          (* Telugu *)
       [2344; 2361; 2368; 2306]%N;          (* Devanagari *)
       [110; 227; 111]%N;                   (* n, a with tilde, o *)
       lit "non"; lit "ne"; lit "nej"; lit "nai" ].

Definition SHORT_YES : list jsstring := List.map lit ["s"; "y"; "ok"; "okay"]%string.

Definition STOP_TOKENS : list jsstring :=
  List.map lit ["stop"; "end"; "finish"; "we are done"]%string
  ++ [ lit "we" ++ [8217%N] ++ lit "re done" ]   (* U+2019 apostrophe *)
  ++ List.map lit
       ["that's all"; "thats all"; "end the conversation"; "stop this";
        "stop now"; "bye"; "goodbye"]%string.

(** [function isNegativeTurn(text)] *)
Definition isNegativeTurn (text : jsstring) : bool :=
  let lc := toLowerCase text in
  existsb (fun tok => negb (indexOf lc tok =? -1)) NO_TOKENS.

(** [\b] between two neighbours; [None] is the edge of the string. *)
Definition wordBoundary (before after : option N) : bool :=
  xorb (match before with Some c => isWordChar c | None => false end)
       (match after with Some c => isWordChar c | None => false end).

(** After [tok] was consumed: [Some rest] when it was a prefix. *)
Fixpoint stripPrefix (tok s : jsstring) : option jsstring :=
  match tok, s with
  | [], _ => Some s
  | t :: tok', c :: s' => if (t =? c)%N then stripPrefix tok' s' else None
  | _ :: _, [] => None
  end.

(** One attempt of [(?:^|\b)tok(?:\b|$)] at the current position; [prev]
    is the code point before it ([None] at position 0).  The script
    escapes every regular-expression metacharacter of [tok], so [tok]
    matches literally. *)
Definition matchHere (tok : jsstring) (prev : option N) (s : jsstring) : bool :=
  (match prev with None => true | Some _ => false end
   || wordBoundary prev (head s))
  && match stripPrefix tok s with
     | Some rest =>
         wordBoundary (match rev tok with c :: _ => Some c | [] => prev end)
                      (head rest)
         || match rest with [] => true | _ => false end
     | None => false
     end.

(** [re.test(lc)]: the first attempt that succeeds, left to right. *)
Fixpoint reTest (tok : jsstring) (prev : option N) (s : jsstring) : bool :=
  matchHere tok prev s
  || match s with
     | [] => false
     | c :: s' => reTest tok (Some c) s'
     end.

(** [arr.indexOf(x)] on an array of strings. *)
Fixpoint arrayIndexOf_from (i : Z) (arr : list jsstring) (x : jsstring) : Z :=
  match arr with
  | [] => -1
  | y :: r => if bool_decide (y = x) then i else arrayIndexOf_from (i + 1) r x
  end.

Definition arrayIndexOf (arr : list jsstring) (x : jsstring) : Z :=
  arrayIndexOf_from 0 arr x.

(** [function isAffirmativeTurn(text)] *)
Definition isAffirmativeTurn (text : jsstring) : bool :=
  let raw := text in
  let lc := trim (toLowerCase raw) in
  if isNegativeTurn lc then false
  else
    let lettersOnly := removeWhiteSpace (normalizeLetters lc) in
    if (length16 lettersOnly <=? 4)
       && negb (arrayIndexOf SHORT_YES lettersOnly =? -1)
    then true
    else existsb (fun tok => reTest tok None lc) YES_LONG_TOKENS.

(** [function isStopIntent(text)] *)
Definition isStopIntent (text : jsstring) : bool :=
  let lc := toLowerCase text in
  existsb (fun tok => negb (indexOf lc tok =? -1)) STOP_TOKENS.

End Classifier.

(** ** State of the page script *)

Inductive ConvoState : Type := active | pending_confirm | ended.

(** A variable holding the handle of a [setTimeout]. *)
Inductive TimerVar : Type :=
  | TNull                     (* null *)
  | TPending (delayMs : Z)    (* the timeout is still to run *)
  | TStale.                   (* the timeout ran; the handle was kept *)

Definition timerSet (t : TimerVar) : bool :=
  match t with TNull => false | _ => true end.

(** [readyState] of the events data channel. *)
Inductive ReadyState : Type := rs_connecting | rs_open | rs_closing | rs_closed.

Record State : Type := {
  eventsDC : option ReadyState;
  sessionId : jsstring;
  conversationId : option Z;
  autosaveTimer : TimerVar;
  dirty : bool;
  lastSnapshot : jsstring;
  lastSaveAt : Z;
  saving : bool;
  finalized : bool;
  greetingPending : bool;
  greetTimeoutHandle : TimerVar;
  greeted : bool;
  convoState : ConvoState;
  confirmationRequested : bool;
  confirmationAskedAt : Z;
  confirmationGranted : bool;
  currentUserTurn : jsstring;
  turnIndex : Z;
  confirmAskedTurnIndex : Z;
  lastUserTurnIndex : Z;
  finalizeFallbackTimer : TimerVar;
  rejectFinalizeUntilTs : Z;
  lastStopIntentTs : Z;
  fnArgBuffers : gmap jsstring jsstring;
  (* the page *)
  userEl : jsstring;           (* userEl.textContent *)
  aiEl : jsstring;             (* aiEl.textContent *)
  statusEl : jsstring;         (* statusEl.textContent *)
  startBtn_disabled : bool;
  stopBtn_disabled : bool
}.

Definition AUTO_SAVE_IDLE_MS : Z := 8000.
Definition MIN_SAVE_INTERVAL_MS : Z := 10000.
Definition STOP_AFTER_CLOSE_MS : Z := 1200.
Definition CONFIRM_WINDOW_MS : Z := 90 * 1000.
Definition FINALIZE_FALLBACK_MS : Z := 1800.
Definition STOP_INTENT_WINDOW_MS : Z := 20000.

(** The variables as [boot] declares them, on a page whose transcript
    panes are empty. *)
Definition bootState : State := {|
  eventsDC := None;
  sessionId := [];
  conversationId := None;
  autosaveTimer := TNull;
  dirty := false;
  lastSnapshot := [];
  lastSaveAt := 0;
  saving := false;
  finalized := false;
  greetingPending := false;
  greetTimeoutHandle := TNull;
  greeted := false;
  convoState := active;
  confirmationRequested := false;
  confirmationAskedAt := 0;
  confirmationGranted := false;
  currentUserTurn := [];
  turnIndex := 0;
  confirmAskedTurnIndex := -1;
  lastUserTurnIndex := -1;
  finalizeFallbackTimer := TNull;
  rejectFinalizeUntilTs := 0;
  lastStopIntentTs := 0;
  fnArgBuffers := ∅;
  userEl := [];
  aiEl := [];
  statusEl := [];
  startBtn_disabled := false;
  stopBtn_disabled := false
|}.

(** ** What the script sends out *)

(** Body of the POST to /save-conversation/. *)
Record SaveRequest : Type := {
  session_id : jsstring;
  user_text : jsstring;
  ai_text : jsstring;
  autosave : bool;
  reason : jsstring;
  close : bool;
  finalize : bool;
  confirmed : bool;
  conversation_id : option Z     (* the key is absent when [None] *)
}.

Inductive Effect : Type :=
  | EffFetchSave (payload : SaveRequest)   (* fetch("/save-conversation/") *)
  | EffSendInstruction (text : jsstring)   (* eventsDC.send(response.create)
                                              is called; it may throw *)
  | EffDispatchState (st : ConvoState)     (* CustomEvent "convo:state" *)
  | EffStopSoon (delayMs : Z)              (* setTimeout(stop({skipSave})) *)
  | EffTeardown.                           (* channel, peer, tracks closed *)

(** The [options] argument of [saveConversation]. *)
Record SaveOptions : Type := {
  opt_autosave : bool;
  opt_reason : jsstring;
  opt_finalize : bool;
  opt_confirmed : bool;
  opt_close : bool
}.

(** How an awaited [fetch] ends: it throws, or it resolves to a response
    with [res.ok] and, when the body is JSON with a numeric [id], that id. *)
Inductive FetchOutcome : Type :=
  | FetchThrows
  | FetchResponse (res_ok : bool) (js_id : option Z).

(** What the environment does to one handler: the outcome of the awaited
    request, the clock read once it is in, and whether a later
    [eventsDC.send] on the open channel throws. *)
Record Net : Type := {
  outcome : FetchOutcome;
  arrival : Z;
  send_throws : bool
}.

(** ** Events from the data channel *)

Record Call : Type := { call_id : option jsstring; call_name : option jsstring }.

Inductive Delta : Type :=
  | DAbsent
  | DString (s : jsstring)
  | DObject (text : option jsstring).

Record Event : Type := {
  e_type : jsstring;
  e_function_call : option Call;
  e_tool_call : option Call;
  e_id : option jsstring;
  e_name : option jsstring;
  e_delta : Delta;
  e_arguments_delta : option jsstring;
  e_text : option jsstring;
  e_transcript : option jsstring;
  e_message : option jsstring;
  e_output_text : option (list jsstring)
}.

#[global] Instance ConvoState_eq_dec : EqDecision ConvoState.
Proof. solve_decision. Defined.

(** ** Handlers: a state and output monad

    A handler reads and writes the closure variables and emits effects;
    [M A] threads both. *)

Definition M (A : Type) : Type := State -> A * State * list Effect.

Definition ret {A} (a : A) : M A := fun s => (a, s, []).

Definition bind {A B} (m : M A) (k : A -> M B) : M B :=
  fun s =>
    let '(a, s1, e1) := m s in
    let '(b, s2, e2) := k a s1 in
    (b, s2, e1 ++ e2).

Definition get : M State := fun s => (s, s, []).
Definition modify (f : State -> State) : M unit := fun s => (tt, f s, []).
Definition emit (e : Effect) : M unit := fun s => (tt, s, [e]).
Definition when (b : bool) (m : M unit) : M unit := if b then m else ret tt.

Declare Scope handler_scope.
Delimit Scope handler_scope with handler.
Notation "x ← y ; z" := (bind y (fun x => z))
  (at level 20, y at level 100, z at level 200, only parsing) : handler_scope.
Notation "x ;; z" := (bind x (fun _ => z))
  (at level 100, z at level 200, only parsing, right associativity)
  : handler_scope.
Local Open Scope handler_scope.

Definition stateOf {A} (r : A * State * list Effect) : State := snd (fst r).
Definition valueOf {A} (r : A * State * list Effect) : A := fst (fst r).
Definition effectsOf {A} (r : A * State * list Effect) : list Effect := snd r.

(** The save requests among the effects, in the order sent. *)
Fixpoint savesOf (es : list Effect) : list SaveRequest :=
  match es with
  | [] => []
  | EffFetchSave p :: r => p :: savesOf r
  | _ :: r => savesOf r
  end.

Definition ellipsis : jsstring := [8230%N].
Definition newline : jsstring := [10%N].

Section Controller.
Context {engine : JsEngine}.

Definition setStatus (t : jsstring) : M unit :=
  modify (fun s => { s with statusEl := t }).

(** [function setConvoState(newState)] *)
Definition setConvoState (newState : ConvoState) : M unit :=
  s ← get;
  if bool_decide (convoState s = newState) then ret tt
  else
    modify (fun s => { s with convoState := newState }) ;;
    emit (EffDispatchState newState) ;;
    match newState with
    | pending_confirm =>
        setStatus (lit "Awaiting user confirmation to end" ++ ellipsis)
    | ended => setStatus (lit "Conversation ended.")
    | active => setStatus (lit "Continuing" ++ ellipsis)
    end.

Definition append_user (t : jsstring) : M unit :=
  modify (fun s => { s with userEl := userEl s ++ t }).
Definition append_ai (t : jsstring) : M unit :=
  modify (fun s => { s with aiEl := aiEl s ++ t }).

(** [function currentSnapshot()] *)
Definition currentSnapshot (s : State) : jsstring :=
  userEl s ++ (newline ++ lit "----" ++ newline) ++ aiEl s.

(** [function scheduleAutoSave(delayMs)]; [None] is a call without
    argument.  Clearing the old timeout and setting the new one leaves the
    variable with the new pending handle. *)
Definition scheduleAutoSave (delayMs : option Z) : M unit :=
  let wait := match delayMs with Some d => d | None => AUTO_SAVE_IDLE_MS end in
  modify (fun s => { s with autosaveTimer := TPending wait }).

(** [function markDirty()] *)
Definition markDirty : M unit :=
  s ← get;
  if negb (finalized s) then
    modify (fun s => { s with dirty := true }) ;;
    scheduleAutoSave None
  else ret tt.

Definition channelOpen (s : State) : bool :=
  match eventsDC s with Some rs_open => true | _ => false end.

Definition closingText : jsstring :=
  lit "Thank you for your patience and for using our service. Have a great day!".

Definition continueText : jsstring :=
  lit "The user did not confirm ending. Continue assisting. Do NOT call finalize_conversation again unless the user explicitly confirms in their next turn. Always respond only in English.".

Definition greetingText : jsstring :=
  lit "Start with a brief, friendly greeting and ask how you can help the user. Keep it concise. Respond only in English and do not switch languages.".

(** [function sendClosingMessage(_reason)]: [true] when it was sent;
    [throws] says that [eventsDC.send] throws, which the [catch] turns
    into [false]. *)
Definition sendClosingMessage (throws : bool) : M bool :=
  s ← get;
  if negb (channelOpen s) then ret false
  else
    emit (EffSendInstruction closingText) ;;
    if throws then ret false else ret true.

(** [function sendContinueInstruction()]; an exception of
    [eventsDC.send] is caught and changes nothing. *)
Definition sendContinueInstruction : M unit :=
  s ← get;
  if negb (channelOpen s) then ret tt
  else emit (EffSendInstruction continueText).

(** [function forceStopSoon()] *)
Definition forceStopSoon : M unit := emit (EffStopSoon STOP_AFTER_CLOSE_MS).

(** [function cancelFinalizeFallback()] *)
Definition cancelFinalizeFallback : M unit :=
  s ← get;
  if timerSet (finalizeFallbackTimer s)
  then modify (fun s => { s with finalizeFallbackTimer := TNull })
  else ret tt.

(** [function hasFinalizePermission()], with [now] the value of
    [Date.now()]. *)
Definition hasFinalizePermission (s : State) (now : Z) : bool :=
  let classic :=
    confirmationRequested s
    && (now - confirmationAskedAt s <=? CONFIRM_WINDOW_MS)
    && (confirmAskedTurnIndex s <? lastUserTurnIndex s)
    && confirmationGranted s in
  let recentStop := now - lastStopIntentTs s <=? STOP_INTENT_WINDOW_MS in
  let fallback :=
    recentStop && confirmationGranted s && (rejectFinalizeUntilTs s <=? now) in
  classic || fallback.

(** *** Saving *)

(** [function aiTextSanitized(t)] *)
Definition aiTextSanitized (t : jsstring) : jsstring := t.

Definition isEmpty (s : jsstring) : bool :=
  match s with [] => true | _ => false end.

Definition payloadOf (s : State) (options : SaveOptions) : SaveRequest := {|
  session_id := sessionId s;
  user_text := userEl s;
  ai_text := aiTextSanitized (aiEl s);
  autosave := opt_autosave options;
  reason :=
    if negb (isEmpty (opt_reason options)) then opt_reason options
    else if opt_autosave options then lit "autosave" else lit "manual";
  close := opt_close options;
  finalize := opt_finalize options;
  confirmed := opt_confirmed options;
  conversation_id := conversationId s
|}.

(** What [saveConversation] decides before it would call [fetch]. *)
Inductive SaveDecision : Type :=
  | Skip (ok : bool)                       (* return { ok, data: null } *)
  | Send (payload : SaveRequest) (snap : jsstring).

(** [saveConversation] up to the [await fetch(...)]. *)
Definition saveConversation_begin (options : SaveOptions) (nowTs : Z)
  : M SaveDecision :=
  s ← get;
  let payload := payloadOf s options in
  let snap := currentSnapshot s in
  if isEmpty (trim snap) then ret (Skip true)
  else
    let isFinalize := opt_finalize options in
    if saving s && negb isFinalize then ret (Skip false)
    else if negb isFinalize && opt_autosave options
            && (nowTs - lastSaveAt s <? MIN_SAVE_INTERVAL_MS)
    then ret (Skip true)
    else
      modify (fun s => { s with saving := true }) ;;
      emit (EffFetchSave payload) ;;
      ret (Send payload snap).

(** [saveConversation] from the response on, the [finally] included. *)
Definition saveConversation_end (snap : jsstring) (net : Net) : M bool :=
  ok ← match outcome net with
        | FetchResponse res_ok js_id =>
            (if res_ok then
               modify (fun s =>
                 { s with
                   conversationId :=
                     match js_id with Some i => Some i | None => conversationId s end;
                   lastSnapshot := snap;
                   lastSaveAt := arrival net;
                   dirty := false })
             else ret tt) ;;
            ret res_ok
        | FetchThrows => ret false
        end;
  modify (fun s => { s with saving := false }) ;;
  ret ok.

(** [async function saveConversation(options)]: the [ok] of its result. *)
Definition saveConversation (options : SaveOptions) (nowTs : Z) (net : Net)
  : M bool :=
  d ← saveConversation_begin options nowTs;
  match d with
  | Skip ok => ret ok
  | Send _ snap => saveConversation_end snap net
  end.

Definition autosaveOptions (reason : jsstring) : SaveOptions :=
  {| opt_autosave := true; opt_reason := reason; opt_finalize := false;
     opt_confirmed := false; opt_close := false |}.

Definition finalizeOptions (reason : jsstring) : SaveOptions :=
  {| opt_autosave := true; opt_reason := reason; opt_finalize := true;
     opt_confirmed := true; opt_close := true |}.

(** [async function tryAutoSave(reason)] *)
Definition tryAutoSave (reason : jsstring) (now : Z) (net : Net) : M unit :=
  s ← get;
  if negb (dirty s) then ret tt
  else
    saveConversation
      (autosaveOptions (if isEmpty reason then lit "autosave" else reason))
      now net ;;
    ret tt.

(** [async function stop(options)].  [net1] answers the non-final save and
    [net2] the forced finalize; neither is consulted under [skipSave]. *)
Definition stop (skipSave : bool) (now : Z) (net1 net2 : Net) : M unit :=
  modify (fun s => { s with stopBtn_disabled := true; startBtn_disabled := false }) ;;
  setStatus (lit "Stopping...") ;;
  (if negb skipSave then
     baseSave ← saveConversation (autosaveOptions (lit "manual_stop")) now net1;
     s ← get;
     if negb (finalized s) && baseSave then
       forcedFinalize ←
         saveConversation (finalizeOptions (lit "manual_stop_finalize"))
                          (arrival net1) net2;
       if forcedFinalize then
         modify (fun s => { s with finalized := true }) ;;
         setConvoState ended
       else ret tt
     else ret tt
   else ret tt) ;;
  emit EffTeardown ;;
  modify (fun s => { s with autosaveTimer := TNull; greetTimeoutHandle := TNull }) ;;
  cancelFinalizeFallback ;;
  modify (fun s => { s with rejectFinalizeUntilTs := 0; lastStopIntentTs := 0;
                            eventsDC := None }) ;;
  setStatus (lit "Idle").

Definition noNet : Net :=
  {| outcome := FetchThrows; arrival := 0; send_throws := false |}.

(** The tail shared by both finalize paths once permission was found:
    [finalized = true], the finalize save, and what follows its answer. *)
Definition finalizeNow (reason : jsstring) (now : Z) (net : Net) : M unit :=
  setStatus (lit "Finalizing" ++ ellipsis) ;;
  modify (fun s => { s with finalized := true }) ;;
  ok ← saveConversation (finalizeOptions reason) now net;
  if negb ok then
    modify (fun s => { s with finalized := false }) ;;
    setConvoState active ;;
    setStatus (lit "Continuing (server did not finalize).") ;;
    sendContinueInstruction
  else
    setConvoState ended ;;
    sent ← sendClosingMessage (send_throws net);
    forceStopSoon ;;
    if negb sent then stop true (arrival net) noNet noNet else ret tt.

(** [async function finalizeClientSide(reason)] *)
Definition finalizeClientSide (reason : jsstring) (now : Z) (net : Net) : M unit :=
  s ← get;
  if negb (hasFinalizePermission s now) then
    setConvoState active ;;
    setStatus (lit "Continuing (fallback blocked: no valid confirmation).")
  else
    finalizeNow (if isEmpty reason then lit "user confirmed end" else reason)
                now net.

(** *** The confirmation state machine *)

(** [function maybeMarkConfirmationRequested(text)] *)
Definition maybeMarkConfirmationRequested (text : jsstring) (now : Z) : M unit :=
  if isEmpty text then ret tt
  else
    let lc := toLowerCase text in
    if includes lc (lit "are you sure")
       && (includes lc (lit "end") || includes lc (lit "finish")
           || includes lc (lit "close"))
       && (includes lc (lit "conversation") || includes lc (lit "session")
           || includes lc (lit "call"))
    then
      modify (fun s =>
        { s with confirmationRequested := true;
                 confirmationGranted := false;
                 confirmationAskedAt := now;
                 confirmAskedTurnIndex := turnIndex s }) ;;
      setConvoState pending_confirm
    else ret tt.

(** [function maybeEvaluateUserConfirmation(turnText)] *)
Definition maybeEvaluateUserConfirmation (turnText : jsstring) (now : Z) : M unit :=
  if isEmpty turnText then ret tt
  else
    when (isStopIntent turnText)
         (modify (fun s => { s with lastStopIntentTs := now })) ;;
    s ← get;
    if negb (confirmationRequested s) && negb (isStopIntent turnText) then ret tt
    else if isNegativeTurn turnText then
      modify (fun s => { s with confirmationGranted := false;
                                confirmationRequested := false }) ;;
      cancelFinalizeFallback ;;
      modify (fun s => { s with rejectFinalizeUntilTs := now + 6000 }) ;;
      setConvoState active ;;
      setStatus (lit "Continuing (user declined to end).") ;;
      sendContinueInstruction
    else if isAffirmativeTurn turnText then
      modify (fun s => { s with confirmationGranted := true }) ;;
      setStatus (lit "User confirmed to end.") ;;
      cancelFinalizeFallback ;;
      modify (fun s => { s with finalizeFallbackTimer := TPending FINALIZE_FALLBACK_MS })
    else ret tt.

(** *** The termination action *)

(** [a || b] on values that are a string or undefined. *)
Definition orElse (a b : option jsstring) : option jsstring :=
  match a with
  | Some (_ :: _) => a
  | _ => b
  end.

Definition orDefault (a : option jsstring) (d : jsstring) : jsstring :=
  match a with
  | Some ((_ :: _) as x) => x
  | _ => d
  end.

(** The text handed to [JSON.parse]: the span from the first opening to
    the last closing brace when there is one, the whole buffer otherwise. *)
Definition jsonCandidate (buf : jsstring) : jsstring :=
  let s := indexOf buf (lit "{") in
  let e := lastIndexOf buf (lit "}") in
  if negb (s =? -1) && (s <? e) then slice buf s (e + 1) else buf.

(** [var args = {}; try { ... args = JSON.parse(jsonStr); } catch (_e) {}] *)
Definition parseArgs (buf : jsstring) : jsval :=
  match JSON_parse (jsonCandidate buf) with
  | Some v => v
  | None => JObj []
  end.

Definition argReason (args : jsval) : jsstring :=
  match getField args (lit "reason") with
  | Some (JStr ((_ :: _) as r)) => if truthy args then r else lit "user ended"
  | _ => lit "user ended"
  end.

Definition argConfirmed (args : jsval) : bool :=
  truthy args
  && match getField args (lit "confirmed") with
     | Some (JBool true) => true
     | _ => false
     end.

Definition isDeltaType (t : jsstring) : bool :=
  bool_decide (t = lit "response.function_call.arguments.delta")
  || bool_decide (t = lit "response.tool_call.delta").

Definition isDoneType (t : jsstring) : bool :=
  bool_decide (t = lit "response.function_call.arguments.done")
  || bool_decide (t = lit "response.tool_call.completed").

Definition callOf (evt : Event) : Call :=
  match e_function_call evt with
  | Some c => c
  | None => match e_tool_call evt with
            | Some c => c
            | None => {| call_id := None; call_name := None |}
            end
  end.

(** [call.id || (evt && evt.id) || "default"] *)
Definition callIdOf (evt : Event) : jsstring :=
  orDefault (orElse (call_id (callOf evt)) (e_id evt)) (lit "default").

(** [name || (evt && evt.name) || (call && call.name) || ""], where
    [name] is [call.name || (evt && evt.name) || ""]. *)
Definition fnNameOf (evt : Event) : jsstring :=
  let call := callOf evt in
  let name := orDefault (orElse (call_name call) (e_name evt)) [] in
  orDefault (orElse (Some name) (orElse (e_name evt) (call_name call))) [].

(** [function handleFunctionCallEvent(evt)] *)
Definition handleFunctionCallEvent (evt : Event) (now : Z) (net : Net) : M unit :=
  let id := callIdOf evt in
  if isDeltaType (e_type evt) then
    (* [evt.delta || evt.arguments_delta || ""]; [None]: not a string *)
    let delta : option jsstring :=
      match e_delta evt with
      | DString ((_ :: _) as d) => Some d
      | DObject _ => None
      | _ => Some (orDefault (e_arguments_delta evt) [])
      end in
    modify (fun s =>
      let cur := orDefault (fnArgBuffers s !! id) [] in
      { s with fnArgBuffers :=
                 <[ id := match delta with
                          | Some d => cur ++ d
                          | None => cur
                          end ]> (fnArgBuffers s) })
  else if isDoneType (e_type evt) then
    s ← get;
    let buf := orDefault (fnArgBuffers s !! id) [] in
    modify (fun s => { s with fnArgBuffers := delete id (fnArgBuffers s) }) ;;
    let args := parseArgs buf in
    if bool_decide (fnNameOf evt = lit "finalize_conversation") then
      let reason := argReason args in
      let confirmed := argConfirmed args in
      s ← get;
      if now <? rejectFinalizeUntilTs s then
        setConvoState active ;;
        setStatus (lit "Continuing (finalize ignored during NO lockout).") ;;
        sendContinueInstruction
      else if negb (confirmed && hasFinalizePermission s now) then
        setConvoState active ;;
        setStatus (lit "Continuing (no valid confirmation to end).") ;;
        sendContinueInstruction
      else
        cancelFinalizeFallback ;;
        finalizeNow reason now net
    else ret tt
  else ret tt.

(** [function extractText(evt)]; [None] is [null]. *)
Definition extractText (evt : Event) : option jsstring :=
  match e_delta evt with
  | DString d => Some d
  | DObject (Some t) => Some t
  | _ =>
      match e_text evt with
      | Some t => Some t
      | None =>
          match e_transcript evt with
          | Some t => Some t
          | None =>
              match e_message evt with
              | Some t => Some t
              | None =>
                  match e_output_text evt with
                  | Some parts => Some (List.concat parts)
                  | None => None
                  end
              end
          end
      end
  end.

(** [function handleRealtimeEvent(evt)] *)
Definition handleRealtimeEvent (evt : Event) (now : Z) (net : Net) : M unit :=
  let t := e_type evt in
  s ← get;
  if (indexOf t (lit "response.function_call") =? 0)
     || (indexOf t (lit "response.tool_call") =? 0)
  then handleFunctionCallEvent evt now net
  else if greetingPending s
          && (bool_decide (t = lit "response.completed")
              || bool_decide (t = lit "response.output_text.done"))
  then
    modify (fun s => { s with greetingPending := false;
                              greetTimeoutHandle := TNull }) ;;
    stop true now noNet noNet
  else if negb (indexOf t (lit "transcription.delta") =? -1) then
    (match extractText evt with
     | Some ((_ :: _) as textU) =>
         append_user textU ;;
         modify (fun s => { s with currentUserTurn := currentUserTurn s ++ textU })
     | _ => ret tt
     end) ;;
    markDirty
  else if negb (indexOf t (lit "transcription.completed") =? -1) then
    append_user newline ;;
    modify (fun s => { s with turnIndex := turnIndex s + 1 }) ;;
    modify (fun s => { s with lastUserTurnIndex := turnIndex s }) ;;
    s ← get;
    maybeEvaluateUserConfirmation (currentUserTurn s) now ;;
    modify (fun s => { s with currentUserTurn := [] }) ;;
    scheduleAutoSave (Some 3000)
  else if bool_decide (t = lit "response.output_text.delta")
          || ((indexOf t (lit "response.") =? 0)
              && (indexOf t (lit ".delta") =? length16 t - 6))
  then
    (match extractText evt with
     | Some ((_ :: _) as textA) =>
         append_ai textA ;;
         maybeMarkConfirmationRequested textA now
     | _ => ret tt
     end) ;;
    markDirty
  else if bool_decide (t = lit "response.output_text.done")
          || bool_decide (t = lit "response.completed")
  then
    append_ai newline ;;
    modify (fun s => { s with turnIndex := turnIndex s + 1 }) ;;
    scheduleAutoSave (Some 3000)
  else ret tt.

(** *** What can happen to the page *)

Inductive Input : Type :=
  | InMessage (evt : Event) (net : Net)   (* eventsDC.onmessage, parsed *)
  | InAutosaveTimer (net : Net)           (* the autosave timeout runs *)
  | InFallbackTimer (net : Net)           (* the finalize fallback runs *)
  | InStopTimer                           (* the timeout of forceStopSoon *)
  | InStopClick (net1 net2 : Net)         (* click on the Stop button *)
  | InChannelOpen                         (* the attached channel opens *)
  | InChannelClosed (net : Net).          (* eventsDC.onclose: the channel
                                             held in [eventsDC] has closed *)

(** One reaction of the page at clock value [now].  A timeout only runs
    while its handle is pending. *)
Definition step (now : Z) (i : Input) : M unit :=
  match i with
  | InMessage evt net => handleRealtimeEvent evt now net
  | InAutosaveTimer net =>
      s ← get;
      match autosaveTimer s with
      | TPending _ =>
          modify (fun s => { s with autosaveTimer := TStale }) ;;
          tryAutoSave (lit "idle") now net
      | _ => ret tt
      end
  | InFallbackTimer net =>
      s ← get;
      match finalizeFallbackTimer s with
      | TPending _ =>
          modify (fun s => { s with finalizeFallbackTimer := TStale }) ;;
          finalizeClientSide (lit "user confirmed end (fallback)") now net
      | _ => ret tt
      end
  | InStopTimer => stop true now noNet noNet
  | InStopClick net1 net2 => stop false now net1 net2
  | InChannelOpen =>
      modify (fun s => { s with eventsDC := Some rs_open }) ;;
      setStatus (lit "Connected.") ;;
      s ← get;
      if negb (greeted s) then
        modify (fun s => { s with greeted := true }) ;;
        emit (EffSendInstruction greetingText)
      else ret tt
  | InChannelClosed net =>
      modify (fun s =>
        { s with eventsDC := match eventsDC s with
                             | Some _ => Some rs_closed
                             | None => None
                             end }) ;;
      setStatus (lit "Events channel closed.") ;;
      tryAutoSave (lit "channel_closed") now net
  end.

(** The page reacting to a timed sequence of inputs. *)
Fixpoint run (inputs : list (Z * Input)) : M unit :=
  match inputs with
  | [] => ret tt
  | (now, i) :: rest => step now i ;; run rest
  end.

End Controller.


(** ** Events as the realtime API names them *)

Definition plainEvent (type : jsstring) : Event := {|
  e_type := type;
  e_function_call := None;
  e_tool_call := None;
  e_id := None;
  e_name := None;
  e_delta := DAbsent;
  e_arguments_delta := None;
  e_text := None;
  e_transcript := None;
  e_message := None;
  e_output_text := None
|}.

Definition withDelta (d : jsstring) (evt : Event) : Event :=
  { evt with e_delta := DString d }.

Definition withName (n : jsstring) (evt : Event) : Event :=
  { evt with e_name := Some n }.

(** A fragment of the user's transcript. *)
Definition userDelta (text : jsstring) : Event :=
  withDelta text
    (plainEvent (lit "conversation.item.input_audio_transcription.delta")).

(** The end of a user turn. *)
Definition userTurnCompleted : Event :=
  plainEvent (lit "conversation.item.input_audio_transcription.completed").

(** A fragment of the assistant's text, and the end of its turn. *)
Definition assistantDelta (text : jsstring) : Event :=
  withDelta text (plainEvent (lit "response.output_text.delta")).

Definition assistantDone : Event := plainEvent (lit "response.output_text.done").

(** The termination action: a chunk of its arguments, and its completion. *)
Definition toolArgsDelta (chunk : jsstring) : Event :=
  withName (lit "finalize_conversation")
    (withDelta chunk (plainEvent (lit "response.function_call.arguments.delta"))).

Definition toolArgsDone : Event :=
  withName (lit "finalize_conversation")
    (plainEvent (lit "response.function_call.arguments.done")).

(** A user turn spoken at [now]: its text, then the completion marker. *)
Definition userSays (now : Z) (text : jsstring) : list (Z * Input) :=
  [(now, InMessage (userDelta text) noNet);
   (now, InMessage userTurnCompleted noNet)].

(** A request that the server accepts, answered at [at_]. *)
Definition accepted (at_ : Z) (id : option Z) : Net :=
  {| outcome := FetchResponse true id; arrival := at_; send_throws := false |}.

(** A request that the server refuses, answered at [at_]. *)
Definition refused (at_ : Z) : Net :=
  {| outcome := FetchResponse false None; arrival := at_;
     send_throws := false |}.

(** A run of user turns, each spoken at its clock value. *)
Definition saying (replies : list (Z * jsstring)) : list (Z * Input) :=
  flat_map (fun r => userSays (fst r) (snd r)) replies.

(** ** The standalone helper of finalize.js *)

Module FinalizeHelper.

(** The argument object of [finalizeConversation]; [sessionId] may be
    missing, the other fields have defaults. *)
Record HelperArgs : Type := {
  h_sessionId : option jsstring;
  h_userText : jsstring;
  h_aiText : jsstring;
  h_conversationId : option Z;
  h_reason : jsstring
}.

(** The object that the helper serialises into the body of its POST. *)
Definition payload (a : HelperArgs) : jsval :=
  JObj
    [ (lit "session_id",
       JStr (match h_sessionId a with Some i => i | None => [] end));
      (lit "user_text", JStr (h_userText a));
      (lit "ai_text", JStr (h_aiText a));
      (lit "conversation_id",
       match h_conversationId a with Some i => JNum i 0 | None => JNull end);
      (lit "finalize", JBool true);
      (lit "reason",
       JStr (match h_reason a with [] => lit "end_detected" | r => r end)) ].

(** [async function finalizeConversation(...)]: the body posted, and the
    parsed response, or [None] when the helper throws because the
    response is not ok. *)
Definition finalizeConversation (a : HelperArgs) (res_ok : bool) (body : jsval)
  : jsval * option jsval :=
  (payload a, if res_ok then Some body else None).

End FinalizeHelper.

(** ** Starting a session *)

(** What the session endpoint answers: no usable answer (the request
    failed, the status was not ok, or the body was not JSON), or a parsed
    body, of which [start] reads the id and whether a client secret with a
    value is present.  The id is taken to be a string when present. *)
Inductive SessionReply : Type :=
  | SessionUnusable
  | SessionBody (id : option jsstring) (hasSecret : bool).

(** What [start] meets on its way. *)
Record StartEnv : Type := {
  micGranted : bool;          (* getUserMedia resolves *)
  sessionReply : SessionReply;
  sdpAnswered : bool          (* the SDP exchange returns an answer *)
}.

Section Starting.
Context {engine : JsEngine}.

(** [async function start()], run to its end.  The microphone stream, the
    peer connection and the audio element are not part of [State]; of the
    connection set-up the model keeps that the events channel is attached
    (in its connecting state), and it takes the browser's own WebRTC calls
    to succeed.  [now], [net1] and [net2] serve the [stop()] that follows a
    failed SDP exchange. *)
Definition start (env : StartEnv) (now : Z) (net1 net2 : Net) : M unit :=
  modify (fun s => { s with startBtn_disabled := true; stopBtn_disabled := false }) ;;
  setStatus (lit "Requesting microphone...") ;;
  modify (fun s => { s with userEl := []; aiEl := [] }) ;;
  modify (fun s => { s with autosaveTimer := TNull; dirty := false;
                            lastSnapshot := []; lastSaveAt := 0;
                            finalized := false }) ;;
  modify (fun s => { s with conversationId := None; greetingPending := false;
                            greetTimeoutHandle := TNull }) ;;
  modify (fun s => { s with greeted := false }) ;;
  setConvoState active ;;
  if negb (micGranted env) then
    setStatus (lit "Microphone access denied.") ;;
    modify (fun s => { s with startBtn_disabled := false; stopBtn_disabled := true })
  else
    setStatus (lit "Creating session...") ;;
    usable ← match sessionReply env with
              | SessionUnusable => ret false
              | SessionBody id hasSecret =>
                  modify (fun s => { s with sessionId := orDefault id [] }) ;;
                  ret hasSecret
              end;
    if negb usable then
      setStatus (lit "Failed to create session. You can still click Stop to finalize and save.") ;;
      modify (fun s => { s with startBtn_disabled := false; stopBtn_disabled := false })
    else
      setStatus (lit "Starting WebRTC...") ;;
      modify (fun s => { s with eventsDC := Some rs_connecting }) ;;
      if negb (sdpAnswered env) then
        setStatus (lit "OpenAI SDP exchange failed.") ;;
        stop false now net1 net2
      else
        setStatus (lit "Live. Speak to your mic.").

End Starting.

(** ** The helper that confirms before it finalizes *)

Module ConfirmingHelper.

Record HelperArgs : Type := {
  h_sessionId : option jsstring;
  h_userText : jsstring;
  h_aiText : jsstring;
  h_conversationId : option Z;
  h_reason : jsstring;
  h_confirmed : bool;
  h_confirmText : jsstring
}.

Definition YES_TOKENS : list jsstring :=
  List.map lit
    ["s"; "y"; "ok"; "okay"; "yes"; "yeah"; "yep"; "yup"; "sure"; "confirm";
     "please end"; "go ahead"; "that's fine"; "that is fine"; "end now";
     "end it"; "please close"; "oui"]%string
  ++ [ [115; 237]%N ]                        (* s, i with acute accent *)
  ++ List.map lit ["si"; "haan"; "affirmative"; "indeed"]%string.

Section Helper.
Context {engine : JsEngine}.

(** [confirmed], after the flag was derived from the text where the flag
    was not given. *)
Definition confirmedOf (a : HelperArgs) : bool :=
  if negb (h_confirmed a) && negb (isEmpty (h_confirmText a)) then
    let txt := toLowerCase (trim (h_confirmText a)) in
    existsb (fun tok => includes txt tok) YES_TOKENS
  else h_confirmed a.

Definition base (a : HelperArgs) : list (jsstring * jsval) :=
  [ (lit "session_id",
     JStr (match h_sessionId a with Some i => i | None => [] end));
    (lit "user_text", JStr (h_userText a));
    (lit "ai_text", JStr (h_aiText a));
    (lit "conversation_id",
     match h_conversationId a with Some i => JNum i 0 | None => JNull end) ].

(** The object serialised into the body of the POST. *)
Definition payload (a : HelperArgs) : jsval :=
  if confirmedOf a then
    JObj (base a
          ++ [ (lit "finalize", JBool true); (lit "confirmed", JBool true);
               (lit "reason",
                JStr (match h_reason a with [] => lit "end_confirmed" | r => r end)) ])
  else
    JObj (base a
          ++ [ (lit "finalize", JBool false); (lit "confirmed", JBool false);
               (lit "reason",
                JStr (match h_reason a with
                      | [] => lit "no_confirmation_autosave"
                      | r => r
                      end)) ]).

End Helper.

End ConfirmingHelper.

(** ** The history sidebar *)

Module History.

(** The replacement of one character by [htmlEscape]. *)
Definition escapeChar (c : N) : jsstring :=
  if (c =? 38)%N then lit "&amp;"
  else if (c =? 60)%N then lit "&lt;"
  else if (c =? 62)%N then lit "&gt;"
  else if (c =? 34)%N then lit "&quot;"
  else if (c =? 39)%N then lit "&#39;"
  else [c].

(** [function htmlEscape(s)]; a missing [s] reads as the empty string. *)
Definition htmlEscape (s : jsstring) : jsstring := flat_map escapeChar s.

(** One of the five entities that [htmlEscape] writes, less its
    ampersand, starts [s]. *)
Definition entityAt (s : jsstring) : bool :=
  startsWith (lit "amp;") s || startsWith (lit "lt;") s || startsWith (lit "gt;") s
  || startsWith (lit "quot;") s || startsWith (lit "#39;") s.

(** Every ampersand of [s] starts one of the five entities. *)
Fixpoint ampersandsEscaped (s : jsstring) : bool :=
  match s with
  | [] => true
  | c :: r => (if (c =? 38)%N then entityAt r else true) && ampersandsEscaped r
  end.

End History.

(** ** Scenarios *)

(** The clock when the scenarios start (milliseconds since the epoch). *)
Definition t0 : Z := 1700000000000.

Definition quote : jsstring := [34%N].

(** The arguments text of a termination action that carries confirmed. *)
Definition confirmedArgs : jsstring :=
  lit "{" ++ quote ++ lit "confirmed" ++ quote ++ lit ":true}".

(** The assistant asks for confirmation and ends its turn. *)
Definition assistantAsks (now : Z) : list (Z * Input) :=
  [(now, InMessage
           (assistantDelta (lit "Are you sure you want to end this conversation?"))
           noNet);
   (now, InMessage assistantDone noNet)].

(** The channel opens, the user greets, the assistant asks to confirm. *)
Definition askedToConfirm : list (Z * Input) :=
  [(t0, InChannelOpen)] ++ userSays (t0 + 1000) (lit "hello")
  ++ assistantAsks (t0 + 2000).

(** The termination action with confirmed among its arguments, its
    completion arriving at [now]. *)
Definition toolCall (now : Z) (net : Net) : list (Z * Input) :=
  [(now - 10, InMessage (toolArgsDelta confirmedArgs) noNet);
   (now, InMessage toolArgsDone net)].

(** ** Vocabulary of the statements *)

(** [wp m Q s]: running [m] from [s] ends with a value, a state and
    effects that satisfy [Q]. *)
Definition wp {A} (m : M A) (Q : A -> State -> list Effect -> Prop) (s : State)
  : Prop :=
  Q (valueOf (m s)) (stateOf (m s)) (effectsOf (m s)).

(** Every save request that [m] sends satisfies [P]. *)
Definition sends (P : SaveRequest -> Prop) {A} (m : M A) : Prop :=
  forall s, Forall P (savesOf (effectsOf (m s))).

(** [m] sends no save request at all. *)
Definition silent {A} (m : M A) : Prop := sends (fun _ => False) m.

(** A save request that does not finalize. *)
Definition noFinalize (p : SaveRequest) : Prop := finalize p = false.

(** A finalize request carries [confirmed]. *)
Definition confirmedIfFinal (p : SaveRequest) : Prop :=
  finalize p = true -> confirmed p = true.

(** [tok] occurs in [s]. *)
Definition occursIn (tok s : jsstring) : Prop :=
  exists pre post, s = pre ++ tok ++ post.

(** A token whose first and last code points are not white space. *)
Definition solidEnds (tok : jsstring) : bool :=
  match head tok, head (rev tok) with
  | Some t, Some l => negb (isWhiteSpace t) && negb (isWhiteSpace l)
  | _, _ => false
  end.

(** [sub] runs from the first opening brace of [buf] to its last closing
    brace. *)
Definition braceSpan (buf sub : jsstring) : Prop :=
  exists pre mid post,
    buf = pre ++ sub ++ post
    /\ sub = [123%N] ++ mid ++ [125%N]
    /\ ~ In 123%N pre
    /\ ~ In 125%N post.

(** The code point before the end of [pre], or [prev] when [pre] is
    empty. *)
Definition lastOf (prev : option N) (pre : jsstring) : option N :=
  match rev pre with
  | c :: _ => Some c
  | [] => prev
  end.

(** [tok] occurs in [s] with a word boundary (or the edge of [s]) on
    both sides. *)
Definition matchesAt (tok s : jsstring) : Prop :=
  exists pre post,
    s = pre ++ tok ++ post
    /\ (pre = [] \/ wordBoundary (lastOf None pre) (head (tok ++ post)) = true)
    /\ (post = [] \/ wordBoundary (lastOf None (pre ++ tok)) (head post) = true).

Section Vocabulary.
Context {engine : JsEngine}.

(** The text that [isAffirmativeTurn] calls [lc]. *)
Definition lowered (text : jsstring) : jsstring := trim (toLowerCase text).

(** The normalized text with its spaces removed. *)
Definition lettersOf (text : jsstring) : jsstring :=
  removeWhiteSpace (normalizeLetters text).

(** A word: lower-case ASCII letters only, at least one. *)
Definition isWord (w : jsstring) : Prop :=
  w <> [] /\ Forall (fun c => isAsciiLower c = true) w.


(** [res.ok] of the response, [false] when [fetch] threw. *)
Definition fetchOk (net : Net) : bool :=
  match outcome net with
  | FetchResponse res_ok _ => res_ok
  | FetchThrows => false
  end.

(** The non-finalize request is skipped because a save is in flight. *)
Definition blockedInFlight (s : State) (options : SaveOptions) : bool :=
  saving s && negb (opt_finalize options).

(** The autosave is skipped because the last successful save is recent. *)
Definition throttled (s : State) (options : SaveOptions) (nowTs : Z) : bool :=
  negb (opt_finalize options) && opt_autosave options
  && (nowTs - lastSaveAt s <? MIN_SAVE_INTERVAL_MS).

(** [P] holds of every payload an autosave or a finalize can carry. *)
Definition admits (P : SaveRequest -> Prop) : Prop :=
  forall s reason,
    P (payloadOf s (autosaveOptions reason))
    /\ P (payloadOf s (finalizeOptions reason)).

(** The events that [handleRealtimeEvent] hands to
    [handleFunctionCallEvent]. *)
Definition isToolEvent (t : jsstring) : bool :=
  (indexOf t (lit "response.function_call") =? 0)
  || (indexOf t (lit "response.tool_call") =? 0).

(** Input that transcript activity produces: messages other than the
    termination action, the autosave timeout, the channel closing. *)
Definition transcriptInput (i : Input) : bool :=
  match i with
  | InMessage evt _ => negb (isToolEvent (e_type evt))
  | InAutosaveTimer _ | InChannelClosed _ => true
  | _ => false
  end.

(** The state in which a decline leaves the confirmation context. *)
Definition declined (s : State) : Prop :=
  confirmationGranted s = false
  /\ confirmationRequested s = false
  /\ finalizeFallbackTimer s = TNull
  /\ convoState s = active.

(** What the page does when it turns a termination action down. *)
Definition rejection (status : jsstring) : M unit :=
  setConvoState active ;; setStatus status ;; sendContinueInstruction.

End Vocabulary.

(** ** More vocabulary: routes, pieces of text, what handlers keep *)

(* ---- vocabulary additions ---- *)
Inductive Route : Type :=
  | ToolCall | UserDelta | UserTurnEnd | AssistantDelta | AssistantTurnEnd | Unrouted.

Definition routeOf (t : jsstring) : Route :=
  if (indexOf t (lit "response.function_call") =? 0)
     || (indexOf t (lit "response.tool_call") =? 0) then ToolCall
  else if negb (indexOf t (lit "transcription.delta") =? -1) then UserDelta
  else if negb (indexOf t (lit "transcription.completed") =? -1) then UserTurnEnd
  else if bool_decide (t = lit "response.output_text.delta")
          || ((indexOf t (lit "response.") =? 0)
              && (indexOf t (lit ".delta") =? length16 t - 6))
  then AssistantDelta
  else if bool_decide (t = lit "response.output_text.done")
          || bool_decide (t = lit "response.completed")
  then AssistantTurnEnd
  else Unrouted.

Section Vocabulary2.
Context {engine : JsEngine}.

Definition asksToEnd (text : jsstring) : bool :=
  negb (isEmpty text)
  && (let lc := toLowerCase text in
      includes lc (lit "are you sure")
      && (includes lc (lit "end") || includes lc (lit "finish")
          || includes lc (lit "close"))
      && (includes lc (lit "conversation") || includes lc (lit "session")
          || includes lc (lit "call"))).

End Vocabulary2.

(** The assistant's text arriving in pieces, each at its clock value. *)
Definition streaming (chunks : list (Z * jsstring)) : list (Z * Input) :=
  List.map (fun r => (fst r, InMessage (assistantDelta (snd r)) noNet)) chunks.

(** The user's transcript arriving in pieces. *)
Definition dictating (chunks : list (Z * jsstring)) : list (Z * Input) :=
  List.map (fun r => (fst r, InMessage (userDelta (snd r)) noNet)) chunks.

Section Heard.
Context {engine : JsEngine}.

(** The page after a piece of the user's transcript. *)
Definition heard (text : jsstring) (s : State) : State :=
  stateOf (handleRealtimeEvent (userDelta text) 0 noNet s).

End Heard.

(** The grant is never raised. *)
Definition grantOnlyFalls (s : State) (_ : list Effect) (s' : State) : Prop :=
  confirmationGranted s' = true -> confirmationGranted s = true.

(** The confirmation context and the bookkeeping of turns and calls are
    left as they are. *)
Definition sameConfirmation (s : State) (_ : list Effect) (s' : State) : Prop :=
  confirmationRequested s' = confirmationRequested s
  /\ confirmationGranted s' = confirmationGranted s
  /\ confirmationAskedAt s' = confirmationAskedAt s
  /\ confirmAskedTurnIndex s' = confirmAskedTurnIndex s
  /\ lastUserTurnIndex s' = lastUserTurnIndex s
  /\ turnIndex s' = turnIndex s
  /\ currentUserTurn s' = currentUserTurn s
  /\ fnArgBuffers s' = fnArgBuffers s.

(** Nothing but the bookkeeping of saves and the lifecycle is touched. *)
Definition onlySaves (s : State) (_ : list Effect) (s' : State) : Prop :=
  s' = { s with conversationId := conversationId s';
                lastSnapshot := lastSnapshot s';
                lastSaveAt := lastSaveAt s';
                dirty := dirty s';
                saving := saving s';
                finalized := finalized s';
                convoState := convoState s';
                statusEl := statusEl s' }.

(** The lifecycle states announced by convo:state events, in order. *)
Fixpoint dispatched (es : list Effect) : list ConvoState :=
  match es with
  | [] => []
  | EffDispatchState st :: r => st :: dispatched r
  | _ :: r => dispatched r
  end.

(** Each announced state differs from the one before it, [a] being the
    state before the first. *)
Fixpoint follows (a : ConvoState) (ds : list ConvoState) : Prop :=
  match ds with
  | [] => True
  | d :: r => a <> d /\ follows d r
  end.

(** The events announce exactly the changes of the lifecycle variable. *)
Definition mirrors (s : State) (es : list Effect) (s' : State) : Prop :=
  follows (convoState s) (dispatched es)
  /\ List.last (dispatched es) (convoState s) = convoState s'.

(** The turn counter bounds the two indices taken from it. *)
Definition ordered (s : State) : Prop :=
  lastUserTurnIndex s <= turnIndex s /\ confirmAskedTurnIndex s <= turnIndex s.

Definition turnsAdvance (s : State) (_ : list Effect) (s' : State) : Prop :=
  turnIndex s <= turnIndex s' /\ (ordered s -> ordered s').

(** The flag of the secondary safety stays down. *)
Definition noGreetingPending (s : State) (_ : list Effect) (s' : State) : Prop :=
  greetingPending s = false -> greetingPending s' = false.

(** The piece of the arguments that a delta event of the termination
    action carries: [evt.delta || evt.arguments_delta || ""], and nothing
    when that is not a string. *)
Definition argsChunk (evt : Event) : jsstring :=
  match e_delta evt with
  | DString ((_ :: _) as d) => d
  | DObject _ => []
  | _ => orDefault (e_arguments_delta evt) []
  end.

Section Vocabulary3.
Context {engine : JsEngine}.

(** The pieces that the events of [evts] carry for the call [id], joined
    in the order of arrival. *)
Definition chunksFor (id : jsstring) (evts : list (Z * Event)) : jsstring :=
  flat_map (fun e => if bool_decide (callIdOf (snd e) = id)
                     then argsChunk (snd e) else []) evts.

Definition mentions (id : jsstring) (evts : list (Z * Event)) : bool :=
  existsb (fun e => bool_decide (callIdOf (snd e) = id)) evts.

(** Events arriving on the channel, each at its clock value, none of them
    answered by a request. *)
Definition arriving (evts : list (Z * Event)) : list (Z * Input) :=
  List.map (fun e => (fst e, InMessage (snd e) noNet)) evts.

End Vocabulary3.

(** ** What a handler keeps

    A relation between the state before, the effects emitted and the state
    after chains when it holds of doing nothing and of doing one thing
    after another; a handler keeps it when every run of the handler
    satisfies it. *)

Class Chains (R : State -> list Effect -> State -> Prop) : Prop := {
  chains_nil : forall s, R s [] s;
  chains_app : forall s1 e1 s2 e2 s3,
      R s1 e1 s2 -> R s2 e2 s3 -> R s1 (e1 ++ e2) s3
}.

Definition keeps (R : State -> list Effect -> State -> Prop) {A} (m : M A) : Prop :=
  forall s, R s (effectsOf (m s)) (stateOf (m s)).

(** ** A small engine to run the script on concrete inputs

    Case mapping and letters for Latin-1, Greek and Cyrillic (and the
    Kelvin sign, whose lower case is the ASCII [k]); a JSON parser for
    objects, strings without escapes, integers and the three literals. *)

Module MiniEngine.

Definition between (lo hi c : N) : bool := ((lo <=? c) && (c <=? hi))%N.

Definition lowerTable (c : N) : list N :=
  if between 192 214 c || between 216 222 c then [(c + 32)%N]   (* Latin-1 *)
  else if between 913 929 c || between 931 939 c then [(c + 32)%N] (* Greek *)
  else if between 1040 1071 c then [(c + 32)%N]                 (* Cyrillic *)
  else if between 1024 1039 c then [(c + 80)%N]
  else if (c =? 8490)%N then [107%N]                            (* Kelvin *)
  else [c].

Definition letterTable (c : N) : bool :=
  (c =? 170)%N || (c =? 181)%N || (c =? 186)%N
  || between 192 214 c || between 216 246 c || between 248 255 c
  || between 913 929 c || between 931 969 c
  || between 1024 1153 c
  || between 1568 1610 c
  || (c =? 8490)%N.

Definition isJsonSpace (c : N) : bool :=
  ((c =? 32) || (c =? 9) || (c =? 10) || (c =? 13))%N.

Fixpoint skipSpace (s : jsstring) : jsstring :=
  match s with
  | c :: r => if isJsonSpace c then skipSpace r else s
  | [] => []
  end.

(** After the opening quote: the string and what follows its closing
    quote; escapes and control characters are not accepted. *)
Fixpoint stringBody (acc s : jsstring) : option (jsstring * jsstring) :=
  match s with
  | [] => None
  | c :: r =>
      if (c =? 34)%N then Some (rev acc, r)
      else if ((c =? 92) || (c <? 32))%N then None
      else stringBody (c :: acc) r
  end.

Fixpoint digits (acc : Z) (seen : bool) (s : jsstring) : option (Z * jsstring) :=
  match s with
  | c :: r =>
      if isAsciiDigit c then digits (10 * acc + (Z.of_N c - 48)) true r
      else if seen then Some (acc, s) else None
  | [] => if seen then Some (acc, []) else None
  end.

Definition literal (word : string) (v : jsval) (s : jsstring)
  : option (jsval * jsstring) :=
  if startsWith (lit word) s
  then Some (v, skipn (List.length (lit word)) s)
  else None.

(** [members = None]: a value is expected; [members = Some acc]: the next
    member of an object whose earlier members are [acc], latest first, so
    that a repeated key reads as its last value. *)
Fixpoint parse (fuel : nat) (members : option (list (jsstring * jsval)))
    (s : jsstring) : option (jsval * jsstring) :=
  match fuel with
  | O => None
  | S fuel' =>
      match members with
      | None =>
          match skipSpace s with
          | 34%N :: r =>
              match stringBody [] r with
              | Some (str, r') => Some (JStr str, r')
              | None => None
              end
          | 123%N :: r =>
              match skipSpace r with
              | 125%N :: r' => Some (JObj [], r')
              | r1 => parse fuel' (Some []) r1
              end
          | 45%N :: r =>
              match digits 0 false r with
              | Some (n, r') => Some (JNum (- n) 0, r')
              | None => None
              end
          | 116%N :: _ => literal "true" (JBool true) (skipSpace s)
          | 102%N :: _ => literal "false" (JBool false) (skipSpace s)
          | 110%N :: _ => literal "null" JNull (skipSpace s)
          | r =>
              match digits 0 false r with
              | Some (n, r') => Some (JNum n 0, r')
              | None => None
              end
          end
      | Some acc =>
          match skipSpace s with
          | 34%N :: r =>
              match stringBody [] r with
              | Some (key, r1) =>
                  match skipSpace r1 with
                  | 58%N :: r2 =>
                      match parse fuel' None r2 with
                      | Some (v, r3) =>
                          match skipSpace r3 with
                          | 44%N :: r4 => parse fuel' (Some ((key, v) :: acc)) r4
                          | 125%N :: r4 => Some (JObj ((key, v) :: acc), r4)
                          | _ => None
                          end
                      | None => None
                      end
                  | _ => None
                  end
              | None => None
              end
          | _ => None
          end
      end
  end.

Definition parseJson (s : jsstring) : option jsval :=
  match parse (S (List.length s)) None s with
  | Some (v, r) => if isEmpty (skipSpace r) then Some v else None
  | None => None
  end.

Definition hasLower (d : N) : bool :=
  isAsciiUpper d || between 192 214 d || between 216 222 d
  || between 913 929 d || between 931 939 d || between 1040 1071 d
  || between 1024 1039 d || (d =? 8490)%N.

Ltac to_prop :=
  unfold hasLower, between, isAsciiUpper in *;
  rewrite ?orb_true_iff, ?orb_false_iff, ?andb_true_iff, ?andb_false_iff,
    ?N.leb_le, ?N.leb_gt, ?N.eqb_eq, ?N.eqb_neq, ?N.ltb_lt, ?N.ltb_ge in *.

Lemma lower_fixed (d : N) :
  hasLower d = false -> lowerCodePoint lowerTable d = [d].
Proof.
  intros H. unfold hasLower in H. rewrite !orb_false_iff in H.
  destruct H as [[[[[[[H0 H1] H2] H3] H4] H5] H6] H7].
  unfold lowerCodePoint, lowerTable.
  rewrite H0, H1, H2, H3, H4, H5, H6, H7. cbn [orb].
  destruct (d <? 128)%N; reflexivity.
Qed.

Lemma lowerTable_stable (c d : N) :
  In d (lowerCodePoint lowerTable c) -> lowerCodePoint lowerTable d = [d].
Proof.
  unfold lowerCodePoint at 1.
  destruct (isAsciiUpper c) eqn:Hup.
  { intros [<- | []]. apply lower_fixed. to_prop. lia. }
  destruct (c <? 128)%N eqn:Hascii.
  { intros [<- | []]. unfold lowerCodePoint. now rewrite Hup, Hascii. }
  unfold lowerTable.
  destruct (between 192 214 c || between 216 222 c) eqn:H1.
  { intros [<- | []]. apply lower_fixed. to_prop. lia. }
  destruct (between 913 929 c || between 931 939 c) eqn:H2.
  { intros [<- | []]. apply lower_fixed. to_prop. lia. }
  destruct (between 1040 1071 c) eqn:H3.
  { intros [<- | []]. apply lower_fixed. to_prop. lia. }
  destruct (between 1024 1039 c) eqn:H4.
  { intros [<- | []]. apply lower_fixed. to_prop. lia. }
  destruct (c =? 8490)%N eqn:H5.
  { intros [<- | []]. reflexivity. }
  intros [<- | []]. apply lower_fixed. to_prop. lia.
Qed.

Lemma letterTable_not_space (c : N) :
  letterTable c = true -> isWhiteSpace c = false.
Proof.
  unfold letterTable, isWhiteSpace. intros H. to_prop. lia.
Qed.

#[global] Instance miniEngine : JsEngine := {|
  lowerU := lowerTable;
  isLetterU := letterTable;
  JSON_parse := parseJson;
  lowerU_stable := lowerTable_stable;
  letterU_not_space := letterTable_not_space
|}.

End MiniEngine.

(** * Proofs *)

#[local] Arguments constant {E} newValue _ /.
#[local] Arguments apply_update {R E} u _ /.
#[local] Arguments lit : simpl never.
#[local] Arguments isNegativeTurn : simpl never.
#[local] Arguments isAffirmativeTurn : simpl never.
#[local] Arguments isStopIntent : simpl never.
#[local] Arguments toLowerCase : simpl never.
#[local] Arguments includes : simpl never.
#[local] Arguments indexOf : simpl never.
#[local] Arguments lastIndexOf : simpl never.
#[local] Arguments trim : simpl never.
#[local] Arguments parseArgs : simpl never.
#[local] Arguments fnNameOf : simpl never.
#[local] Arguments callIdOf : simpl never.

(** ** Reasoning about handlers *)

Lemma wp_ret {A} (a : A) Q s : Q a s [] -> wp (ret a) Q s.
Proof. exact (fun H => H). Qed.

Lemma wp_bind {A B} (m : M A) (k : A -> M B) Q s :
  wp m (fun a s1 e1 => wp (k a) (fun b s2 e2 => Q b s2 (e1 ++ e2)) s1) s ->
  wp (bind m k) Q s.
Proof.
  unfold wp, bind, valueOf, stateOf, effectsOf.
  destruct (m s) as [[a s1] e1]. cbn.
  destruct (k a s1) as [[b s2] e2]. cbn. exact (fun H => H).
Qed.

Lemma wp_get Q s : Q s s [] -> wp get Q s.
Proof. exact (fun H => H). Qed.

Lemma wp_modify f Q s : Q tt (f s) [] -> wp (modify f) Q s.
Proof. exact (fun H => H). Qed.

Lemma wp_emit e Q s : Q tt s [e] -> wp (emit e) Q s.
Proof. exact (fun H => H). Qed.

Lemma bind_get {B} (k : State -> M B) (s : State) : bind get k s = k s s.
Proof. unfold bind, get. destruct (k s s) as [[b s2] e2]. reflexivity. Qed.

Lemma bind_modify {B} (f : State -> State) (k : unit -> M B) (s : State) :
  bind (modify f) k s = k tt (f s).
Proof. unfold bind, modify. destruct (k tt (f s)) as [[b s2] e2]. reflexivity. Qed.

Lemma bind_ret {A B} (a : A) (k : A -> M B) (s : State) :
  bind (ret a) k s = k a s.
Proof. unfold bind, ret. destruct (k a s) as [[b s2] e2]. reflexivity. Qed.

Lemma wp_mono {A} (m : M A) (Q Q' : A -> State -> list Effect -> Prop) s :
  wp m Q' s -> (forall a s' es, Q' a s' es -> Q a s' es) -> wp m Q s.
Proof. unfold wp. auto. Qed.

(** Reads the fields of a state that is written out. *)
Ltac fields :=
  cbn [eventsDC sessionId conversationId autosaveTimer dirty lastSnapshot
       lastSaveAt saving finalized greetingPending greetTimeoutHandle greeted
       convoState confirmationRequested confirmationAskedAt
       confirmationGranted currentUserTurn turnIndex confirmAskedTurnIndex
       lastUserTurnIndex finalizeFallbackTimer rejectFinalizeUntilTs
       lastStopIntentTs fnArgBuffers userEl aiEl statusEl startBtn_disabled
       stopBtn_disabled isEmpty timerSet negb andb orb
       app savesOf valueOf stateOf effectsOf fst snd apply_update constant].

Tactic Notation "fields" "in" hyp(H) :=
  cbn [eventsDC sessionId conversationId autosaveTimer dirty lastSnapshot
       lastSaveAt saving finalized greetingPending greetTimeoutHandle greeted
       convoState confirmationRequested confirmationAskedAt
       confirmationGranted currentUserTurn turnIndex confirmAskedTurnIndex
       lastUserTurnIndex finalizeFallbackTimer rejectFinalizeUntilTs
       lastStopIntentTs fnArgBuffers userEl aiEl statusEl startBtn_disabled
       stopBtn_disabled isEmpty timerSet negb andb orb
       app savesOf valueOf stateOf effectsOf fst snd apply_update constant] in H.

Tactic Notation "fields" "in" "*" :=
  cbn [eventsDC sessionId conversationId autosaveTimer dirty lastSnapshot
       lastSaveAt saving finalized greetingPending greetTimeoutHandle greeted
       convoState confirmationRequested confirmationAskedAt
       confirmationGranted currentUserTurn turnIndex confirmAskedTurnIndex
       lastUserTurnIndex finalizeFallbackTimer rejectFinalizeUntilTs
       lastStopIntentTs fnArgBuffers userEl aiEl statusEl startBtn_disabled
       stopBtn_disabled isEmpty timerSet negb andb orb
       app savesOf valueOf stateOf effectsOf fst snd apply_update constant] in *.

(** Brings the state of a [wp] goal to a written-out record and reads the
    fields the program tests on it. *)
Ltac wp_state :=
  lazymatch goal with
  | |- wp ?m ?Q ?st =>
      let st' := eval cbn [eventsDC sessionId conversationId autosaveTimer dirty lastSnapshot
       lastSaveAt saving finalized greetingPending greetTimeoutHandle greeted
       convoState confirmationRequested confirmationAskedAt
       confirmationGranted currentUserTurn turnIndex confirmAskedTurnIndex
       lastUserTurnIndex finalizeFallbackTimer rejectFinalizeUntilTs
       lastStopIntentTs fnArgBuffers userEl aiEl statusEl startBtn_disabled
       stopBtn_disabled isEmpty timerSet negb andb orb
       app savesOf valueOf stateOf effectsOf fst snd apply_update constant] in st in
      change (wp m Q st')
  | _ => idtac
  end;
  cbn [eventsDC sessionId conversationId autosaveTimer dirty lastSnapshot
       lastSaveAt saving finalized greetingPending greetTimeoutHandle greeted
       convoState confirmationRequested confirmationAskedAt
       confirmationGranted currentUserTurn turnIndex confirmAskedTurnIndex
       lastUserTurnIndex finalizeFallbackTimer rejectFinalizeUntilTs
       lastStopIntentTs fnArgBuffers userEl aiEl statusEl startBtn_disabled
       stopBtn_disabled isEmpty timerSet negb andb orb
       app savesOf valueOf stateOf effectsOf fst snd].

Ltac wp_head :=
  lazymatch goal with
  | |- wp (bind _ _) _ _ => apply wp_bind
  | |- wp (ret _) _ _ => apply wp_ret
  | |- wp get _ _ => apply wp_get
  | |- wp (modify _) _ _ => apply wp_modify
  | |- wp (emit _) _ _ => apply wp_emit
  | |- wp (when _ _) _ _ => unfold when
  | |- wp (setStatus _) _ _ => unfold setStatus
  | |- wp (setConvoState _) _ _ => unfold setConvoState
  | |- wp (scheduleAutoSave _) _ _ => unfold scheduleAutoSave
  | |- wp markDirty _ _ => unfold markDirty
  | |- wp (append_user _) _ _ => unfold append_user
  | |- wp (append_ai _) _ _ => unfold append_ai
  | |- wp (sendClosingMessage _) _ _ => unfold sendClosingMessage
  | |- wp sendContinueInstruction _ _ => unfold sendContinueInstruction
  | |- wp forceStopSoon _ _ => unfold forceStopSoon
  | |- wp cancelFinalizeFallback _ _ => unfold cancelFinalizeFallback
  | |- wp (if ?b then _ else _) _ _ => destruct b eqn:?
  | |- wp (match ?x with _ => _ end) _ _ => destruct x eqn:?
  end; cbv beta; wp_state.

Ltac wp_run := repeat wp_head.

(** Writes a state out as its record of fields. *)
Ltac open_state s :=
  destruct s as [dc sid cid autoT drt lsnap lsaved sav fin gpend gtimer grt
                 cst req asked granted cut tix askedIx lastIx fbT rejectTs
                 stopTs bufs uel ael stel startDis stopDis].

Ltac unbool :=
  repeat match goal with
         | H : bool_decide _ = true |- _ => apply bool_decide_eq_true in H
         | H : bool_decide _ = false |- _ => apply bool_decide_eq_false in H
         | H : negb _ = true |- _ => apply negb_true_iff in H
         | H : negb _ = false |- _ => apply negb_false_iff in H
         | H : (_ && _) = true |- _ => apply andb_true_iff in H; destruct H
         | H : (_ || _) = false |- _ => apply orb_false_iff in H; destruct H
         | H : (_ <? _) = true |- _ => apply Z.ltb_lt in H
         | H : (_ <? _) = false |- _ => apply Z.ltb_ge in H
         | H : (_ <=? _) = true |- _ => apply Z.leb_le in H
         | H : (_ <=? _) = false |- _ => apply Z.leb_gt in H
         end.

(** Closes a leaf of a symbolic run: the state is opened up, the record
    updates are computed and the recorded branch conditions are used. *)
Ltac leaf s :=
  open_state s; cbn in *; unbool; subst;
  repeat match goal with
         | H : timerSet ?t = _ |- _ =>
             is_var t; destruct t; cbn in H; try discriminate H; clear H
         end;
  try solve [ congruence | lia | intuition (congruence || lia || auto) ].

(** Computes the tests a handler makes on a literal event type. *)
Ltac route :=
  repeat match goal with
         | |- context [indexOf ?a ?b] =>
             let v := eval vm_compute in (indexOf a b) in
             change (indexOf a b) with v
         | |- context [length16 ?a] =>
             let v := eval vm_compute in (length16 a) in
             change (length16 a) with v
         | |- context [@bool_decide (?a = ?b) ?d] =>
             let v := eval vm_compute in (@bool_decide (a = b) d) in
             change (@bool_decide (a = b) d) with v
         end; cbn [Z.eqb Z.sub Z.add Z.opp Pos.eqb negb orb andb Z.pos_sub
                   Pos.pred_double Z.succ_double Z.pred_double Z.double].


Section Proofs.
Context {engine : JsEngine}.

(** ** Routing of the events used below *)

Lemma userTurnCompleted_handled (now : Z) (net : Net) (s : State) :
  handleRealtimeEvent userTurnCompleted now net s
  = (append_user newline ;;
     modify (fun s => { s with turnIndex := turnIndex s + 1 }) ;;
     modify (fun s => { s with lastUserTurnIndex := turnIndex s }) ;;
     s ← get;
     maybeEvaluateUserConfirmation (currentUserTurn s) now ;;
     modify (fun s => { s with currentUserTurn := [] }) ;;
     scheduleAutoSave (Some 3000)) s.
Proof.
  unfold handleRealtimeEvent, userTurnCompleted, plainEvent.
  cbn [e_type]. rewrite bind_get. route.
  rewrite andb_false_r. reflexivity.
Qed.

Lemma userDelta_handled (text : jsstring) (now : Z) (net : Net) (s : State) :
  handleRealtimeEvent (userDelta text) now net s
  = ((match text with
      | _ :: _ =>
          append_user text ;;
          modify (fun s => { s with currentUserTurn := currentUserTurn s ++ text })
      | [] => ret tt
      end) ;;
     markDirty) s.
Proof.
  unfold handleRealtimeEvent, userDelta, withDelta, plainEvent, extractText.
  cbn [e_type e_delta apply_update constant]. rewrite bind_get. route.
  rewrite andb_false_r. destruct text; reflexivity.
Qed.

Lemma wp_userTurnCompleted (now : Z) (net : Net) Q (s : State) :
  wp (append_user newline ;;
      modify (fun s => { s with turnIndex := turnIndex s + 1 }) ;;
      modify (fun s => { s with lastUserTurnIndex := turnIndex s }) ;;
      s ← get;
      maybeEvaluateUserConfirmation (currentUserTurn s) now ;;
      modify (fun s => { s with currentUserTurn := [] }) ;;
      scheduleAutoSave (Some 3000)) Q s ->
  wp (handleRealtimeEvent userTurnCompleted now net) Q s.
Proof. unfold wp. now rewrite userTurnCompleted_handled. Qed.

Lemma wp_userDelta (text : jsstring) (now : Z) (net : Net) Q (s : State) :
  wp ((match text with
       | _ :: _ =>
           append_user text ;;
           modify (fun s => { s with currentUserTurn := currentUserTurn s ++ text })
       | [] => ret tt
       end) ;;
      markDirty) Q s ->
  wp (handleRealtimeEvent (userDelta text) now net) Q s.
Proof. unfold wp. now rewrite userDelta_handled. Qed.

(** ** The confirmation state machine *)

Lemma isNegativeTurn_nil : isNegativeTurn [] = false.
Proof. reflexivity. Qed.

(** A negative turn that is evaluated: the decline is recorded. *)
Lemma negative_turn_declines (s : State) (text : jsstring) (now : Z) :
  isNegativeTurn text = true ->
  confirmationRequested s = true \/ isStopIntent text = true ->
  wp (maybeEvaluateUserConfirmation text now)
     (fun _ s' _ =>
        declined s' /\ rejectFinalizeUntilTs s' = now + 6000
        /\ currentUserTurn s' = currentUserTurn s) s.
Proof.
  intros Hneg Hev. unfold maybeEvaluateUserConfirmation, declined.
  destruct text as [| c text]; [ now rewrite isNegativeTurn_nil in Hneg | ].
  cbn [isEmpty]. rewrite Hneg.
  wp_run; leaf s.
Qed.

(** A turn that completes with nothing requested and no stop intent in it
    is not evaluated at all. *)
Lemma unrequested_turn_ignored (s : State) (text : jsstring) (now : Z) :
  confirmationRequested s = false ->
  isStopIntent text = false ->
  maybeEvaluateUserConfirmation text now s = (tt, s, []).
Proof.
  intros Hreq Hstop. unfold maybeEvaluateUserConfirmation.
  destruct text as [| c text]; [ reflexivity | ].
  cbn [isEmpty]. rewrite Hstop. unfold when.
  rewrite bind_ret, bind_get, Hreq. reflexivity.
Qed.

(** Evaluated or not, a negative turn keeps a recorded decline. *)
Lemma negative_turn_keeps_declined (s : State) (text : jsstring) (now : Z) :
  isNegativeTurn text = true ->
  declined s ->
  wp (maybeEvaluateUserConfirmation text now)
     (fun _ s' _ => declined s' /\ currentUserTurn s' = currentUserTurn s) s.
Proof.
  intros Hneg (Hg & Hr & Ht & Hc).
  destruct (isStopIntent text) eqn:Hstop.
  - eapply wp_mono; [ apply negative_turn_declines; auto | ].
    cbv beta. intuition.
  - unfold wp. rewrite unrequested_turn_ignored by assumption.
    unfold declined. cbn. auto.
Qed.

Lemma userDelta_accumulates (s : State) (text : jsstring) (now : Z) (net : Net) :
  wp (handleRealtimeEvent (userDelta text) now net)
     (fun _ s' es =>
        currentUserTurn s' = currentUserTurn s ++ text
        /\ confirmationGranted s' = confirmationGranted s
        /\ confirmationRequested s' = confirmationRequested s
        /\ finalizeFallbackTimer s' = finalizeFallbackTimer s
        /\ convoState s' = convoState s
        /\ rejectFinalizeUntilTs s' = rejectFinalizeUntilTs s
        /\ lastStopIntentTs s' = lastStopIntentTs s
        /\ savesOf es = []) s.
Proof.
  apply wp_userDelta. open_state s; fields.
  destruct text; wp_run; rewrite ?app_nil_r; auto 10.
Qed.

Lemma completed_negative (s : State) (now : Z) (net : Net) :
  isNegativeTurn (currentUserTurn s) = true ->
  wp (handleRealtimeEvent userTurnCompleted now net)
     (fun _ s' _ =>
        currentUserTurn s' = []
        /\ (declined s -> declined s')
        /\ (confirmationRequested s = true
            \/ isStopIntent (currentUserTurn s) = true ->
            declined s' /\ rejectFinalizeUntilTs s' = now + 6000)) s.
Proof.
  intros Hneg. apply wp_userTurnCompleted. open_state s; fields in Hneg.
  wp_run.
  match goal with
  | |- wp (maybeEvaluateUserConfirmation _ _) _ ?st =>
      pose proof (negative_turn_declines st _ now Hneg) as Hev;
      pose proof (negative_turn_keeps_declined st _ now Hneg) as Hkeep
  end.
  unfold wp, declined in *. fields in Hev. fields in Hkeep.
  fields. intuition.
Qed.

Lemma run_app (xs ys : list (Z * Input)) (s : State) :
  run (xs ++ ys) s = (run xs ;; run ys) s.
Proof.
  revert s. induction xs as [| [now i] xs IH]; intros s; cbn [run List.app].
  - now rewrite bind_ret.
  - unfold bind. destruct (step now i s) as [[u s1] e1].
    rewrite IH. unfold bind.
    destruct (run xs s1) as [[u1 s2] e2]. destruct (run ys s2) as [[u2 s3] e3].
    now rewrite app_assoc.
Qed.

Lemma wp_run_app (xs ys : list (Z * Input)) Q (s : State) :
  wp (run xs) (fun _ s1 e1 => wp (run ys) (fun u s2 e2 => Q u s2 (e1 ++ e2)) s1) s ->
  wp (run (xs ++ ys)) Q s.
Proof.
  intros H. unfold wp at 1. rewrite run_app. now apply wp_bind.
Qed.

(** One negative reply, spoken and completed. *)
Lemma negative_reply (s : State) (now : Z) (text : jsstring) :
  currentUserTurn s = [] ->
  isNegativeTurn text = true ->
  wp (run (userSays now text))
     (fun _ s' _ =>
        currentUserTurn s' = []
        /\ (declined s -> declined s')
        /\ (confirmationRequested s = true \/ isStopIntent text = true ->
            declined s' /\ rejectFinalizeUntilTs s' = now + 6000)) s.
Proof.
  intros Hcur Hneg. unfold userSays. cbn [run step].
  apply wp_bind.
  eapply wp_mono; [ apply userDelta_accumulates | ].
  cbv beta. intros _ s1 e1 (Hturn & Hg & Hr & Ht & Hc & _).
  rewrite Hcur in Hturn. cbn [List.app] in Hturn.
  apply wp_bind.
  eapply wp_mono; [ apply completed_negative; now rewrite Hturn | ].
  cbv beta. intros _ s2 e2 (Hcur2 & Hkeep & Hev).
  apply wp_ret. unfold declined in *.
  rewrite Hg, Hr, Ht, Hc, Hturn in *. auto.
Qed.

Lemma negative_replies_keep_declined (rest : list (Z * jsstring)) (s : State) :
  currentUserTurn s = [] ->
  Forall (fun r => isNegativeTurn (snd r) = true) rest ->
  declined s ->
  wp (run (saying rest)) (fun _ s' _ => declined s' /\ currentUserTurn s' = []) s.
Proof.
  revert s. induction rest as [| [now text] rest IH]; intros s Hcur Hall Hdec.
  - apply wp_ret. auto.
  - inversion Hall as [| r l Hneg Hrest]; subst. cbn [snd] in Hneg.
    unfold saying. cbn [flat_map fst snd]. apply wp_run_app.
    eapply wp_mono; [ apply negative_reply; eassumption | ].
    cbv beta. intros _ s1 e1 (Hcur1 & Hkeep & _).
    eapply wp_mono; [ apply IH; auto | ].
    cbv beta. auto.
Qed.

(** C3 (as amended): a negative user turn that is evaluated -- a
    confirmation is requested when it completes, or the turn itself carries
    a stop intent -- leaves granted and requested false, the lockout at
    now + 6s, no fallback timer and the lifecycle active; and so does every
    sequence of negative replies whose first one is evaluated. *)
Theorem negative_reply_declines :
  (forall (s : State) (now : Z) (net : Net),
      isNegativeTurn (currentUserTurn s) = true ->
      confirmationRequested s = true \/ isStopIntent (currentUserTurn s) = true ->
      let s' := stateOf (handleRealtimeEvent userTurnCompleted now net s) in
      confirmationGranted s' = false
      /\ confirmationRequested s' = false
      /\ rejectFinalizeUntilTs s' = now + 6000
      /\ finalizeFallbackTimer s' = TNull
      /\ convoState s' = active)
  /\ (forall (s : State) (first : Z * jsstring) (rest : list (Z * jsstring)),
        currentUserTurn s = [] ->
        Forall (fun r => isNegativeTurn (snd r) = true) (first :: rest) ->
        confirmationRequested s = true \/ isStopIntent (snd first) = true ->
        let s' := stateOf (run (saying (first :: rest)) s) in
        confirmationGranted s' = false
        /\ confirmationRequested s' = false
        /\ finalizeFallbackTimer s' = TNull
        /\ convoState s' = active).
Proof.
  split.
  - intros s now net Hneg Hev.
    pose proof (completed_negative s now net Hneg) as H.
    unfold wp, declined in H. destruct H as (_ & _ & H).
    destruct (H Hev) as ((? & ? & ? & ?) & ?). auto.
  - intros s [now text] rest Hcur Hall Hev.
    inversion Hall as [| r l Hneg Hrest]; subst. cbn [snd] in *.
    assert (wp (run (saying ((now, text) :: rest)))
              (fun _ s' _ => declined s' /\ currentUserTurn s' = []) s) as H.
    { unfold saying. cbn [flat_map fst snd]. apply wp_run_app.
      eapply wp_mono; [ apply negative_reply; eassumption | ].
      cbv beta. intros _ s1 e1 (Hcur1 & _ & Hdec).
      destruct (Hdec Hev) as [Hd _].
      eapply wp_mono; [ apply negative_replies_keep_declined; auto | ].
      cbv beta. auto. }
    unfold wp, declined in H. tauto.
Qed.

(** C4: a stop-intent turn followed five seconds later by the standalone
    reply ok, with no question asked and no lockout: the reply is
    affirmative, yet it is not evaluated, granted stays false and
    hasFinalizePermission answers false. *)
Theorem standalone_ok_after_stop_intent :
  let t0 := 1700000000000 in
  let s := stateOf (run (userSays t0 (lit "stop")
                         ++ userSays (t0 + 5000) (lit "ok")) bootState) in
  isStopIntent (lit "stop") = true
  /\ isAffirmativeTurn (lit "ok") = true
  /\ confirmationRequested s = false
  /\ lastStopIntentTs s = t0
  /\ rejectFinalizeUntilTs s = 0
  /\ confirmationGranted s = false
  /\ hasFinalizePermission s (t0 + 5000) = false.
Proof. vm_compute. repeat split; reflexivity. Qed.

End Proofs.
(** ** Strings: trimming *)

Lemma trimStart_nil (s : jsstring) :
  trimStart s = [] -> forallb isWhiteSpace s = true.
Proof.
  induction s as [| c s IH]; cbn; [ reflexivity | ].
  destruct (isWhiteSpace c); [ exact IH | discriminate ].
Qed.

Lemma trimStart_blank (s : jsstring) :
  forallb isWhiteSpace s = true -> trimStart s = [].
Proof.
  induction s as [| c s IH]; cbn; [ reflexivity | ].
  destruct (isWhiteSpace c); [ exact IH | discriminate ].
Qed.

Lemma trimStart_suffix (s : jsstring) :
  exists pre, s = pre ++ trimStart s /\ forallb isWhiteSpace pre = true.
Proof.
  induction s as [| c s (pre & Hs & Hpre)]; cbn.
  - exists []. auto.
  - destruct (isWhiteSpace c) eqn:Hc.
    + exists (c :: pre). cbn. rewrite Hc, Hpre. split; [ congruence | reflexivity ].
    + exists []. auto.
Qed.

Lemma forallb_rev {A} (f : A -> bool) (l : list A) :
  forallb f (rev l) = forallb f l.
Proof.
  induction l as [| a l IH]; cbn; [ reflexivity | ].
  rewrite forallb_app, IH. cbn. rewrite andb_true_r. apply andb_comm.
Qed.

(** Only a string of white space trims to the empty string. *)
Lemma trim_nil (s : jsstring) :
  trim s = [] -> forallb isWhiteSpace s = true.
Proof.
  unfold trim, trimEnd. intros H.
  assert (trimStart (rev (trimStart s)) = []) as H1.
  { destruct (trimStart (rev (trimStart s))) as [| c l]; [ reflexivity | ].
    cbn in H. now destruct (rev l). }
  apply trimStart_nil in H1. rewrite forallb_rev in H1.
  destruct (trimStart_suffix s) as (pre & Hs & Hpre).
  rewrite Hs, forallb_app, Hpre, H1. reflexivity.
Qed.

(** The separator keeps the snapshot from ever being blank, so the test
    [!snap.trim()] of [saveConversation] is never taken. *)
Lemma snapshot_not_blank (s : State) : isEmpty (trim (currentSnapshot s)) = false.
Proof.
  destruct (trim (currentSnapshot s)) eqn:H; [ | reflexivity ].
  apply trim_nil in H. unfold currentSnapshot in H.
  rewrite !forallb_app in H. cbn in H.
  rewrite !andb_false_r in H. discriminate.
Qed.

Section Saving.
Context {engine : JsEngine}.

Lemma saveConversation_begin_eq (options : SaveOptions) (nowTs : Z) (s : State) :
  saveConversation_begin options nowTs s
  = if blockedInFlight s options then (Skip false, s, [])
    else if throttled s options nowTs then (Skip true, s, [])
    else (Send (payloadOf s options) (currentSnapshot s),
          { s with saving := true },
          [EffFetchSave (payloadOf s options)]).
Proof.
  unfold saveConversation_begin, blockedInFlight, throttled.
  rewrite bind_get, snapshot_not_blank.
  destruct (saving s && negb (opt_finalize options)); [ reflexivity | ].
  destruct (negb (opt_finalize options) && opt_autosave options
            && (nowTs - lastSaveAt s <? MIN_SAVE_INTERVAL_MS));
    reflexivity.
Qed.

(** What [saveConversation] does, case by case. *)
Lemma wp_saveConversation (options : SaveOptions) (nowTs : Z) (net : Net)
    (Q : bool -> State -> list Effect -> Prop) (s : State) :
  (if blockedInFlight s options then Q false s []
   else if throttled s options nowTs then Q true s []
   else
     match outcome net with
     | FetchResponse true js_id =>
         Q true
           { s with
             conversationId :=
               match js_id with Some i => Some i | None => conversationId s end;
             lastSnapshot := currentSnapshot s;
             lastSaveAt := arrival net;
             dirty := false;
             saving := false }
           [EffFetchSave (payloadOf s options)]
     | _ => Q false { s with saving := false } [EffFetchSave (payloadOf s options)]
     end) ->
  wp (saveConversation options nowTs net) Q s.
Proof.
  unfold wp, saveConversation, bind.
  rewrite saveConversation_begin_eq.
  destruct (blockedInFlight s options); [ exact (fun H => H) | ].
  destruct (throttled s options nowTs); [ exact (fun H => H) | ].
  unfold saveConversation_end, bind.
  destruct s, net as [[| [] [i |]] arr thr]; exact (fun H => H).
Qed.

(** The [ok] that [saveConversation] reports. *)
Lemma saveConversation_ok (options : SaveOptions) (nowTs : Z) (net : Net) (s : State) :
  valueOf (saveConversation options nowTs net s)
  = if blockedInFlight s options then false
    else if throttled s options nowTs then true
    else fetchOk net.
Proof.
  apply (wp_saveConversation options nowTs net
           (fun ok _ _ => ok = if blockedInFlight s options then false
                               else if throttled s options nowTs then true
                               else fetchOk net)).
  destruct (blockedInFlight s options); [ reflexivity | ].
  destruct (throttled s options nowTs); [ reflexivity | ].
  unfold fetchOk. destruct (outcome net) as [| [] ?]; reflexivity.
Qed.

End Saving.

Ltac wp_save :=
  lazymatch goal with
  | |- wp (saveConversation _ _ _) _ _ => apply wp_saveConversation
  end;
  unfold blockedInFlight, throttled; cbv beta; wp_state;
  repeat match goal with
         | |- (if ?b then _ else _) => destruct b eqn:?
         | |- match outcome ?n with _ => _ end =>
             let o := fresh "o" in
             destruct (outcome n) as [| [] ?] eqn:o
         end;
  cbv beta; wp_state.

Ltac wp_exec_head :=
  first
    [ wp_head
    | wp_save
    | lazymatch goal with
      | |- wp (stop _ _ _ _) _ _ => unfold stop
      | |- wp (finalizeNow _ _ _) _ _ => unfold finalizeNow
      | |- wp (finalizeClientSide _ _ _) _ _ => unfold finalizeClientSide
      | |- wp (tryAutoSave _ _ _) _ _ => unfold tryAutoSave
      | |- wp (maybeEvaluateUserConfirmation _ _) _ _ =>
          unfold maybeEvaluateUserConfirmation
      | |- wp (maybeMarkConfirmationRequested _ _) _ _ =>
          unfold maybeMarkConfirmationRequested
      end; cbv beta; wp_state ].

Ltac wp_exec := repeat wp_exec_head.

Section Stop.
Context {engine : JsEngine}.

(** C7: in the two-phase stop of a session that is not yet finalized, a
    failed phase 1 (the non-final save) means that no finalize request is
    sent in that call, finalized stays false and the lifecycle is untouched;
    after a phase 1 that succeeded one finalize request is sent, and when
    the server does not accept it finalized stays false and the lifecycle
    is untouched as well; finalized becomes true exactly when phase 1
    succeeded and the server accepted the finalize request of phase 2, and
    then the lifecycle is ended. *)
Theorem two_phase_stop (s : State) (now : Z) (net1 net2 : Net) :
  finalized s = false ->
  let phase1 :=
    valueOf (saveConversation (autosaveOptions (lit "manual_stop")) now net1 s) in
  let r := stop false now net1 net2 s in
  (phase1 = false ->
     Forall noFinalize (savesOf (effectsOf r))
     /\ finalized (stateOf r) = false
     /\ convoState (stateOf r) = convoState s)
  /\ (phase1 = true ->
      exists p, List.filter finalize (savesOf (effectsOf r)) = [p]
                /\ confirmed p = true /\ close p = true)
  /\ (phase1 = true -> fetchOk net2 = false ->
      finalized (stateOf r) = false
      /\ convoState (stateOf r) = convoState s)
  /\ (finalized (stateOf r) = true <-> phase1 = true /\ fetchOk net2 = true)
  /\ (finalized (stateOf r) = true -> convoState (stateOf r) = ended).
Proof.
  intros Hfin phase1 r. subst phase1 r.
  rewrite saveConversation_ok. unfold blockedInFlight, throttled, fetchOk.
  change (wp (stop false now net1 net2)
            (fun _ s' es =>
               ((if saving s && negb (opt_finalize (autosaveOptions (lit "manual_stop")))
                 then false
                 else if negb (opt_finalize (autosaveOptions (lit "manual_stop")))
                         && opt_autosave (autosaveOptions (lit "manual_stop"))
                         && (now - lastSaveAt s <? MIN_SAVE_INTERVAL_MS)
                      then true
                      else match outcome net1 with
                           | FetchResponse res_ok _ => res_ok
                           | FetchThrows => false
                           end) = false ->
                Forall noFinalize (savesOf es)
                /\ finalized s' = false /\ convoState s' = convoState s)
               /\ ((if saving s && negb (opt_finalize (autosaveOptions (lit "manual_stop")))
                    then false
                    else if negb (opt_finalize (autosaveOptions (lit "manual_stop")))
                            && opt_autosave (autosaveOptions (lit "manual_stop"))
                            && (now - lastSaveAt s <? MIN_SAVE_INTERVAL_MS)
                         then true
                         else match outcome net1 with
                              | FetchResponse res_ok _ => res_ok
                              | FetchThrows => false
                              end) = true ->
                   exists p, List.filter finalize (savesOf es) = [p]
                             /\ confirmed p = true /\ close p = true)
               /\ ((if saving s && negb (opt_finalize (autosaveOptions (lit "manual_stop")))
                    then false
                    else if negb (opt_finalize (autosaveOptions (lit "manual_stop")))
                            && opt_autosave (autosaveOptions (lit "manual_stop"))
                            && (now - lastSaveAt s <? MIN_SAVE_INTERVAL_MS)
                         then true
                         else match outcome net1 with
                              | FetchResponse res_ok _ => res_ok
                              | FetchThrows => false
                              end) = true ->
                   match outcome net2 with
                   | FetchResponse res_ok _ => res_ok
                   | FetchThrows => false
                   end = false ->
                   finalized s' = false /\ convoState s' = convoState s)
               /\ (finalized s' = true <->
                   (if saving s && negb (opt_finalize (autosaveOptions (lit "manual_stop")))
                    then false
                    else if negb (opt_finalize (autosaveOptions (lit "manual_stop")))
                            && opt_autosave (autosaveOptions (lit "manual_stop"))
                            && (now - lastSaveAt s <? MIN_SAVE_INTERVAL_MS)
                         then true
                         else match outcome net1 with
                              | FetchResponse res_ok _ => res_ok
                              | FetchThrows => false
                              end) = true
                   /\ match outcome net2 with
                      | FetchResponse res_ok _ => res_ok
                      | FetchThrows => false
                      end = true)
               /\ (finalized s' = true -> convoState s' = ended)) s).
  open_state s; fields in Hfin; subst. cbn [opt_finalize opt_autosave autosaveOptions negb andb].
  fields.
  wp_exec.
  all: fields; cbn [opt_finalize opt_autosave autosaveOptions finalizeOptions] in *.
  all: repeat match goal with
             | H : outcome ?n = _ |- _ => rewrite H in *; clear H
             end.
  all: destruct sav;
    destruct (now - lsaved <? MIN_SAVE_INTERVAL_MS) eqn:Hthr;
    cbn [negb andb orb] in *; try discriminate.
  all: unfold noFinalize; cbn.
  all: repeat split; intros; try discriminate; try tauto; auto.
  all: try (eexists; repeat split; reflexivity).
  all: unbool; auto.
Qed.
End Stop.

(** ** What a handler sends *)

Lemma savesOf_app (e1 e2 : list Effect) :
  savesOf (e1 ++ e2) = savesOf e1 ++ savesOf e2.
Proof.
  induction e1 as [| [] e1 IH]; cbn; rewrite ?IH; reflexivity.
Qed.

Lemma sends_ret P {A} (a : A) : sends P (ret a).
Proof. intros s. constructor. Qed.

Lemma sends_get P : sends P get.
Proof. intros s. constructor. Qed.

Lemma sends_modify P f : sends P (modify f).
Proof. intros s. constructor. Qed.

Lemma sends_bind P {A B} (m : M A) (k : A -> M B) :
  sends P m -> (forall a, sends P (k a)) -> sends P (bind m k).
Proof.
  intros Hm Hk s. specialize (Hm s). unfold bind, effectsOf in *.
  destruct (m s) as [[a s1] e1]. specialize (Hk a s1).
  destruct (k a s1) as [[b s2] e2]. cbn [snd] in *.
  rewrite savesOf_app. apply Forall_app. auto.
Qed.

Lemma sends_emit P (e : Effect) :
  match e with EffFetchSave p => P p | _ => True end -> sends P (emit e).
Proof.
  intros H s. cbn. destruct e; cbn; auto.
Qed.

Lemma sends_weaken (P P' : SaveRequest -> Prop) {A} (m : M A) :
  (forall p, P p -> P' p) -> sends P m -> sends P' m.
Proof. intros H Hm s. eapply Forall_impl; [ exact H | apply Hm ]. Qed.

Lemma silent_sends P {A} (m : M A) : silent m -> sends P m.
Proof. apply sends_weaken. intros p []. Qed.

Lemma silent_saves {A} (m : M A) (s : State) :
  silent m -> savesOf (effectsOf (m s)) = [].
Proof.
  intros H. specialize (H s). destruct (savesOf (effectsOf (m s))); [ reflexivity | ].
  inversion H as [| ? ? []].
Qed.

Lemma wp_sends P {A} (m : M A) (s : State) :
  sends P m -> wp m (fun _ _ es => Forall P (savesOf es)) s.
Proof. intros H. apply H. Qed.

Ltac sends_head :=
  lazymatch goal with
  | |- silent _ => unfold silent
  | |- sends _ (bind _ _) => apply sends_bind; [ | intros ? ]
  | |- sends _ (ret _) => apply sends_ret
  | |- sends _ get => apply sends_get
  | |- sends _ (modify _) => apply sends_modify
  | |- sends _ (emit _) => apply sends_emit; exact I
  | |- sends _ (when _ _) => unfold when
  | |- sends _ (setStatus _) => unfold setStatus
  | |- sends _ (setConvoState _) => unfold setConvoState
  | |- sends _ (scheduleAutoSave _) => unfold scheduleAutoSave
  | |- sends _ markDirty => unfold markDirty
  | |- sends _ (append_user _) => unfold append_user
  | |- sends _ (append_ai _) => unfold append_ai
  | |- sends _ (sendClosingMessage _) => unfold sendClosingMessage
  | |- sends _ sendContinueInstruction => unfold sendContinueInstruction
  | |- sends _ forceStopSoon => unfold forceStopSoon
  | |- sends _ cancelFinalizeFallback => unfold cancelFinalizeFallback
  | |- sends _ (maybeEvaluateUserConfirmation _ _) =>
      unfold maybeEvaluateUserConfirmation
  | |- sends _ (maybeMarkConfirmationRequested _ _) =>
      unfold maybeMarkConfirmationRequested
  | |- sends _ (if ?b then _ else _) => destruct b eqn:?
  | |- sends _ (match ?x with _ => _ end) => destruct x eqn:?
  end.

Ltac sends_run := repeat sends_head.

Section Sends.
Context {engine : JsEngine}.

(** A request is sent only with the payload built from the options. *)
Lemma sends_saveConversation P (options : SaveOptions) (nowTs : Z) (net : Net) :
  (forall s, P (payloadOf s options)) ->
  sends P (saveConversation options nowTs net).
Proof.
  intros H s.
  apply (wp_saveConversation options nowTs net
           (fun _ _ es => Forall P (savesOf es))).
  destruct (blockedInFlight s options); [ constructor | ].
  destruct (throttled s options nowTs); [ constructor | ].
  destruct (outcome net) as [| [] ?]; cbn; auto.
Qed.

Lemma silent_confirmation (text : jsstring) (now : Z) :
  silent (maybeEvaluateUserConfirmation text now).
Proof. sends_run. Qed.

Lemma silent_question (text : jsstring) (now : Z) :
  silent (maybeMarkConfirmationRequested text now).
Proof. sends_run. Qed.

Lemma silent_stop_skipSave (now : Z) (net1 net2 : Net) :
  silent (stop true now net1 net2).
Proof. unfold stop. cbn [negb]. sends_run. Qed.

Lemma sends_tryAutoSave P (reason : jsstring) (now : Z) (net : Net) :
  (forall s r, P (payloadOf s (autosaveOptions r))) ->
  sends P (tryAutoSave reason now net).
Proof.
  intros H. unfold tryAutoSave. sends_run.
  apply sends_saveConversation. auto.
Qed.

Lemma sends_stop P (skipSave : bool) (now : Z) (net1 net2 : Net) :
  admits P -> sends P (stop skipSave now net1 net2).
Proof.
  intros H. unfold stop. sends_run.
  all: try (apply sends_saveConversation; intros; apply H).
Qed.

Lemma sends_finalizeNow P (reason : jsstring) (now : Z) (net : Net) :
  admits P -> sends P (finalizeNow reason now net).
Proof.
  intros H. unfold finalizeNow. sends_run.
  all: try (apply sends_saveConversation; intros; apply H).
  all: apply silent_sends, silent_stop_skipSave.
Qed.

Lemma sends_finalizeClientSide P (reason : jsstring) (now : Z) (net : Net) :
  admits P -> sends P (finalizeClientSide reason now net).
Proof.
  intros H. unfold finalizeClientSide. sends_run.
  all: apply sends_finalizeNow; assumption.
Qed.

Lemma sends_handleFunctionCallEvent P (evt : Event) (now : Z) (net : Net) :
  admits P -> sends P (handleFunctionCallEvent evt now net).
Proof.
  intros H. unfold handleFunctionCallEvent. sends_run.
  apply sends_finalizeNow; assumption.
Qed.

Lemma sends_handleRealtimeEvent P (evt : Event) (now : Z) (net : Net) :
  admits P -> sends P (handleRealtimeEvent evt now net).
Proof.
  intros H. unfold handleRealtimeEvent. sends_run.
  all: first [ apply sends_handleFunctionCallEvent; assumption
             | apply silent_sends, silent_stop_skipSave
             | apply silent_sends, silent_confirmation
             | apply silent_sends, silent_question ].
Qed.

Lemma sends_step P (now : Z) (i : Input) :
  admits P -> sends P (step now i).
Proof.
  intros H. destruct i; cbn [step]; sends_run.
  all: first [ apply sends_handleRealtimeEvent; assumption
             | apply sends_tryAutoSave; intros; apply H
             | apply sends_finalizeClientSide; assumption
             | apply sends_stop; assumption ].
Qed.

Lemma sends_run_inputs P (inputs : list (Z * Input)) :
  admits P -> sends P (run inputs).
Proof.
  intros H. induction inputs as [| [now i] inputs IH]; cbn [run].
  - apply sends_ret.
  - apply sends_bind; [ apply sends_step; assumption | intros _; exact IH ].
Qed.

Lemma admits_confirmedIfFinal : admits confirmedIfFinal.
Proof. intros s reason. split; intros H; cbn in *; [ discriminate | reflexivity ]. Qed.

End Sends.

Section Permission.
Context {engine : JsEngine}.

Lemma toolEvent_handled (evt : Event) (now : Z) (net : Net) (s : State) :
  isToolEvent (e_type evt) = true ->
  handleRealtimeEvent evt now net s = handleFunctionCallEvent evt now net s.
Proof.
  intros H. unfold handleRealtimeEvent, isToolEvent in *.
  now rewrite bind_get, H.
Qed.

(** Any other event sends no save request. *)
Lemma otherEvent_silent (evt : Event) (now : Z) (net : Net) (s : State) :
  isToolEvent (e_type evt) = false ->
  savesOf (effectsOf (handleRealtimeEvent evt now net s)) = [].
Proof.
  intros H. unfold handleRealtimeEvent, isToolEvent in *.
  rewrite bind_get, H.
  repeat match goal with
         | |- context [if ?b then _ else _] => destruct b
         end.
  all: apply silent_saves; sends_run.
  all: first [ apply silent_stop_skipSave
             | apply silent_confirmation
             | apply silent_question ].
Qed.

Lemma permission_needs_grant (s : State) (now : Z) :
  hasFinalizePermission s now = true -> confirmationGranted s = true.
Proof.
  unfold hasFinalizePermission. rewrite orb_true_iff, !andb_true_iff. tauto.
Qed.

Lemma silent_rejection (status : jsstring) : silent (rejection status).
Proof. unfold rejection. sends_run. Qed.

(** The termination action sends a finalize request only outside the
    lockout, with [confirmed] among its arguments and with permission. *)
Lemma tool_finalize_needs_permission (evt : Event) (now : Z) (net : Net)
    (s : State) (p : SaveRequest) :
  In p (savesOf (effectsOf (handleFunctionCallEvent evt now net s))) ->
  rejectFinalizeUntilTs s <= now
  /\ hasFinalizePermission s now = true
  /\ argConfirmed (parseArgs (orDefault (fnArgBuffers s !! callIdOf evt) [])) = true.
Proof.
  unfold handleFunctionCallEvent.
  destruct (isDeltaType (e_type evt)).
  { intros []. }
  destruct (isDoneType (e_type evt)); [ | intros [] ].
  rewrite bind_get, bind_modify.
  destruct (bool_decide (fnNameOf evt = lit "finalize_conversation")); [ | intros [] ].
  rewrite bind_get.
  open_state s; fields.
  destruct (now <? rejectTs) eqn:Hlock.
  { fold (rejection (lit "Continuing (finalize ignored during NO lockout).")).
    rewrite silent_saves by apply silent_rejection. intros []. }
  match goal with
  | |- context [negb (?c && ?h)] => destruct c eqn:Hc; destruct h eqn:Hperm
  end; cbn [negb andb].
  2-4: fold (rejection (lit "Continuing (no valid confirmation to end)."));
       rewrite silent_saves by apply silent_rejection; intros [].
  intros _. apply Z.ltb_ge in Hlock. auto.
Qed.

End Permission.

Section Finalized.
Context {engine : JsEngine}.

Lemma assistantDelta_handled (text : jsstring) (now : Z) (net : Net) (s : State) :
  handleRealtimeEvent (assistantDelta text) now net s
  = ((match text with
      | _ :: _ =>
          append_ai text ;;
          maybeMarkConfirmationRequested text now
      | [] => ret tt
      end) ;;
     markDirty) s.
Proof.
  unfold handleRealtimeEvent, assistantDelta, withDelta, plainEvent, extractText.
  cbn [e_type e_delta apply_update constant]. rewrite bind_get. route.
  rewrite andb_false_r. destruct text; reflexivity.
Qed.

Lemma wp_assistantDelta (text : jsstring) (now : Z) (net : Net) Q (s : State) :
  wp ((match text with
       | _ :: _ =>
           append_ai text ;;
           maybeMarkConfirmationRequested text now
       | [] => ret tt
       end) ;;
      markDirty) Q s ->
  wp (handleRealtimeEvent (assistantDelta text) now net) Q s.
Proof. unfold wp. now rewrite assistantDelta_handled. Qed.

Lemma markDirty_finalized (s : State) :
  finalized s = true -> markDirty s = (tt, s, []).
Proof.
  intros H. unfold markDirty. rewrite bind_get, H. reflexivity.
Qed.

Lemma tryAutoSave_clean (reason : jsstring) (now : Z) (net : Net) (s : State) :
  dirty s = false -> tryAutoSave reason now net s = (tt, s, []).
Proof.
  intros H. unfold tryAutoSave. rewrite bind_get, H. reflexivity.
Qed.

Lemma otherEvent_keeps_finalized (evt : Event) (now : Z) (net : Net) (s : State) :
  isToolEvent (e_type evt) = false ->
  finalized s = true ->
  wp (handleRealtimeEvent evt now net)
     (fun _ s' _ => finalized s' = true /\ dirty s' = dirty s) s.
Proof.
  intros Htool Hfin. unfold handleRealtimeEvent, isToolEvent in *.
  open_state s; fields in Hfin; subst.
  wp_head. wp_head. rewrite Htool. cbv iota.
  wp_exec; fields; auto.
Qed.

Lemma transcriptInput_clean (now : Z) (i : Input) (s : State) :
  transcriptInput i = true ->
  finalized s = true ->
  dirty s = false ->
  wp (step now i)
     (fun _ s' es => savesOf es = [] /\ finalized s' = true /\ dirty s' = false) s.
Proof.
  intros Hi Hfin Hdirty.
  destruct i as [evt net | net | net | | net1 net2 | | net];
    cbn [transcriptInput] in Hi; try discriminate; cbn [step].
  - apply negb_true_iff in Hi.
    pose proof (otherEvent_keeps_finalized evt now net s Hi Hfin) as H.
    pose proof (otherEvent_silent evt now net s Hi) as Hs.
    unfold wp in *. rewrite Hs, Hdirty in *. tauto.
  - open_state s; fields in Hfin; fields in Hdirty; subst.
    wp_exec; fields; auto.
  - open_state s; fields in Hfin; fields in Hdirty; subst.
    wp_exec; fields; auto.
Qed.

(** Whichever way the page finalizes, finalized ends true only with
    dirty reset. *)
Lemma finalize_leaves_clean (s : State) (reason : jsstring) (now : Z) (net : Net) :
  wp (finalizeNow reason now net)
     (fun _ s' _ => finalized s' = true -> dirty s' = false) s.
Proof.
  open_state s. unfold finalizeNow. wp_exec; fields; auto; discriminate.
Qed.

Lemma stop_leaves_clean (s : State) (now : Z) (net1 net2 : Net) :
  finalized s = false ->
  wp (stop false now net1 net2)
     (fun _ s' _ => finalized s' = true -> dirty s' = false) s.
Proof.
  intros Hfin. open_state s; fields in Hfin; subst.
  unfold stop. cbn [negb]. wp_exec; fields; auto; discriminate.
Qed.

(** C10: once finalized is true, markDirty does nothing, so a text delta
    neither sets dirty nor re-arms the autosave timer; and after a
    successful finalize (finalized, not dirty) no transcript activity
    makes the page send a save request. *)
Theorem finalized_stops_autosave :
  (forall s : State, finalized s = true -> markDirty s = (tt, s, []))
  /\ (forall (s : State) (text : jsstring) (now : Z) (net : Net) (evt : Event),
        finalized s = true ->
        evt = userDelta text \/ evt = assistantDelta text ->
        let r := handleRealtimeEvent evt now net s in
        dirty (stateOf r) = dirty s
        /\ autosaveTimer (stateOf r) = autosaveTimer s
        /\ savesOf (effectsOf r) = [])
  /\ (forall (s : State) (reason : jsstring) (now : Z) (net : Net),
        let r := finalizeNow reason now net s in
        finalized (stateOf r) = true -> dirty (stateOf r) = false)
  /\ (forall (inputs : list (Z * Input)) (s : State),
        Forall (fun ti => transcriptInput (snd ti) = true) inputs ->
        finalized s = true ->
        dirty s = false ->
        let r := run inputs s in
        savesOf (effectsOf r) = []
        /\ finalized (stateOf r) = true
        /\ dirty (stateOf r) = false).
Proof.
  split; [ exact markDirty_finalized | split; [ | split ] ];
    [ | intros s reason now net; exact (finalize_leaves_clean s reason now net) | ].
  - intros s text now net evt Hfin [-> | ->]; cbv zeta.
    + change (wp (handleRealtimeEvent (userDelta text) now net)
                (fun _ s' es => dirty s' = dirty s
                                /\ autosaveTimer s' = autosaveTimer s
                                /\ savesOf es = []) s).
      apply wp_userDelta. open_state s; fields in Hfin; subst.
      destruct text; wp_exec; fields; auto.
    + change (wp (handleRealtimeEvent (assistantDelta text) now net)
                (fun _ s' es => dirty s' = dirty s
                                /\ autosaveTimer s' = autosaveTimer s
                                /\ savesOf es = []) s).
      apply wp_assistantDelta.
      open_state s; fields in Hfin; subst.
      destruct text; wp_exec; fields; auto.
  - intros inputs. induction inputs as [| [now i] inputs IH];
      intros s Hall Hfin Hdirty; cbv zeta.
    + cbn. auto.
    + inversion Hall as [| ? ? Hi Hrest]; subst. cbn [snd] in Hi.
      change (wp (run ((now, i) :: inputs))
                (fun _ s' es => savesOf es = [] /\ finalized s' = true
                                /\ dirty s' = false) s).
      cbn [run]. apply wp_bind.
      eapply wp_mono; [ apply transcriptInput_clean; assumption | ].
      cbv beta. intros _ s1 e1 (He1 & Hfin1 & Hdirty1).
      specialize (IH s1 Hrest Hfin1 Hdirty1). cbv zeta in IH.
      unfold wp. rewrite savesOf_app, He1. exact IH.
Qed.

End Finalized.

Section Claims.
Context {engine : JsEngine}.

(** C5: hasFinalizePermission is true exactly when the classic branch or
    the fallback branch holds, and the classic branch does not read the
    lockout timestamp. *)
Theorem hasFinalizePermission_iff (s : State) (now : Z) :
  (hasFinalizePermission s now = true <->
     (confirmationRequested s = true
      /\ now - confirmationAskedAt s <= 90000
      /\ confirmAskedTurnIndex s < lastUserTurnIndex s
      /\ confirmationGranted s = true)
     \/ (now - lastStopIntentTs s <= 20000
         /\ confirmationGranted s = true
         /\ rejectFinalizeUntilTs s <= now))
  /\ (forall lockout : Z,
        confirmationRequested s = true ->
        now - confirmationAskedAt s <= 90000 ->
        confirmAskedTurnIndex s < lastUserTurnIndex s ->
        confirmationGranted s = true ->
        hasFinalizePermission { s with rejectFinalizeUntilTs := lockout } now = true).
Proof.
  unfold hasFinalizePermission, CONFIRM_WINDOW_MS, STOP_INTENT_WINDOW_MS.
  split.
  - rewrite orb_true_iff, !andb_true_iff, !Z.leb_le, Z.ltb_lt. tauto.
  - intros lockout Hreq Hwin Hturn Hgr. open_state s; fields in *.
    rewrite Hreq, Hgr.
    apply orb_true_iff. left. rewrite !andb_true_iff, Z.leb_le, Z.ltb_lt. auto.
Qed.

Lemma isDoneType_routed (t : jsstring) :
  isDoneType t = true -> isToolEvent t = true /\ isDeltaType t = false.
Proof.
  unfold isDoneType. rewrite orb_true_iff, !bool_decide_eq_true.
  intros [-> | ->]; vm_compute; auto.
Qed.

(** C2: a completed finalize_conversation call that arrives strictly
    before rejectFinalizeUntil is rejected whatever its arguments and
    whatever the permission state: no save request is sent, finalized is
    unchanged and the lifecycle is active. *)
Theorem lockout_rejects_finalize (s : State) (evt : Event) (now : Z) (net : Net) :
  isDoneType (e_type evt) = true ->
  fnNameOf evt = lit "finalize_conversation" ->
  now < rejectFinalizeUntilTs s ->
  let r := handleRealtimeEvent evt now net s in
  savesOf (effectsOf r) = []
  /\ finalized (stateOf r) = finalized s
  /\ convoState (stateOf r) = active.
Proof.
  intros Hdone Hname Hlock.
  destruct (isDoneType_routed _ Hdone) as [Hroute Hnd].
  cbv zeta. rewrite toolEvent_handled by assumption.
  change (wp (handleFunctionCallEvent evt now net)
             (fun _ s' es => savesOf es = [] /\ finalized s' = finalized s
                             /\ convoState s' = active) s).
  unfold handleFunctionCallEvent. rewrite Hnd, Hdone, Hname.
  rewrite bool_decide_eq_true_2 by reflexivity.
  open_state s; fields in Hlock.
  wp_run; unbool; try lia; fields; auto.
Qed.

(** C1 (as amended): every save request the page sends with finalize also
    carries confirmed; the termination action and the fallback timer send
    one only when hasFinalizePermission holds, hence with granted true. *)
Theorem finalize_requests_are_confirmed :
  (forall (inputs : list (Z * Input)) (s : State),
      Forall confirmedIfFinal (savesOf (effectsOf (run inputs s))))
  /\ (forall (now : Z) (evt : Event) (net : Net) (s : State) (p : SaveRequest),
        In p (savesOf (effectsOf (step now (InMessage evt net) s))) ->
        hasFinalizePermission s now = true /\ confirmationGranted s = true)
  /\ (forall (now : Z) (net : Net) (s : State) (p : SaveRequest),
        In p (savesOf (effectsOf (step now (InFallbackTimer net) s))) ->
        hasFinalizePermission s now = true /\ confirmationGranted s = true).
Proof.
  split; [ | split ].
  - intros inputs s. apply sends_run_inputs, admits_confirmedIfFinal.
  - intros now evt net s p Hin. cbn [step] in Hin.
    destruct (isToolEvent (e_type evt)) eqn:Htool.
    + rewrite toolEvent_handled in Hin by assumption.
      apply tool_finalize_needs_permission in Hin.
      destruct Hin as (_ & Hperm & _).
      split; [ exact Hperm | eapply permission_needs_grant, Hperm ].
    + rewrite otherEvent_silent in Hin by assumption. destruct Hin.
  - intros now net s p Hin. cbn [step] in Hin.
    rewrite bind_get in Hin.
    destruct (finalizeFallbackTimer s) eqn:Htimer; try destruct Hin.
    rewrite bind_modify in Hin. unfold finalizeClientSide in Hin.
    rewrite bind_get in Hin.
    match type of Hin with
    | context [negb (hasFinalizePermission ?st now)] =>
        assert (hasFinalizePermission st now = hasFinalizePermission s now) as Heq
          by (destruct s; reflexivity);
        rewrite Heq in Hin
    end.
    destruct (hasFinalizePermission s now) eqn:Hperm; cbn [negb] in Hin.
    + split; [ reflexivity | eapply permission_needs_grant, Hperm ].
    + rewrite silent_saves in Hin by sends_run. destruct Hin.
Qed.

(** A finalize request is always sent. *)
Lemma save_skips_finalize (s : State) (options : SaveOptions) (nowTs : Z) (net : Net) :
  opt_finalize options = true ->
  savesOf (effectsOf (saveConversation options nowTs net s)) = [payloadOf s options].
Proof.
  intros Hfin.
  apply (wp_saveConversation options nowTs net
           (fun _ _ es => savesOf es = [payloadOf s options])).
  unfold blockedInFlight, throttled. rewrite Hfin. cbn [negb andb].
  rewrite andb_false_r. destruct (outcome net) as [| [] ?]; reflexivity.
Qed.

(** C8 (as amended): a non-finalize save is skipped and reported as failed
    while a save is in flight; an autosave less than 10s after the last
    successful save is skipped and reported as success; a finalize request
    is sent whatever the in-flight guard and the interval say. *)
Theorem save_skips (s : State) (options : SaveOptions) (nowTs : Z) (net : Net) :
  (opt_finalize options = false -> saving s = true ->
     saveConversation options nowTs net s = (false, s, []))
  /\ (opt_finalize options = false -> saving s = false ->
      opt_autosave options = true ->
      nowTs - lastSaveAt s < MIN_SAVE_INTERVAL_MS ->
      saveConversation options nowTs net s = (true, s, []))
  /\ (opt_finalize options = true ->
      savesOf (effectsOf (saveConversation options nowTs net s))
      = [payloadOf s options]
      /\ valueOf (saveConversation options nowTs net s) = fetchOk net).
Proof.
  unfold saveConversation at 1 2 3. unfold bind at 1 2 3.
  rewrite saveConversation_ok, saveConversation_begin_eq.
  unfold blockedInFlight, throttled.
  split; [ | split ].
  - intros -> ->. reflexivity.
  - intros -> -> -> Hthr. apply Z.ltb_lt in Hthr. rewrite Hthr. reflexivity.
  - intros ->. cbn [negb andb]. rewrite andb_false_r.
    split; [ | reflexivity ].
    unfold saveConversation_end, bind.
    destruct net as [[| [] ?] ? ?]; reflexivity.
Qed.

End Claims.

(** ** Strings: substrings *)

Lemma startsWith_spec (tok s : jsstring) :
  startsWith tok s = true <-> exists rest, s = tok ++ rest.
Proof.
  revert s. induction tok as [| t tok IH]; intros s; cbn.
  - split; [ intros _; now exists s | reflexivity ].
  - destruct s as [| c s].
    + split; [ discriminate | intros (rest & H); discriminate ].
    + rewrite andb_true_iff, N.eqb_eq, IH. split.
      * intros (-> & rest & ->). now exists rest.
      * intros (rest & H). injection H as -> ->. split; [ reflexivity | now exists rest ].
Qed.

Lemma units_pos (c : N) : 0 < units c.
Proof. unfold units. destruct (65536 <=? c)%N; lia. Qed.

Lemma length16_cons (c : N) (s : jsstring) :
  length16 (c :: s) = units c + length16 s.
Proof. reflexivity. Qed.

Lemma length16_nonneg (s : jsstring) : 0 <= length16 s.
Proof.
  induction s as [| c s IH]; [ cbn; lia | ].
  rewrite length16_cons. pose proof (units_pos c). lia.
Qed.

Lemma length16_app (a b : jsstring) :
  length16 (a ++ b) = length16 a + length16 b.
Proof.
  induction a as [| c a IH]; [ reflexivity | ].
  cbn [List.app]. rewrite !length16_cons, IH. lia.
Qed.

Lemma indexOf_from_range (i : Z) (s tok : jsstring) :
  indexOf_from i s tok = -1 \/ i <= indexOf_from i s tok.
Proof.
  revert i. induction s as [| c s IH]; intros i; cbn [indexOf_from].
  - destruct (startsWith tok []); [ right; lia | now left ].
  - destruct (startsWith tok (c :: s)); [ right; lia | ].
    pose proof (units_pos c).
    destruct (IH (i + units c)) as [H' | H']; [ now left | right; lia ].
Qed.

Lemma indexOf_from_found (i : Z) (s tok : jsstring) :
  0 <= i -> (indexOf_from i s tok <> -1 <-> occursIn tok s).
Proof.
  revert i. induction s as [| c s IH]; intros i Hi; cbn [indexOf_from].
  - destruct (startsWith tok []) eqn:Hs.
    + split; [ intros _ | lia ].
      apply startsWith_spec in Hs. destruct Hs as (rest & Hs).
      exists [], rest. exact Hs.
    + split; [ congruence | ].
      intros (pre & post & H). exfalso.
      destruct pre; [ | discriminate ]. cbn in H.
      assert (startsWith tok [] = true) as Ht
        by (apply startsWith_spec; now exists post).
      congruence.
  - destruct (startsWith tok (c :: s)) eqn:Hs.
    + split; [ intros _ | lia ].
      apply startsWith_spec in Hs. destruct Hs as (rest & Hs).
      exists [], rest. exact Hs.
    + rewrite IH by (pose proof (units_pos c); lia). split.
      * intros (pre & post & ->). now exists (c :: pre), post.
      * intros (pre & post & H). destruct pre as [| x pre].
        -- exfalso. cbn in H.
           assert (startsWith tok (c :: s) = true) as Ht
             by (apply startsWith_spec; now exists post).
           congruence.
        -- cbn in H. injection H as -> ->. now exists pre, post.
Qed.

(** [s.indexOf(tok) !== -1] says that [tok] occurs in [s]. *)
Lemma indexOf_found (s tok : jsstring) :
  negb (indexOf s tok =? -1) = true <-> occursIn tok s.
Proof.
  rewrite negb_true_iff, Z.eqb_neq. apply indexOf_from_found. lia.
Qed.

(** ** Strings: trimming keeps what lies between non-blank ends *)

Lemma trimEnd_prefix (s : jsstring) :
  exists post, s = trimEnd s ++ post /\ forallb isWhiteSpace post = true.
Proof.
  unfold trimEnd. destruct (trimStart_suffix (rev s)) as (pre & Hs & Hpre).
  exists (rev pre). split.
  - rewrite <- rev_app_distr, <- Hs. symmetry. apply rev_involutive.
  - now rewrite forallb_rev.
Qed.

Lemma trim_decompose (s : jsstring) :
  exists a b, s = a ++ trim s ++ b
              /\ forallb isWhiteSpace a = true /\ forallb isWhiteSpace b = true.
Proof.
  unfold trim. destruct (trimStart_suffix s) as (a & Hs & Ha).
  destruct (trimEnd_prefix (trimStart s)) as (b & Hb & Hbb).
  exists a, b. split; [ | auto ]. rewrite <- Hb. exact Hs.
Qed.

Lemma trim_Forall (P : N -> Prop) (s : jsstring) :
  Forall P s -> Forall P (trim s).
Proof.
  destruct (trim_decompose s) as (a & b & Hs & _). intros H.
  rewrite Hs in H. apply Forall_app in H. destruct H as [_ H].
  apply Forall_app in H. tauto.
Qed.

Lemma occursIn_trimStart (tok s : jsstring) :
  solidEnds tok = true -> occursIn tok s -> occursIn tok (trimStart s).
Proof.
  intros Hsolid (pre & post & ->).
  destruct tok as [| t tok]; [ discriminate | ].
  assert (isWhiteSpace t = false) as Ht.
  { unfold solidEnds in Hsolid. cbn [head] in Hsolid.
    destruct (head (rev (t :: tok))); [ | discriminate ].
    apply andb_true_iff in Hsolid. now apply negb_true_iff. }
  induction pre as [| x pre IH]; cbn.
  - rewrite Ht. now exists [], post.
  - destruct (isWhiteSpace x); [ exact IH | now exists (x :: pre), post ].
Qed.

Lemma solidEnds_rev (tok : jsstring) : solidEnds (rev tok) = solidEnds tok.
Proof.
  unfold solidEnds. rewrite rev_involutive.
  destruct (head tok), (head (rev tok)); try reflexivity. apply andb_comm.
Qed.

Lemma occursIn_rev (tok s : jsstring) : occursIn tok s -> occursIn (rev tok) (rev s).
Proof.
  intros (pre & post & ->). exists (rev post), (rev pre).
  now rewrite !rev_app_distr, app_assoc.
Qed.

Lemma occursIn_trim (tok s : jsstring) :
  solidEnds tok = true -> (occursIn tok (trim s) <-> occursIn tok s).
Proof.
  intros Hsolid. split.
  - intros (pre & post & Ht).
    destruct (trim_decompose s) as (a & b & Hs & _).
    exists (a ++ pre), (post ++ b). rewrite Hs, Ht. now rewrite <- !app_assoc.
  - intros H. unfold trim, trimEnd.
    apply (occursIn_trimStart _ _ Hsolid) in H.
    apply occursIn_rev in H.
    apply occursIn_trimStart in H; [ | now rewrite solidEnds_rev ].
    apply occursIn_rev in H. now rewrite rev_involutive in H.
Qed.

(** ** Strings: the first and the last occurrence of a character *)

Lemma startsWith_char (c : N) (s : jsstring) :
  startsWith [c] s = match s with x :: _ => (c =? x)%N | [] => false end.
Proof. destruct s; cbn; [ reflexivity | apply andb_true_r ]. Qed.

Lemma indexOf_from_char (c : N) (s : jsstring) (i : Z) :
  (~ In c s /\ indexOf_from i s [c] = -1)
  \/ (exists pre post, s = pre ++ c :: post /\ ~ In c pre
                       /\ indexOf_from i s [c] = i + length16 pre).
Proof.
  revert i. induction s as [| x s IH]; intros i.
  - left. cbn. auto.
  - cbn [indexOf_from]. rewrite startsWith_char.
    destruct (N.eqb_spec c x) as [<- | Hne].
    + right. exists [], s. cbn. split; [ reflexivity | split; [ tauto | lia ] ].
    + destruct (IH (i + units x)) as [[Hnot Hidx] | (pre & post & -> & Hnot & Hidx)].
      * left. split; [ | exact Hidx ]. cbn. intros [-> | H]; contradiction.
      * right. exists (x :: pre), post. cbn [List.app].
        split; [ reflexivity | split ].
        -- intros [-> | H]; contradiction.
        -- rewrite Hidx, length16_cons. lia.
Qed.

Lemma lastIndexOf_from_char (c : N) (s : jsstring) (i acc : Z) :
  (~ In c s /\ lastIndexOf_from i acc s [c] = acc)
  \/ (exists pre post, s = pre ++ c :: post /\ ~ In c post
                       /\ lastIndexOf_from i acc s [c] = i + length16 pre).
Proof.
  revert i acc. induction s as [| x s IH]; intros i acc.
  - left. cbn. auto.
  - cbn [lastIndexOf_from]. rewrite startsWith_char.
    destruct (N.eqb_spec c x) as [<- | Hne].
    + destruct (IH (i + units c) i) as [[Hnot Hidx] | (pre & post & -> & Hnot & Hidx)].
      * right. exists [], s. cbn. split; [ reflexivity | split; [ exact Hnot | ] ].
        rewrite Hidx. lia.
      * right. exists (c :: pre), post. cbn [List.app].
        split; [ reflexivity | split; [ exact Hnot | ] ].
        rewrite Hidx, length16_cons. lia.
    + destruct (IH (i + units x) acc) as [[Hnot Hidx] | (pre & post & -> & Hnot & Hidx)].
      * left. split; [ | exact Hidx ]. cbn. intros [-> | H]; contradiction.
      * right. exists (x :: pre), post. cbn [List.app].
        split; [ reflexivity | split; [ exact Hnot | ] ].
        rewrite Hidx, length16_cons. lia.
Qed.

(** Two ways to cut a list at an occurrence of [c], the first one at the
    first occurrence: the first cut is not longer. *)
Lemma first_cut_shortest {A} (c : A) (pre post p q : list A) :
  pre ++ c :: post = p ++ c :: q -> ~ In c pre ->
  (List.length pre <= List.length p)%nat.
Proof.
  revert p. induction pre as [| x pre IH]; intros p Heq Hnot; cbn; [ lia | ].
  destruct p as [| y p]; cbn in Heq.
  - injection Heq as -> _. exfalso. apply Hnot. now left.
  - injection Heq as -> Heq. apply le_n_S, IH; [ exact Heq | ].
    intros H. apply Hnot. now right.
Qed.

Lemma last_cut_longest {A} (c : A) (pre post p q : list A) :
  pre ++ c :: post = p ++ c :: q -> ~ In c post ->
  (List.length p <= List.length pre)%nat.
Proof.
  intros Heq Hnot.
  assert (rev post ++ c :: rev pre = rev q ++ c :: rev p) as Hrev.
  { apply (f_equal (@rev A)) in Heq.
    rewrite !rev_app_distr in Heq. cbn in Heq.
    now rewrite <- !app_assoc in Heq. }
  apply first_cut_shortest in Hrev; [ | now rewrite <- in_rev ].
  apply (f_equal (@List.length A)) in Heq.
  rewrite !length_app in Heq. cbn in Heq. rewrite !length_rev in Hrev. lia.
Qed.

(** Cutting at two positions of the same list. *)
Lemma cut_twice {A} (pre1 post1 pre2 post2 : list A) (a b : A) :
  pre1 ++ a :: post1 = pre2 ++ b :: post2 ->
  (List.length pre1 < List.length pre2)%nat ->
  exists mid, pre2 = pre1 ++ a :: mid /\ post1 = mid ++ b :: post2.
Proof.
  revert pre2. induction pre1 as [| x pre1 IH]; intros pre2 Heq Hlt.
  - destruct pre2 as [| y pre2]; [ cbn in Hlt; lia | ].
    cbn in Heq. injection Heq as -> ->. exists pre2. auto.
  - destruct pre2 as [| y pre2]; [ cbn in Hlt; lia | ].
    cbn in Heq, Hlt. injection Heq as -> Heq.
    destruct (IH pre2 Heq) as (mid & -> & ->); [ lia | ].
    exists mid. auto.
Qed.

(** Of two ways to cut the same list, the shorter first part starts the
    longer one. *)
Lemma cut_prefix {A} (pre x p y : list A) :
  pre ++ x = p ++ y -> (List.length pre <= List.length p)%nat ->
  exists m, p = pre ++ m.
Proof.
  revert p. induction pre as [| a pre IH]; intros p Heq Hle; [ now exists p | ].
  destruct p as [| b p]; [ cbn in Hle; lia | ].
  cbn in Heq, Hle. injection Heq as -> Heq.
  destruct (IH p Heq) as (m & ->); [ lia | ]. now exists m.
Qed.

Lemma cut_length16 (pre x p y : jsstring) :
  pre ++ x = p ++ y -> (List.length pre <= List.length p)%nat ->
  length16 pre <= length16 p.
Proof.
  intros Heq Hle. destruct (cut_prefix _ _ _ _ Heq Hle) as (m & ->).
  rewrite length16_app. pose proof (length16_nonneg m). lia.
Qed.

Lemma drop16_app (pre rest : jsstring) :
  drop16 (length16 pre) (pre ++ rest) = rest.
Proof.
  induction pre as [| c pre IH].
  - destruct rest; reflexivity.
  - cbn [List.app drop16]. rewrite length16_cons.
    pose proof (units_pos c). pose proof (length16_nonneg pre).
    replace (units c + length16 pre <=? 0) with false by (symmetry; apply Z.leb_gt; lia).
    replace (units c + length16 pre - units c) with (length16 pre) by lia.
    exact IH.
Qed.

Lemma take16_app (mid post : jsstring) :
  take16 (length16 mid) (mid ++ post) = mid.
Proof.
  induction mid as [| c mid IH].
  - destruct post; reflexivity.
  - cbn [List.app take16]. rewrite length16_cons.
    pose proof (units_pos c). pose proof (length16_nonneg mid).
    replace (units c + length16 mid <=? 0) with false by (symmetry; apply Z.leb_gt; lia).
    replace (units c + length16 mid - units c) with (length16 mid) by lia.
    now rewrite IH.
Qed.

Lemma slice_middle (pre mid post : jsstring) :
  slice (pre ++ mid ++ post) (length16 pre) (length16 pre + length16 mid) = mid.
Proof.
  unfold slice. rewrite drop16_app.
  replace (length16 pre + length16 mid - length16 pre) with (length16 mid) by lia.
  apply take16_app.
Qed.

Section ArgumentText.
Context {engine : JsEngine}.

(** What [handleFunctionCallEvent] hands to [JSON.parse]: the brace span
    when an opening brace comes before a closing one, the buffer itself
    otherwise. *)
Lemma jsonCandidate_spec (buf : jsstring) :
  (braceSpan buf (jsonCandidate buf))
  \/ ((forall sub, ~ braceSpan buf sub) /\ jsonCandidate buf = buf).
Proof.
  unfold jsonCandidate, indexOf, lastIndexOf.
  change (lit "{") with [123%N]. change (lit "}") with [125%N].
  destruct (indexOf_from_char 123 buf 0)
    as [[Hno1 ->] | (pre1 & post1 & Hb1 & Hnot1 & ->)].
  { right. split; [ | reflexivity ].
    intros sub (pre & mid & post & -> & -> & _). apply Hno1.
    apply in_or_app. right. now left. }
  destruct (lastIndexOf_from_char 125 buf 0 (-1))
    as [[Hno2 ->] | (pre2 & post2 & Hb2 & Hnot2 & ->)].
  { right. split.
    - intros sub (pre & mid & post & -> & -> & _). apply Hno2.
      rewrite !in_app_iff. right. left. right. right. now left.
    - pose proof (length16_nonneg pre1).
      replace (_ && _) with false; [ reflexivity | ].
      symmetry. apply andb_false_iff. right. apply Z.ltb_ge. lia. }
  pose proof (length16_nonneg pre1) as Hpos1.
  replace (negb (0 + length16 pre1 =? -1)) with true
    by (symmetry; apply negb_true_iff, Z.eqb_neq; lia).
  cbn [andb].
  assert (pre1 ++ 123%N :: post1 = pre2 ++ 125%N :: post2) as Heq by congruence.
  destruct (0 + length16 pre1 <? 0 + length16 pre2) eqn:Hlt.
  - left. apply Z.ltb_lt in Hlt.
    assert (List.length pre1 < List.length pre2)%nat as Hnat.
    { apply Nat.nle_gt. intros Hle.
      pose proof (cut_length16 _ _ _ _ (eq_sym Heq) Hle). lia. }
    destruct (cut_twice _ _ _ _ _ _ Heq Hnat) as (mid & -> & ->).
    exists pre1, mid, post2.
    assert (buf = pre1 ++ ([123%N] ++ mid ++ [125%N]) ++ post2) as Hbuf.
    { rewrite Hb1. cbn. now rewrite <- !app_assoc. }
    replace (slice buf _ _) with ([123%N] ++ mid ++ [125%N]).
    { auto. }
    rewrite Hbuf at 1. symmetry.
    replace (0 + length16 (pre1 ++ 123%N :: mid) + 1)
      with (length16 pre1 + length16 ([123%N] ++ mid ++ [125%N])).
    { rewrite Z.add_0_l. apply slice_middle. }
    repeat (rewrite ?length16_app, ?length16_cons; cbn [List.app]).
    change (length16 []) with 0. change (units 123) with 1. change (units 125) with 1.
    lia.
  - right. split; [ | reflexivity ].
    apply Z.ltb_ge in Hlt.
    intros sub (pre & mid & post & Hbuf & -> & _).
    assert (pre1 ++ 123%N :: post1 = pre ++ 123%N :: mid ++ [125%N] ++ post) as E1.
    { rewrite <- Hb1, Hbuf. cbn. now rewrite <- !app_assoc. }
    assert (pre2 ++ 125%N :: post2 = (pre ++ [123%N] ++ mid) ++ 125%N :: post) as E2.
    { rewrite <- Hb2, Hbuf. cbn. rewrite <- !app_assoc. reflexivity. }
    pose proof (first_cut_shortest _ _ _ _ _ E1 Hnot1) as H1.
    pose proof (last_cut_longest _ _ _ _ _ E2 Hnot2) as H2.
    pose proof (cut_length16 _ _ _ _ E1 H1) as L1.
    pose proof (cut_length16 _ _ _ _ (eq_sym E2) H2) as L2.
    repeat (rewrite ?length16_app, ?length16_cons in L2; cbn [List.app] in L2).
    change (length16 []) with 0 in L2. change (units 123) with 1 in L2.
    pose proof (length16_nonneg mid). lia.
Qed.

(** A buffer has at most one brace span. *)
Lemma braceSpan_unique (buf a b : jsstring) :
  braceSpan buf a -> braceSpan buf b -> a = b.
Proof.
  intros (p1 & m1 & q1 & E1 & -> & Hp1 & Hq1)
         (p2 & m2 & q2 & E2 & -> & Hp2 & Hq2).
  assert (p1 ++ 123%N :: m1 ++ 125%N :: q1 = p2 ++ 123%N :: m2 ++ 125%N :: q2)
    as Ep.
  { rewrite E1 in E2. cbn in E2. rewrite <- !app_assoc in E2. exact E2. }
  pose proof (first_cut_shortest _ _ _ _ _ Ep Hp1) as L1.
  pose proof (first_cut_shortest _ _ _ _ _ (eq_sym Ep) Hp2) as L2.
  apply app_inj_1 in Ep; [ | lia ]. destruct Ep as [_ Em].
  injection Em as Em.
  pose proof (last_cut_longest _ _ _ _ _ Em Hq1) as L3.
  pose proof (last_cut_longest _ _ _ _ _ (eq_sym Em) Hq2) as L4.
  apply app_inj_1 in Em; [ | lia ]. destruct Em as [-> _]. reflexivity.
Qed.

(** When the buffer has a brace span, that span is what is parsed. *)
Lemma jsonCandidate_span (buf sub : jsstring) :
  braceSpan buf sub -> jsonCandidate buf = sub.
Proof.
  intros Hsub. destruct (jsonCandidate_spec buf) as [Hspan | [Hnone _]].
  - exact (braceSpan_unique _ _ _ Hspan Hsub).
  - destruct (Hnone sub Hsub).
Qed.

End ArgumentText.

Section Classification.
Context {engine : JsEngine}.

(** *** Lower-casing *)

Lemma toLowerCase_stable (s : jsstring) :
  Forall (fun d => lowerCodePoint lowerU d = [d]) (toLowerCase s).
Proof.
  unfold toLowerCase. apply Forall_forall. intros d Hin.
  apply in_flat_map in Hin. destruct Hin as (c & _ & Hd).
  exact (lowerU_stable c d Hd).
Qed.

Lemma toLowerCase_fixed (s : jsstring) :
  Forall (fun d => lowerCodePoint lowerU d = [d]) s -> toLowerCase s = s.
Proof.
  unfold toLowerCase. induction 1 as [| d s Hd _ IH]; cbn; [ reflexivity | ].
  now rewrite Hd, IH.
Qed.

Lemma lowered_fixed (text : jsstring) : toLowerCase (lowered text) = lowered text.
Proof. apply toLowerCase_fixed, trim_Forall, toLowerCase_stable. Qed.

(** *** Negative turns *)

Lemma existsb_agree {A} (f g : A -> bool) (l : list A) :
  Forall (fun a => f a = g a) l -> existsb f l = existsb g l.
Proof. induction 1 as [| a l Ha _ IH]; cbn; [ reflexivity | now rewrite Ha, IH ]. Qed.

Lemma NO_TOKENS_solid : forallb solidEnds NO_TOKENS = true.
Proof. vm_compute. reflexivity. Qed.

Lemma found_iff (a b : jsstring) (tok : jsstring) :
  (occursIn tok a <-> occursIn tok b) ->
  negb (indexOf a tok =? -1) = negb (indexOf b tok =? -1).
Proof.
  intros H. apply eq_true_iff_eq. now rewrite !indexOf_found.
Qed.

(** Lower-casing and trimming first does not change the answer. *)
Lemma isNegativeTurn_lowered (text : jsstring) :
  isNegativeTurn (lowered text) = isNegativeTurn text.
Proof.
  unfold isNegativeTurn. rewrite lowered_fixed.
  apply existsb_agree.
  pose proof NO_TOKENS_solid as Hsolid. rewrite forallb_forall in Hsolid.
  apply Forall_forall. intros tok Hin.
  apply found_iff, occursIn_trim, Hsolid, Hin.
Qed.

(** *** The letters of a text *)

Lemma isLetter_not_space (c : N) : isLetter c = true -> isWhiteSpace c = false.
Proof.
  unfold isLetter. destruct (c <? 128)%N eqn:Hascii.
  - unfold isAsciiUpper, isAsciiLower, isWhiteSpace. intros H.
    apply N.ltb_lt in Hascii.
    rewrite ?orb_true_iff, ?andb_true_iff, ?N.leb_le in H.
    rewrite ?orb_false_iff, ?andb_false_iff, ?N.leb_gt, ?N.eqb_neq. lia.
  - apply letterU_not_space.
Qed.

Lemma removeWhiteSpace_app (a b : jsstring) :
  removeWhiteSpace (a ++ b) = removeWhiteSpace a ++ removeWhiteSpace b.
Proof. apply filter_app. Qed.

Lemma removeWhiteSpace_blank (a : jsstring) :
  forallb isWhiteSpace a = true -> removeWhiteSpace a = [].
Proof.
  induction a as [| c a IH]; cbn; [ reflexivity | ].
  rewrite andb_true_iff. intros [-> H]. cbn. exact (IH H).
Qed.

Lemma removeWhiteSpace_trim (s : jsstring) :
  removeWhiteSpace (trim s) = removeWhiteSpace s.
Proof.
  destruct (trim_decompose s) as (a & b & Hs & Ha & Hb).
  rewrite Hs at 2. rewrite !removeWhiteSpace_app.
  rewrite (removeWhiteSpace_blank a Ha), (removeWhiteSpace_blank b Hb).
  now rewrite app_nil_r.
Qed.

Lemma removeWhiteSpace_replaceNonLetters (inRun : bool) (s : jsstring) :
  removeWhiteSpace (replaceNonLetters inRun s) = List.filter isLetter s.
Proof.
  revert inRun. induction s as [| c s IH]; intros inRun; cbn; [ reflexivity | ].
  destruct (isLetter c) eqn:Hc.
  - cbn. rewrite (isLetter_not_space c Hc). cbn. now rewrite IH.
  - destruct inRun; cbn; now rewrite IH.
Qed.

Lemma filter_isLetter_blank (a : jsstring) :
  forallb isWhiteSpace a = true -> List.filter isLetter a = [].
Proof.
  induction a as [| c a IH]; cbn; [ reflexivity | ].
  rewrite andb_true_iff. intros [Hc H].
  destruct (isLetter c) eqn:Hl; [ | exact (IH H) ].
  apply isLetter_not_space in Hl. congruence.
Qed.

Lemma filter_isLetter_trim (s : jsstring) :
  List.filter isLetter (trim s) = List.filter isLetter s.
Proof.
  destruct (trim_decompose s) as (a & b & Hs & Ha & Hb).
  rewrite Hs at 2. rewrite !filter_app.
  rewrite (filter_isLetter_blank a Ha), (filter_isLetter_blank b Hb).
  now rewrite app_nil_r.
Qed.

(** The normalized text with its spaces removed is the letters of the
    lower-cased text, in order. *)
Lemma letters_of_normalized (text : jsstring) :
  removeWhiteSpace (normalizeLetters text) = List.filter isLetter (toLowerCase text).
Proof.
  unfold normalizeLetters.
  now rewrite removeWhiteSpace_trim, removeWhiteSpace_replaceNonLetters.
Qed.

(** What the script computes as [lettersOnly] is the same string. *)
Lemma lettersOnly_of_lowered (text : jsstring) :
  removeWhiteSpace (normalizeLetters (lowered text))
  = removeWhiteSpace (normalizeLetters text).
Proof.
  rewrite !letters_of_normalized, lowered_fixed. apply filter_isLetter_trim.
Qed.

Lemma arrayIndexOf_from_found (i : Z) (arr : list jsstring) (x : jsstring) :
  0 <= i -> (arrayIndexOf_from i arr x <> -1 <-> In x arr).
Proof.
  revert i. induction arr as [| y arr IH]; intros i Hi; cbn.
  - split; [ congruence | tauto ].
  - destruct (bool_decide (y = x)) eqn:Hy.
    + apply bool_decide_eq_true in Hy. split; [ auto | lia ].
    + apply bool_decide_eq_false in Hy. rewrite IH by lia. tauto.
Qed.

Lemma arrayIndexOf_found (arr : list jsstring) (x : jsstring) :
  negb (arrayIndexOf arr x =? -1) = true <-> In x arr.
Proof.
  rewrite negb_true_iff, Z.eqb_neq. apply arrayIndexOf_from_found. lia.
Qed.

End Classification.

(** ** Strings: matching a phrase at word boundaries *)

Lemma lastOf_cons (prev : option N) (c : N) (pre : jsstring) :
  lastOf prev (c :: pre) = lastOf (Some c) pre.
Proof.
  unfold lastOf. cbn [rev]. destruct (rev pre); reflexivity.
Qed.

Lemma lastOf_app (prev : option N) (a b : jsstring) :
  lastOf prev (a ++ b) = lastOf (lastOf prev a) b.
Proof.
  revert prev. induction a as [| c a IH]; intros prev; [ reflexivity | ].
  cbn [List.app]. now rewrite !lastOf_cons, IH.
Qed.

Lemma stripPrefix_spec (tok s rest : jsstring) :
  stripPrefix tok s = Some rest <-> s = tok ++ rest.
Proof.
  revert s. induction tok as [| t tok IH]; intros s; cbn.
  - split; [ now intros [= ->] | now intros -> ].
  - destruct s as [| c s]; [ split; discriminate | ].
    destruct (N.eqb_spec t c) as [-> | Hne].
    + rewrite IH. split; [ now intros -> | now intros [= ->] ].
    + split; [ discriminate | intros [= H _]; congruence ].
Qed.

Lemma matchHere_spec (tok : jsstring) (prev : option N) (s : jsstring) :
  matchHere tok prev s = true <->
  exists post,
    s = tok ++ post
    /\ (prev = None \/ wordBoundary prev (head (tok ++ post)) = true)
    /\ (post = [] \/ wordBoundary (lastOf prev tok) (head post) = true).
Proof.
  unfold matchHere. rewrite andb_true_iff, orb_true_iff. split.
  - intros [Hstart Hend].
    destruct (stripPrefix tok s) as [rest |] eqn:Hstrip; [ | discriminate ].
    apply stripPrefix_spec in Hstrip. subst s. exists rest.
    split; [ reflexivity | split ].
    + destruct Hstart as [H | H]; [ left; now destruct prev | now right ].
    + apply orb_true_iff in Hend. destruct Hend as [H | H].
      * right. exact H.
      * left. now destruct rest.
  - intros (post & -> & Hstart & Hend). split.
    + destruct Hstart as [-> | H]; [ now left | now right ].
    + assert (stripPrefix tok (tok ++ post) = Some post) as ->
        by now apply stripPrefix_spec.
      apply orb_true_iff. destruct Hend as [-> | H]; [ now right | now left ].
Qed.

Lemma reTest_spec_from (tok : jsstring) (prev : option N) (s : jsstring) :
  reTest tok prev s = true <->
  exists pre post,
    s = pre ++ tok ++ post
    /\ ((prev = None /\ pre = [])
        \/ wordBoundary (lastOf prev pre) (head (tok ++ post)) = true)
    /\ (post = [] \/ wordBoundary (lastOf prev (pre ++ tok)) (head post) = true).
Proof.
  revert prev. induction s as [| c s IH]; intros prev; cbn [reTest].
  - rewrite orb_false_r, matchHere_spec. split.
    + intros (post & Hs & Hstart & Hend). exists [], post.
      split; [ exact Hs | split ].
      * destruct Hstart; [ left; auto | now right ].
      * exact Hend.
    + intros (pre & post & Hs & Hstart & Hend).
      destruct pre; [ | discriminate ]. exists post.
      split; [ exact Hs | split ].
      * destruct Hstart as [[H _] | H]; [ now left | now right ].
      * exact Hend.
  - rewrite orb_true_iff, matchHere_spec, IH. split.
    + intros [(post & Hs & Hstart & Hend) | (pre & post & -> & Hstart & Hend)].
      * exists [], post. split; [ exact Hs | split ].
        -- destruct Hstart; [ left; auto | now right ].
        -- exact Hend.
      * exists (c :: pre), post. split; [ reflexivity | ].
        cbn [List.app]. rewrite !lastOf_cons. split; [ right | exact Hend ].
        destruct Hstart as [[H _] | H]; [ discriminate | exact H ].
    + intros (pre & post & Hs & Hstart & Hend). destruct pre as [| x pre].
      * left. exists post. split; [ exact Hs | split ].
        -- destruct Hstart as [[H _] | H]; [ now left | now right ].
        -- exact Hend.
      * right. cbn in Hs. injection Hs as -> ->. exists pre, post.
        cbn [List.app] in *. rewrite !lastOf_cons in *.
        split; [ reflexivity | split; [ right | exact Hend ] ].
        destruct Hstart as [[_ H] | H]; [ discriminate | exact H ].
Qed.

(** The test [re.test(lc)] of [isAffirmativeTurn] holds exactly when the
    phrase occurs at word boundaries. *)
Lemma reTest_spec (tok s : jsstring) :
  reTest tok None s = true <-> matchesAt tok s.
Proof.
  rewrite reTest_spec_from. unfold matchesAt.
  split; intros (pre & post & Hs & Hstart & Hend); exists pre, post;
    (split; [ exact Hs | split; [ | exact Hend ] ]).
  - destruct Hstart as [[_ H] | H]; [ now left | now right ].
  - destruct Hstart as [H | H]; [ left; auto | now right ].
Qed.

Section Affirmative.
Context {engine : JsEngine}.

Lemma isAffirmativeTurn_unfold (text : jsstring) :
  isAffirmativeTurn text
  = if isNegativeTurn text then false
    else if (length16 (lettersOf text) <=? 4)
            && negb (arrayIndexOf SHORT_YES (lettersOf text) =? -1)
         then true
         else existsb (fun tok => reTest tok None (lowered text)) YES_LONG_TOKENS.
Proof.
  unfold isAffirmativeTurn, lettersOf. fold (lowered text).
  now rewrite isNegativeTurn_lowered, lettersOnly_of_lowered.
Qed.

Lemma affirmative_iff (text : jsstring) :
  isNegativeTurn text = false ->
  (isAffirmativeTurn text = true <->
     (length16 (lettersOf text) <= 4 /\ In (lettersOf text) SHORT_YES)
     \/ (exists tok, In tok YES_LONG_TOKENS /\ matchesAt tok (lowered text))).
Proof.
  intros Hneg. rewrite isAffirmativeTurn_unfold, Hneg.
  destruct ((length16 (lettersOf text) <=? 4)
            && negb (arrayIndexOf SHORT_YES (lettersOf text) =? -1)) eqn:Hshort.
  - apply andb_true_iff in Hshort. destruct Hshort as [Hlen Hin].
    apply Z.leb_le in Hlen. apply arrayIndexOf_found in Hin. tauto.
  - rewrite existsb_exists. split.
    + intros (tok & Hin & Hre). right. exists tok. now rewrite <- reTest_spec.
    + intros [[Hlen Hin] | (tok & Hin & Hm)].
      * exfalso. apply Z.leb_le in Hlen. apply arrayIndexOf_found in Hin.
        rewrite Hlen, Hin in Hshort. discriminate.
      * exists tok. now rewrite reTest_spec.
Qed.

(** *** A single word *)

Lemma asciiLower_facts (c : N) :
  isAsciiLower c = true ->
  lowerCodePoint lowerU c = [c] /\ isLetter c = true
  /\ isWordChar c = true /\ isWhiteSpace c = false /\ (c <? 65536)%N = true.
Proof.
  unfold isAsciiLower. rewrite andb_true_iff, !N.leb_le. intros [H1 H2].
  assert (isAsciiUpper c = false) as Hup
    by (unfold isAsciiUpper; rewrite andb_false_iff, !N.leb_gt; lia).
  assert ((c <? 128)%N = true) as Hascii by (apply N.ltb_lt; lia).
  assert (isAsciiLower c = true) as Hlow
    by (unfold isAsciiLower; rewrite andb_true_iff, !N.leb_le; lia).
  unfold lowerCodePoint, isLetter, isWordChar. rewrite Hup, Hascii, Hlow.
  repeat split; try reflexivity.
  - apply isLetter_not_space. unfold isLetter. now rewrite Hascii, Hup, Hlow.
  - apply N.ltb_lt. lia.
Qed.

Lemma trim_solid (s : jsstring) : solidEnds s = true -> trim s = s.
Proof.
  unfold solidEnds, trim, trimEnd. intros H.
  destruct s as [| c s]; [ discriminate | ]. cbn [head] in H.
  destruct (head (rev (c :: s))) as [l |] eqn:Hl; [ | discriminate ].
  apply andb_true_iff in H. destruct H as [Hc Hlast].
  apply negb_true_iff in Hc, Hlast.
  cbn [trimStart]. rewrite Hc.
  destruct (rev (c :: s)) as [| l' r] eqn:Hrev; [ discriminate | ].
  cbn in Hl. injection Hl as ->. cbn [trimStart]. rewrite Hlast.
  now rewrite <- Hrev, rev_involutive.
Qed.

Lemma word_solid (w : jsstring) : isWord w -> solidEnds w = true.
Proof.
  intros [Hne Hall]. unfold solidEnds.
  destruct w as [| c w]; [ contradiction | ]. cbn [head].
  assert (Forall (fun c => isAsciiLower c = true) (rev (c :: w))) as Hrev
    by (apply Forall_rev, Hall).
  destruct (rev (c :: w)) as [| l r] eqn:Hr.
  { apply (f_equal (@List.length N)) in Hr. rewrite length_rev in Hr. discriminate. }
  cbn [head]. inversion Hall as [| ? ? Hc _]; subst.
  inversion Hrev as [| ? ? Hl _]; subst.
  apply asciiLower_facts in Hc, Hl.
  destruct Hc as (_ & _ & _ & -> & _), Hl as (_ & _ & _ & -> & _). reflexivity.
Qed.

Lemma word_lowered (w : jsstring) : isWord w -> lowered w = w.
Proof.
  intros Hw. unfold lowered.
  assert (toLowerCase w = w) as ->.
  { apply toLowerCase_fixed. eapply Forall_impl; [ | apply Hw ].
    intros c Hc. now apply asciiLower_facts in Hc. }
  apply trim_solid, word_solid, Hw.
Qed.

Lemma word_letters (w : jsstring) : isWord w -> lettersOf w = w.
Proof.
  intros Hw. unfold lettersOf. rewrite letters_of_normalized.
  assert (toLowerCase w = w) as ->.
  { apply toLowerCase_fixed. eapply Forall_impl; [ | apply Hw ].
    intros c Hc. now apply asciiLower_facts in Hc. }
  destruct Hw as [_ Hall]. induction Hall as [| c w Hc _ IH]; cbn; [ reflexivity | ].
  apply asciiLower_facts in Hc. destruct Hc as (_ & -> & _). now rewrite IH.
Qed.

Lemma YES_LONG_TOKENS_nonempty (tok : jsstring) :
  In tok YES_LONG_TOKENS -> tok <> [].
Proof.
  intros Hin ->. revert Hin.
  assert (existsb isEmpty YES_LONG_TOKENS = false) as H by (vm_compute; reflexivity).
  intros Hin. assert (existsb isEmpty YES_LONG_TOKENS = true) as H'.
  { apply existsb_exists. exists []. auto. }
  congruence.
Qed.

Lemma SHORT_YES_short (x : jsstring) : In x SHORT_YES -> length16 x <= 4.
Proof.
  intros Hin.
  assert (forallb (fun t => length16 t <=? 4) SHORT_YES = true) as H
    by (vm_compute; reflexivity).
  rewrite forallb_forall in H. apply Z.leb_le, H, Hin.
Qed.

Lemma lastOf_In (pre : jsstring) (c : N) :
  lastOf None pre = Some c -> In c pre.
Proof.
  unfold lastOf. destruct (rev pre) as [| x r] eqn:Hr; [ discriminate | ].
  intros [= ->]. apply in_rev. rewrite Hr. now left.
Qed.

Lemma lastOf_nonempty (pre : jsstring) : pre <> [] -> exists c, lastOf None pre = Some c.
Proof.
  unfold lastOf. intros Hne. destruct (rev pre) as [| x r] eqn:Hr; [ | eauto ].
  exfalso. apply Hne. apply (f_equal (@rev N)) in Hr.
  now rewrite rev_involutive in Hr.
Qed.

(** Inside a word there is no word boundary: a phrase matches a word
    only as the whole word. *)
Lemma matchesAt_word (tok w : jsstring) :
  tok <> [] -> isWord w -> (matchesAt tok w <-> w = tok).
Proof.
  intros Htok [Hne Hall]. split.
  - intros (pre & post & -> & Hstart & Hend).
    assert (forall c, In c (pre ++ tok ++ post) -> isWordChar c = true) as Hword.
    { intros c Hc. rewrite Forall_forall in Hall.
      specialize (Hall c Hc). now apply asciiLower_facts in Hall. }
    assert (pre = []) as ->.
    { destruct Hstart as [H | H]; [ exact H | ].
      destruct pre as [| x pre]; [ reflexivity | exfalso ].
      destruct (lastOf_nonempty (x :: pre)) as (c & Hc); [ discriminate | ].
      rewrite Hc in H. destruct tok as [| t tok]; [ contradiction | ].
      cbn [List.app head] in H. unfold wordBoundary in H.
      rewrite (Hword c), (Hword t) in H; [ discriminate | | ].
      + rewrite !in_app_iff. right. left. now left.
      + rewrite in_app_iff. left. now apply lastOf_In. }
    assert (post = []) as ->.
    { destruct Hend as [H | H]; [ exact H | ].
      destruct post as [| p post]; [ reflexivity | exfalso ].
      destruct (lastOf_nonempty ([] ++ tok)) as (c & Hc); [ exact Htok | ].
      rewrite Hc in H. cbn [head] in H. unfold wordBoundary in H.
      rewrite (Hword c), (Hword p) in H; [ discriminate | | ].
      + rewrite !in_app_iff. right. right. now left.
      + apply lastOf_In in Hc. rewrite !in_app_iff. right. left. exact Hc. }
    cbn. now rewrite app_nil_r.
  - intros ->. exists [], []. cbn. rewrite app_nil_r. auto.
Qed.

(** C6: negative turns are never affirmative; any other text is
    affirmative exactly when the letters of its lower-cased form, taken
    in order and with everything else left out, spell one of the four
    short tokens, or when a long phrase occurs in the lower-cased text at
    word boundaries; so a single word is affirmative only when it is
    itself a token or a phrase. *)
Theorem affirmative_classification (text : jsstring) :
  (isNegativeTurn text = true -> isAffirmativeTurn text = false)
  /\ (isNegativeTurn text = false ->
      (isAffirmativeTurn text = true <->
         (length16 (List.filter isLetter (toLowerCase text)) <= 4
          /\ In (List.filter isLetter (toLowerCase text)) SHORT_YES)
         \/ (exists tok, In tok YES_LONG_TOKENS /\ matchesAt tok (lowered text))))
  /\ (isWord text ->
      (isAffirmativeTurn text = true <->
         isNegativeTurn text = false
         /\ (In text SHORT_YES \/ In text YES_LONG_TOKENS))).
Proof.
  split; [ | split ].
  - intros Hneg. now rewrite isAffirmativeTurn_unfold, Hneg.
  - rewrite <- (letters_of_normalized text). apply affirmative_iff.
  - intros Hw. destruct (isNegativeTurn text) eqn:Hneg.
    + rewrite isAffirmativeTurn_unfold, Hneg. split; [ discriminate | intros [H _]; discriminate ].
    + rewrite (affirmative_iff text Hneg), (word_letters text Hw), (word_lowered text Hw).
      split.
      * intros [[_ Hin] | (tok & Hin & Hm)]; (split; [ reflexivity | ]).
        -- now left.
        -- right. apply matchesAt_word in Hm;
             [ now subst | now apply YES_LONG_TOKENS_nonempty | exact Hw ].
      * intros [_ [Hin | Hin]].
        -- left. split; [ now apply SHORT_YES_short | exact Hin ].
        -- right. exists text. split; [ exact Hin | ].
           apply matchesAt_word;
             [ now apply YES_LONG_TOKENS_nonempty | exact Hw | reflexivity ].
Qed.

End Affirmative.

Section Malformed.
Context {engine : JsEngine}.

Lemma parseArgs_failed (buf : jsstring) :
  JSON_parse (jsonCandidate buf) = None -> parseArgs buf = JObj [].
Proof. unfold parseArgs. now intros ->. Qed.

(** The save requests of a completed termination action: one finalize
    request, built from the page and the reason among the arguments, when
    the call arrives outside the lockout, carries confirmed and has
    permission; none otherwise. *)
Lemma finalize_call_saves (s : State) (evt : Event) (now : Z) (net : Net)
    (buf : jsstring) :
  isDoneType (e_type evt) = true ->
  fnNameOf evt = lit "finalize_conversation" ->
  fnArgBuffers s !! callIdOf evt = Some buf ->
  savesOf (effectsOf (handleRealtimeEvent evt now net s))
  = if (rejectFinalizeUntilTs s <=? now) && argConfirmed (parseArgs buf)
       && hasFinalizePermission s now
    then [payloadOf s (finalizeOptions (argReason (parseArgs buf)))]
    else [].
Proof.
  intros Hdone Hname Hbuf.
  destruct (isDoneType_routed _ Hdone) as [Hroute Hnd].
  rewrite toolEvent_handled by assumption.
  unfold payloadOf. rewrite Z.leb_antisym.
  pattern (effectsOf (handleFunctionCallEvent evt now net s)).
  lazymatch goal with
  | |- ?Q _ => change (wp (handleFunctionCallEvent evt now net)
                          (fun _ _ es => Q es) s)
  end; cbv beta.
  unfold handleFunctionCallEvent. rewrite Hnd, Hdone, Hname.
  rewrite bool_decide_eq_true_2 by reflexivity.
  unfold hasFinalizePermission. open_state s. fields in Hbuf. fields.
  do 3 wp_head. rewrite Hbuf.
  replace (orDefault (Some buf) []) with buf by (now destruct buf).
  rewrite <- andb_assoc.
  match goal with
  | |- context [negb ?l && (?c && ?p)] =>
      rewrite <- (negb_involutive (c && p))
  end.
  wp_exec; fields.
  all: cbn [opt_finalize opt_autosave finalizeOptions negb andb] in *.
  all: try reflexivity.
  all: rewrite andb_false_r in *; discriminate.
Qed.

(** A completed termination action drops the buffered arguments of its
    call, and a call that sends no save request leaves the lifecycle
    active and what was finalized as it was. *)
Lemma finalize_call_turned_down (s : State) (evt : Event) (now : Z) (net : Net) :
  isDoneType (e_type evt) = true ->
  fnNameOf evt = lit "finalize_conversation" ->
  let r := handleRealtimeEvent evt now net s in
  fnArgBuffers (stateOf r) !! callIdOf evt = None
  /\ (savesOf (effectsOf r) = [] ->
      convoState (stateOf r) = active /\ finalized (stateOf r) = finalized s).
Proof.
  intros Hdone Hname.
  destruct (isDoneType_routed _ Hdone) as [Hroute Hnd].
  cbv zeta. rewrite toolEvent_handled by assumption.
  change (wp (handleFunctionCallEvent evt now net)
            (fun _ s' es =>
               fnArgBuffers s' !! callIdOf evt = None
               /\ (savesOf es = [] ->
                   convoState s' = active /\ finalized s' = finalized s)) s).
  unfold handleFunctionCallEvent. rewrite Hnd, Hdone, Hname.
  rewrite bool_decide_eq_true_2 by reflexivity.
  open_state s. fields.
  wp_exec; fields; rewrite ?lookup_delete_eq.
  all: cbn [opt_finalize opt_autosave finalizeOptions negb andb] in *.
  all: try (rewrite andb_false_r in *; discriminate).
  all: split; [ reflexivity | ]; cbn; intros; try discriminate; unbool; auto.
Qed.

(** C9: when the buffered arguments are not well-formed JSON, the handler
    parses the span from the first opening brace to the last closing one,
    when there is such a span, and goes on with what the span holds: the
    arguments parsed from it decide, together with the lockout and the
    permission, whether the finalize request is sent, and give its
    reason.  When the span does not parse either, or there is no span,
    the arguments are the empty object: the handler turns the call down,
    sends no save request and leaves the lifecycle active.  In every case
    the buffered arguments of the call are dropped. *)
Theorem malformed_arguments_tolerated (buf : jsstring) :
  JSON_parse buf = None ->
  ((exists sub,
       braceSpan buf sub
       /\ parseArgs buf = match JSON_parse sub with
                          | Some v => v
                          | None => JObj []
                          end)
   \/ ((forall sub, ~ braceSpan buf sub) /\ parseArgs buf = JObj []))
  /\ (forall (s : State) (evt : Event) (now : Z) (net : Net),
        isDoneType (e_type evt) = true ->
        fnNameOf evt = lit "finalize_conversation" ->
        fnArgBuffers s !! callIdOf evt = Some buf ->
        let r := handleRealtimeEvent evt now net s in
        (forall sub v,
            braceSpan buf sub -> JSON_parse sub = Some v ->
            savesOf (effectsOf r)
            = if (rejectFinalizeUntilTs s <=? now) && argConfirmed v
                 && hasFinalizePermission s now
              then [payloadOf s (finalizeOptions (argReason v))]
              else [])
        /\ ((forall sub, braceSpan buf sub -> JSON_parse sub = None) ->
            savesOf (effectsOf r) = []
            /\ convoState (stateOf r) = active
            /\ finalized (stateOf r) = finalized s)
        /\ fnArgBuffers (stateOf r) !! callIdOf evt = None).
Proof.
  intros Hbad. split.
  - destruct (jsonCandidate_spec buf) as [Hspan | [Hnone Hsame]].
    + left. exists (jsonCandidate buf). split; [ exact Hspan | reflexivity ].
    + right. split; [ exact Hnone | ].
      apply parseArgs_failed. now rewrite Hsame.
  - intros s evt now net Hdone Hname Hbuf r.
    pose proof (finalize_call_saves s evt now net buf Hdone Hname Hbuf) as Hsaves.
    destruct (finalize_call_turned_down s evt now net Hdone Hname) as [Hdrop Hdown].
    fold r in Hsaves, Hdrop, Hdown.
    split; [ | split; [ | exact Hdrop ] ].
    + intros sub v Hspan Hv. rewrite Hsaves. unfold parseArgs.
      now rewrite (jsonCandidate_span buf sub Hspan), Hv.
    + intros Hnone.
      assert (parseArgs buf = JObj []) as Hargs.
      { apply parseArgs_failed.
        destruct (jsonCandidate_spec buf) as [Hspan | [_ Hsame]].
        - exact (Hnone _ Hspan).
        - now rewrite Hsame. }
      rewrite Hargs in Hsaves.
      change (argConfirmed (JObj [])) with false in Hsaves.
      rewrite andb_false_r in Hsaves. cbn [andb] in Hsaves.
      split; [ exact Hsaves | exact (Hdown Hsaves) ].
Qed.

End Malformed.

(** ** The helper of finalize.js *)

(** The helper posts finalize without any confirmed key. *)
Lemma helper_posts_no_confirmed (a : FinalizeHelper.HelperArgs) :
  getField (FinalizeHelper.payload a) (lit "finalize") = Some (JBool true)
  /\ getField (FinalizeHelper.payload a) (lit "confirmed") = None.
Proof. split; reflexivity. Qed.

(** ** The script at work *)

(** C1, as stated, fails: with nothing asked and nothing granted, a click
    on Stop sends the non-final save and then a finalize request that
    carries confirmed. *)
Lemma stop_finalizes_without_confirmation :
  let s := stateOf (run (userSays t0 (lit "hello")) bootState) in
  let r := step (t0 + 1000)
             (InStopClick (accepted (t0 + 1100) (Some 7))
                          (accepted (t0 + 1200) (Some 7))) s in
  confirmationRequested s = false
  /\ confirmationGranted s = false
  /\ hasFinalizePermission s (t0 + 1000) = false
  /\ List.map finalize (savesOf (effectsOf r)) = [false; true]
  /\ List.map confirmed (savesOf (effectsOf r)) = [false; true]
  /\ finalized (stateOf r) = true.
Proof. vm_compute. repeat split; reflexivity. Qed.

(** C3, as stated, fails: a plain no with nothing pending is not evaluated
    and sets no lockout; and a no that follows an affirmative stop request
    leaves the grant and the armed fallback timer in place. *)
Lemma unevaluated_no_changes_nothing :
  (isNegativeTurn (lit "no") = true
   /\ rejectFinalizeUntilTs (stateOf (run (userSays t0 (lit "no")) bootState)) = 0)
  /\ (let s := stateOf (run (userSays t0 (lit "ok end it")
                             ++ userSays (t0 + 500) (lit "no")) bootState) in
      confirmationGranted s = true
      /\ finalizeFallbackTimer s = TPending 1800
      /\ hasFinalizePermission s (t0 + 1800) = true).
Proof. vm_compute. repeat split; reflexivity. Qed.

(** C8, as stated, fails: while an autosave is in flight, the save that
    Stop issues is skipped and reported as failed, not as success. *)
Lemma in_flight_save_reports_failure :
  let s0 := stateOf (run (userSays t0 (lit "hello")) bootState) in
  let s1 := stateOf (saveConversation_begin (autosaveOptions (lit "idle"))
                                            (t0 + 8000) s0) in
  saving s1 = true
  /\ saveConversation (autosaveOptions (lit "manual_stop")) (t0 + 8100)
                      (accepted (t0 + 8200) None) s1
     = (false, s1, []).
Proof. vm_compute. split; reflexivity. Qed.

(** The lockout at work: asked, the user declines, and the termination
    action that arrives two seconds later is turned down. *)
Lemma lockout_rejects_finalize_witness :
  let s := stateOf (run (askedToConfirm
                         ++ userSays (t0 + 5000) (lit "no, keep going")
                         ++ [(t0 + 6990, InMessage (toolArgsDelta confirmedArgs) noNet)])
                        bootState) in
  let r := handleRealtimeEvent toolArgsDone (t0 + 7000)
             (accepted (t0 + 7100) (Some 7)) s in
  (rejectFinalizeUntilTs s = t0 + 11000
   /\ argConfirmed (parseArgs confirmedArgs) = true)
  /\ savesOf (effectsOf r) = []
  /\ finalized (stateOf r) = finalized s
  /\ convoState (stateOf r) = active.
Proof.
  intros s r. split; [ vm_compute; split; reflexivity | ].
  apply (@lockout_rejects_finalize MiniEngine.miniEngine);
    vm_compute; reflexivity.
Defined.

(** The two-phase stop at work: the server refuses the non-final save, so
    no finalize request follows. *)
Lemma two_phase_stop_witness :
  let s := stateOf (run (userSays t0 (lit "hello")) bootState) in
  let r := stop false (t0 + 1000) (refused (t0 + 1100))
                (accepted (t0 + 1200) (Some 7)) s in
  List.map finalize (savesOf (effectsOf r)) = [false]
  /\ Forall noFinalize (savesOf (effectsOf r))
  /\ finalized (stateOf r) = false
  /\ convoState (stateOf r) = convoState s.
Proof.
  intros s r. split; [ vm_compute; reflexivity | ].
  apply (two_phase_stop s (t0 + 1000)
           (refused (t0 + 1100)) (accepted (t0 + 1200) (Some 7)));
    vm_compute; reflexivity.
Defined.

(** Malformed arguments at work: text around the object makes the buffer
    ill-formed, and the brace span is what gets parsed. *)
Lemma malformed_arguments_tolerated_witness :
  let buf := lit "call(" ++ confirmedArgs ++ lit ")" in
  let s := stateOf (run (askedToConfirm ++ userSays (t0 + 5000) (lit "yes")
                         ++ [(t0 + 5400, InMessage (toolArgsDelta buf) noNet)])
                        bootState) in
  let r := handleRealtimeEvent toolArgsDone (t0 + 5500)
             (accepted (t0 + 5600) (Some 7)) s in
  JSON_parse buf = None
  /\ braceSpan buf confirmedArgs
  /\ JSON_parse confirmedArgs = Some (JObj [(lit "confirmed", JBool true)])
  /\ parseArgs buf = JObj [(lit "confirmed", JBool true)]
  /\ savesOf (effectsOf r) = [payloadOf s (finalizeOptions (lit "user ended"))]
  /\ fnArgBuffers (stateOf r) !! callIdOf toolArgsDone = None.
Proof.
  intros buf s r.
  assert (JSON_parse buf = None) as Hbad by (vm_compute; reflexivity).
  assert (braceSpan buf confirmedArgs) as Hspan.
  { exists (lit "call("),
           (quote ++ lit "confirmed" ++ quote ++ lit ":true"), (lit ")").
    repeat split; try reflexivity;
      intros Hin; vm_compute in Hin; intuition discriminate. }
  assert (JSON_parse confirmedArgs = Some (JObj [(lit "confirmed", JBool true)]))
    as Hv by (vm_compute; reflexivity).
  destruct (@malformed_arguments_tolerated MiniEngine.miniEngine buf Hbad)
    as [_ Hrun].
  destruct (Hrun s toolArgsDone (t0 + 5500) (accepted (t0 + 5600) (Some 7)))
    as (Hsend & _ & Hdrop); try (vm_compute; reflexivity).
  split; [ exact Hbad | ]. split; [ exact Hspan | ]. split; [ exact Hv | ].
  split; [ vm_compute; reflexivity | ].
  split; [ | exact Hdrop ].
  etransitivity; [ exact (Hsend _ _ Hspan Hv) | ].
  vm_compute. reflexivity.
Defined.

(** The scenario of the fallback: asked, the user says yes, no termination
    action arrives, the fallback timer runs and the server accepts. *)
Example yes_then_fallback_finalizes :
  let s1 := stateOf (run askedToConfirm bootState) in
  let s2 := stateOf (run (userSays (t0 + 5000) (lit "yes")) s1) in
  let r := run [(t0 + 6800, InFallbackTimer (accepted (t0 + 6900) (Some 7)))] s2 in
  convoState s1 = pending_confirm
  /\ confirmationGranted s2 = true
  /\ finalizeFallbackTimer s2 = TPending 1800
  /\ List.map finalize (savesOf (effectsOf r)) = [true]
  /\ List.map confirmed (savesOf (effectsOf r)) = [true]
  /\ finalized (stateOf r) = true
  /\ convoState (stateOf r) = ended.
Proof. vm_compute. repeat split; reflexivity. Qed.

(** The scenario of the valid termination action: asked, the user says
    yes, the model calls finalize_conversation with confirmed. *)
Example yes_then_tool_call_finalizes :
  let s := stateOf (run (askedToConfirm ++ userSays (t0 + 5000) (lit "yes"))
                        bootState) in
  let r := run (toolCall (t0 + 5500) (accepted (t0 + 5600) (Some 7))) s in
  List.map finalize (savesOf (effectsOf r)) = [true]
  /\ List.map confirmed (savesOf (effectsOf r)) = [true]
  /\ finalizeFallbackTimer (stateOf r) = TNull
  /\ convoState (stateOf r) = ended.
Proof. vm_compute. repeat split; reflexivity. Qed.

(** An unclear reply keeps the conversation pending. *)
Example unclear_reply_stays_pending :
  let s := stateOf (run (askedToConfirm ++ userSays (t0 + 5000) (lit "broken"))
                        bootState) in
  isAffirmativeTurn (lit "broken") = false
  /\ isNegativeTurn (lit "broken") = false
  /\ convoState s = pending_confirm
  /\ confirmationGranted s = false.
Proof. vm_compute. repeat split; reflexivity. Qed.

(** A stop request that is affirmative in the same turn opens the
    fallback path. *)
Example affirmative_stop_request_grants :
  let s := stateOf (run (userSays t0 (lit "ok end it")) bootState) in
  confirmationRequested s = false
  /\ confirmationGranted s = true
  /\ hasFinalizePermission s (t0 + 1800) = true
  /\ hasFinalizePermission s (t0 + 20001) = false.
Proof. vm_compute. repeat split; reflexivity. Qed.

(** The classifier on a few replies; outside ASCII the answers come from
    the tables of the small engine. *)
Example classifier_examples :
  isAffirmativeTurn (lit "OK!") = true
  /\ isAffirmativeTurn (lit "o k") = true
  /\ isAffirmativeTurn (lit "okays") = false
  /\ isAffirmativeTurn (lit "yes, stop now") = false
  /\ isNegativeTurn (lit "yes, stop now") = true
  /\ isAffirmativeTurn (lit "go ahead") = true
  /\ isNegativeTurn (lit "that's fine") = true
  /\ isAffirmativeTurn (lit "yesterday") = false
  /\ isNegativeTurn [1053; 1045; 1058]%N = true
  /\ isAffirmativeTurn [79; 8490]%N = true.
Proof. vm_compute. repeat split; reflexivity. Qed.

(** Even with both transcript panes empty the snapshot is not blank, so
    the nothing-to-save test never fires and a finalize request is sent. *)
Theorem empty_transcript_is_still_saved (s : State) (reason : jsstring)
    (nowTs : Z) (net : Net) :
  isEmpty (trim (currentSnapshot s)) = false
  /\ savesOf (effectsOf (saveConversation (finalizeOptions reason) nowTs net s))
     = [payloadOf s (finalizeOptions reason)].
Proof.
  split; [ apply snapshot_not_blank | ].
  apply (save_skips_finalize s (finalizeOptions reason) nowTs net). reflexivity.
Qed.

(** A turn whose lower-cased text contains fine is negative: the token ne
    occurs in it.  The phrases that's fine and that is fine of the yes
    list can therefore never make a turn affirmative. *)
Theorem fine_is_negative {engine : JsEngine} (text : jsstring) :
  occursIn (lit "fine") (toLowerCase text) ->
  isNegativeTurn text = true /\ isAffirmativeTurn text = false.
Proof.
  intros (pre & post & Hfine).
  assert (isNegativeTurn text = true) as Hneg.
  { unfold isNegativeTurn. apply existsb_exists. exists (lit "ne").
    split; [ vm_compute; tauto | ].
    apply indexOf_found. exists (pre ++ lit "fi"), post.
    rewrite Hfine. change (lit "fine") with (lit "fi" ++ lit "ne").
    now rewrite <- !app_assoc. }
  split; [ exact Hneg | ].
  now rewrite isAffirmativeTurn_unfold, Hneg.
Qed.

Lemma fine_is_negative_witness :
  occursIn (lit "fine") (toLowerCase (lit "That's fine"))
  /\ isNegativeTurn (lit "That's fine") = true
  /\ isAffirmativeTurn (lit "That's fine") = false.
Proof.
  assert (occursIn (lit "fine") (toLowerCase (lit "That's fine"))) as H.
  { exists (lit "that's "), []. vm_compute. reflexivity. }
  split; [ exact H | ].
  exact (@fine_is_negative MiniEngine.miniEngine (lit "That's fine") H).
Defined.

(** * Further properties of the script *)

(** Reads a goal about the result of [m s] as a [wp] statement. *)
Ltac wp_goal m s :=
  pattern (valueOf (m s)), (stateOf (m s)), (effectsOf (m s));
  lazymatch goal with
  | |- ?Q _ _ _ => change (wp m Q s)
  end; cbv beta.

Section Keeps.
Context (R : State -> list Effect -> State -> Prop) `{!Chains R}.

Lemma keeps_ret {A} (a : A) : keeps R (ret a).
Proof. intros s. apply chains_nil. Qed.

Lemma keeps_get : keeps R get.
Proof. intros s. apply chains_nil. Qed.

Lemma keeps_bind {A B} (m : M A) (k : A -> M B) :
  keeps R m -> (forall a, keeps R (k a)) -> keeps R (bind m k).
Proof.
  intros Hm Hk s. specialize (Hm s). unfold bind, effectsOf, stateOf in *.
  destruct (m s) as [[a s1] e1]. specialize (Hk a s1).
  destruct (k a s1) as [[b s2] e2]. cbn [fst snd] in *.
  eapply chains_app; eassumption.
Qed.

Lemma keeps_modify (f : State -> State) :
  (forall s, R s [] (f s)) -> keeps R (modify f).
Proof. intros H s. apply H. Qed.

Lemma keeps_emit (e : Effect) : (forall s, R s [e] s) -> keeps R (emit e).
Proof. intros H s. apply H. Qed.

Lemma keeps_wp {A} (m : M A) (s : State) :
  keeps R m -> wp m (fun _ s' es => R s es s') s.
Proof. intros H. apply H. Qed.

Lemma keeps_run_inputs (inputs : list (Z * Input)) {engine : JsEngine} :
  (forall now i, keeps R (step now i)) -> keeps R (run inputs).
Proof.
  intros H. induction inputs as [| [now i] inputs IH]; cbn [run].
  - apply keeps_ret.
  - apply keeps_bind; [ apply H | intros _; exact IH ].
Qed.

(** [saveConversation] keeps what the in-flight flag and the bookkeeping
    of an accepted save do not disturb. *)
Lemma keeps_saveConversation {engine : JsEngine}
    (options : SaveOptions) (nowTs : Z) (net : Net) :
  (forall s, R s [EffFetchSave (payloadOf s options)] { s with saving := false }) ->
  (forall s js_id,
      R s [EffFetchSave (payloadOf s options)]
        { s with
          conversationId :=
            match js_id with Some i => Some i | None => conversationId s end;
          lastSnapshot := currentSnapshot s;
          lastSaveAt := arrival net;
          dirty := false;
          saving := false }) ->
  keeps R (saveConversation options nowTs net).
Proof.
  intros Hfail Hok s.
  apply (wp_saveConversation options nowTs net (fun _ s' es => R s es s')).
  destruct (blockedInFlight s options); [ apply chains_nil | ].
  destruct (throttled s options nowTs); [ apply chains_nil | ].
  destruct (outcome net) as [| [] ?]; auto.
Qed.

End Keeps.

(** One step of a handler: [lem] brings the lemmas already known about
    parts of it, [tac] settles what a record update, an effect or a save
    does to the relation. *)
Ltac keeps_head lem tac :=
  first
    [ solve [ lem ]
    | lazymatch goal with
      | |- keeps ?R (bind _ _) => apply (keeps_bind R); [ | intros ? ]
      | |- keeps ?R (ret _) => apply (keeps_ret R)
      | |- keeps ?R get => apply (keeps_get R)
      | |- keeps ?R (modify _) => apply (keeps_modify R); solve [ tac ]
      | |- keeps ?R (emit _) => apply (keeps_emit R); solve [ tac ]
      | |- keeps ?R (saveConversation _ _ _) =>
          apply (keeps_saveConversation R); solve [ tac ]
      | |- keeps _ (when _ _) => unfold when
      | |- keeps _ (setStatus _) => unfold setStatus
      | |- keeps _ (setConvoState _) => unfold setConvoState
      | |- keeps _ (scheduleAutoSave _) => unfold scheduleAutoSave
      | |- keeps _ markDirty => unfold markDirty
      | |- keeps _ (append_user _) => unfold append_user
      | |- keeps _ (append_ai _) => unfold append_ai
      | |- keeps _ (sendClosingMessage _) => unfold sendClosingMessage
      | |- keeps _ sendContinueInstruction => unfold sendContinueInstruction
      | |- keeps _ forceStopSoon => unfold forceStopSoon
      | |- keeps _ cancelFinalizeFallback => unfold cancelFinalizeFallback
      | |- keeps _ (stop _ _ _ _) => unfold stop
      | |- keeps _ (finalizeNow _ _ _) => unfold finalizeNow
      | |- keeps _ (finalizeClientSide _ _ _) => unfold finalizeClientSide
      | |- keeps _ (tryAutoSave _ _ _) => unfold tryAutoSave
      | |- keeps _ (maybeEvaluateUserConfirmation _ _) =>
          unfold maybeEvaluateUserConfirmation
      | |- keeps _ (maybeMarkConfirmationRequested _ _) =>
          unfold maybeMarkConfirmationRequested
      | |- keeps _ (handleFunctionCallEvent _ _ _) => unfold handleFunctionCallEvent
      | |- keeps _ (handleRealtimeEvent _ _ _) => unfold handleRealtimeEvent
      | |- keeps _ (step _ ?i) => destruct i; cbn [step]
      | |- keeps _ (if ?b then _ else _) => destruct b eqn:?
      | |- keeps _ (match ?x with _ => _ end) => destruct x eqn:?
      end ].

Ltac keeps_with lem tac := repeat keeps_head lem tac.

Ltac keeps_run tac := keeps_with fail tac.

(** Settles a relation that compares fields of the two states. *)
Ltac by_fields :=
  intros; repeat lazymatch goal with s : State |- _ => destruct s end;
  cbn; repeat split; auto; try lia.

Section Routing.
Context {engine : JsEngine}.

(** [handleRealtimeEvent], route by route.  The stop on a completed
    response (the secondary safety) is only reachable on the two event
    types that end an assistant turn. *)
Lemma handleRealtimeEvent_routed (evt : Event) (now : Z) (net : Net) (s : State) :
  handleRealtimeEvent evt now net s
  = match routeOf (e_type evt) with
    | ToolCall => handleFunctionCallEvent evt now net s
    | UserDelta =>
        ((match extractText evt with
          | Some ((_ :: _) as textU) =>
              append_user textU ;;
              modify (fun s => { s with currentUserTurn := currentUserTurn s ++ textU })
          | _ => ret tt
          end) ;;
         markDirty) s
    | UserTurnEnd =>
        (append_user newline ;;
         modify (fun s => { s with turnIndex := turnIndex s + 1 }) ;;
         modify (fun s => { s with lastUserTurnIndex := turnIndex s }) ;;
         s ← get;
         maybeEvaluateUserConfirmation (currentUserTurn s) now ;;
         modify (fun s => { s with currentUserTurn := [] }) ;;
         scheduleAutoSave (Some 3000)) s
    | AssistantDelta =>
        ((match extractText evt with
          | Some ((_ :: _) as textA) =>
              append_ai textA ;;
              maybeMarkConfirmationRequested textA now
          | _ => ret tt
          end) ;;
         markDirty) s
    | AssistantTurnEnd =>
        if greetingPending s then
          (modify (fun s => { s with greetingPending := false;
                                     greetTimeoutHandle := TNull }) ;;
           stop true now noNet noNet) s
        else
          (append_ai newline ;;
           modify (fun s => { s with turnIndex := turnIndex s + 1 }) ;;
           scheduleAutoSave (Some 3000)) s
    | Unrouted => (tt, s, [])
    end.
Proof.
  unfold handleRealtimeEvent. rewrite bind_get.
  set (t := e_type evt).
  assert (bool_decide (t = lit "response.completed")
          || bool_decide (t = lit "response.output_text.done") = true ->
          routeOf t = AssistantTurnEnd) as Hclosing.
  { rewrite orb_true_iff, !bool_decide_eq_true. intros [-> | ->]; reflexivity. }
  unfold routeOf in *.
  destruct ((indexOf t (lit "response.function_call") =? 0)
            || (indexOf t (lit "response.tool_call") =? 0)); [ reflexivity | ].
  destruct (bool_decide (t = lit "response.completed")
            || bool_decide (t = lit "response.output_text.done")) eqn:Hc.
  - specialize (Hclosing eq_refl).
    destruct (negb (indexOf t (lit "transcription.delta") =? -1));
      [ discriminate | ].
    destruct (negb (indexOf t (lit "transcription.completed") =? -1));
      [ discriminate | ].
    destruct (bool_decide (t = lit "response.output_text.delta")
              || (indexOf t (lit "response.") =? 0)
                 && (indexOf t (lit ".delta") =? length16 t - 6));
      [ discriminate | ].
    rewrite orb_comm in Hc. rewrite Hc, andb_true_r.
    destruct (greetingPending s); reflexivity.
  - rewrite andb_false_r.
    destruct (negb (indexOf t (lit "transcription.delta") =? -1));
      [ reflexivity | ].
    destruct (negb (indexOf t (lit "transcription.completed") =? -1));
      [ reflexivity | ].
    destruct (bool_decide (t = lit "response.output_text.delta")
              || (indexOf t (lit "response.") =? 0)
                 && (indexOf t (lit ".delta") =? length16 t - 6));
      [ reflexivity | ].
    rewrite orb_comm in Hc. rewrite Hc. reflexivity.
Qed.

End Routing.

#[local] Instance grantOnlyFalls_chains : Chains grantOnlyFalls.
Proof. split; unfold grantOnlyFalls; auto. Qed.

#[local] Instance sameConfirmation_chains : Chains sameConfirmation.
Proof.
  split; unfold sameConfirmation.
  - intros s. repeat split.
  - intros s1 e1 s2 e2 s3 H1 H2. intuition congruence.
Qed.

Ltac grant_tac := unfold grantOnlyFalls; by_fields; discriminate.

Section A.
Context {engine : JsEngine}.

Lemma stop_grantOnlyFalls (skipSave : bool) (now : Z) (net1 net2 : Net) :
  keeps grantOnlyFalls (stop skipSave now net1 net2).
Proof. keeps_run grant_tac. Qed.

Lemma finalizeNow_grantOnlyFalls (reason : jsstring) (now : Z) (net : Net) :
  keeps grantOnlyFalls (finalizeNow reason now net).
Proof. keeps_with ltac:(apply stop_grantOnlyFalls) grant_tac. Qed.

Lemma handleFunctionCallEvent_grantOnlyFalls (evt : Event) (now : Z) (net : Net) :
  keeps grantOnlyFalls (handleFunctionCallEvent evt now net).
Proof. keeps_with ltac:(apply finalizeNow_grantOnlyFalls) grant_tac. Qed.

(** The grant is only ever given by a completed user turn that was
    evaluated and classified affirmative. *)
Theorem grant_needs_affirmative_turn (s : State) (now : Z) (i : Input) :
  confirmationGranted s = false ->
  confirmationGranted (stateOf (step now i s)) = true ->
  (exists evt net, i = InMessage evt net /\ routeOf (e_type evt) = UserTurnEnd)
  /\ isAffirmativeTurn (currentUserTurn s) = true
  /\ isNegativeTurn (currentUserTurn s) = false
  /\ (confirmationRequested s = true \/ isStopIntent (currentUserTurn s) = true).
Proof.
  intros Hg.
  assert (forall m : M unit,
             keeps grantOnlyFalls m ->
             confirmationGranted (stateOf (m s)) = true -> False) as Hkept.
  { intros m Hm Hg'. apply (Hm s) in Hg'. congruence. }
  destruct i as [evt net | net | net | | net1 net2 | | net]; cbn [step].
  1: rewrite handleRealtimeEvent_routed;
     destruct (routeOf (e_type evt)) eqn:Hroute;
     [ | | | | destruct (greetingPending s)
       | intros Hg'; cbn in Hg'; congruence ].
  3: { wp_goal (append_user newline ;;
                modify (fun s => { s with turnIndex := turnIndex s + 1 }) ;;
                modify (fun s => { s with lastUserTurnIndex := turnIndex s }) ;;
                s ← get;
                maybeEvaluateUserConfirmation (currentUserTurn s) now ;;
                modify (fun s => { s with currentUserTurn := [] }) ;;
                scheduleAutoSave (Some 3000)) s.
       open_state s. fields in Hg. subst.
       wp_exec; fields; try discriminate.
       all: intros _; split; [ now exists evt, net | ].
       all: unbool; destruct req; auto; discriminate. }
  all: intros Hg'; exfalso; revert Hg'; apply Hkept.
  all: keeps_with ltac:(first [ apply handleFunctionCallEvent_grantOnlyFalls
                              | apply finalizeNow_grantOnlyFalls
                              | apply stop_grantOnlyFalls ])
                       grant_tac.
Qed.

End A.

Lemma grant_needs_affirmative_turn_witness :
  let s := stateOf (run (askedToConfirm
                         ++ [(t0 + 3000, InMessage (userDelta (lit "yes please")) noNet)])
                        bootState) in
  let i := InMessage userTurnCompleted noNet in
  (confirmationGranted s = false
   /\ confirmationGranted (stateOf (step (t0 + 3100) i s)) = true)
  /\ (exists evt net, i = InMessage evt net /\ routeOf (e_type evt) = UserTurnEnd)
  /\ isAffirmativeTurn (currentUserTurn s) = true
  /\ isNegativeTurn (currentUserTurn s) = false
  /\ (confirmationRequested s = true \/ isStopIntent (currentUserTurn s) = true).
Proof.
  intros s i. split; [ vm_compute; split; reflexivity | ].
  apply (@grant_needs_affirmative_turn MiniEngine.miniEngine s (t0 + 3100) i);
    vm_compute; reflexivity.
Defined.

#[local] Instance onlySaves_chains : Chains onlySaves.
Proof.
  split; unfold onlySaves.
  - intros []. reflexivity.
  - intros s1 e1 s2 e2 s3 H1 H2. rewrite H2, H1. destruct s1, s3; reflexivity.
Qed.

Section A2.
Context {engine : JsEngine}.

Lemma maybeMarkConfirmationRequested_asks (text : jsstring) (now : Z) :
  maybeMarkConfirmationRequested text now
  = if asksToEnd text then
      modify (fun s =>
        { s with confirmationRequested := true;
                 confirmationGranted := false;
                 confirmationAskedAt := now;
                 confirmAskedTurnIndex := turnIndex s }) ;;
      setConvoState pending_confirm
    else ret tt.
Proof.
  unfold maybeMarkConfirmationRequested, asksToEnd.
  destruct text as [| c text]; reflexivity.
Qed.

Lemma asksToEnd_nonempty (text : jsstring) : asksToEnd text = true -> text <> [].
Proof. now destruct text. Qed.

(** An event routed to the assistant's text is handled as such. *)
Lemma assistantText_handled (evt : Event) (now : Z) (net : Net) (s : State) :
  routeOf (e_type evt) = AssistantDelta ->
  handleRealtimeEvent evt now net s
  = ((match extractText evt with
      | Some ((_ :: _) as textA) =>
          append_ai textA ;;
          maybeMarkConfirmationRequested textA now
      | _ => ret tt
      end) ;;
     markDirty) s.
Proof.
  intros Hroute. unfold handleRealtimeEvent. rewrite bind_get.
  unfold routeOf in Hroute.
  destruct ((indexOf (e_type evt) (lit "response.function_call") =? 0)
            || (indexOf (e_type evt) (lit "response.tool_call") =? 0));
    [ discriminate | ].
  destruct (negb (indexOf (e_type evt) (lit "transcription.delta") =? -1));
    [ discriminate | ].
  destruct (negb (indexOf (e_type evt) (lit "transcription.completed") =? -1));
    [ discriminate | ].
  destruct (bool_decide (e_type evt = lit "response.completed")) eqn:H1.
  { apply bool_decide_eq_true in H1. rewrite H1 in Hroute.
    vm_compute in Hroute. discriminate. }
  destruct (bool_decide (e_type evt = lit "response.output_text.done")) eqn:H2.
  { apply bool_decide_eq_true in H2. rewrite H2 in Hroute.
    vm_compute in Hroute. discriminate. }
  cbn [orb]. rewrite andb_false_r.
  destruct (bool_decide (e_type evt = lit "response.output_text.delta")
            || (indexOf (e_type evt) (lit "response.") =? 0)
               && (indexOf (e_type evt) (lit ".delta") =? length16 (e_type evt) - 6));
    [ reflexivity | ].
  cbn [orb] in Hroute. discriminate.
Qed.

(** A confirmation question in the assistant's text opens the confirmation
    context afresh: an earlier grant is withdrawn, so that no finalize is
    permitted at any time until the user answers again; a fallback timer
    armed by the earlier answer is left armed. *)
Theorem question_withdraws_grant (s : State) (evt : Event) (text : jsstring)
    (now : Z) (net : Net) :
  routeOf (e_type evt) = AssistantDelta ->
  extractText evt = Some text ->
  asksToEnd text = true ->
  let r := handleRealtimeEvent evt now net s in
  confirmationRequested (stateOf r) = true
  /\ confirmationGranted (stateOf r) = false
  /\ confirmationAskedAt (stateOf r) = now
  /\ confirmAskedTurnIndex (stateOf r) = turnIndex s
  /\ convoState (stateOf r) = pending_confirm
  /\ finalizeFallbackTimer (stateOf r) = finalizeFallbackTimer s
  /\ aiEl (stateOf r) = aiEl s ++ text
  /\ savesOf (effectsOf r) = []
  /\ (forall t : Z, hasFinalizePermission (stateOf r) t = false).
Proof.
  intros Hroute Htext Hasks. cbv zeta.
  rewrite assistantText_handled by assumption. rewrite Htext.
  destruct text as [| c text]; [ discriminate | ].
  rewrite maybeMarkConfirmationRequested_asks, Hasks.
  change (wp ((append_ai (c :: text) ;;
               (modify (fun s0 =>
                  { s0 with confirmationRequested := true;
                            confirmationGranted := false;
                            confirmationAskedAt := now;
                            confirmAskedTurnIndex := turnIndex s0 }) ;;
                setConvoState pending_confirm)) ;;
              markDirty)
             (fun _ s' es =>
                confirmationRequested s' = true
                /\ confirmationGranted s' = false
                /\ confirmationAskedAt s' = now
                /\ confirmAskedTurnIndex s' = turnIndex s
                /\ convoState s' = pending_confirm
                /\ finalizeFallbackTimer s' = finalizeFallbackTimer s
                /\ aiEl s' = aiEl s ++ c :: text
                /\ savesOf es = []
                /\ (forall t : Z, hasFinalizePermission s' t = false)) s).
  open_state s. unfold hasFinalizePermission.
  wp_exec; fields; unbool; subst.
  all: repeat split; try reflexivity.
  all: intros t; now rewrite !andb_false_r.
Qed.

(** The question is looked for in each delta on its own: pieces none of
    which is a question leave the confirmation context alone, whatever
    their concatenation says. *)
Theorem question_must_fit_one_delta (chunks : list (Z * jsstring)) (s : State) :
  Forall (fun r => asksToEnd (snd r) = false) chunks ->
  let r := run (streaming chunks) s in
  aiEl (stateOf r) = aiEl s ++ List.concat (List.map snd chunks)
  /\ confirmationRequested (stateOf r) = confirmationRequested s
  /\ confirmationGranted (stateOf r) = confirmationGranted s
  /\ confirmationAskedAt (stateOf r) = confirmationAskedAt s
  /\ confirmAskedTurnIndex (stateOf r) = confirmAskedTurnIndex s
  /\ convoState (stateOf r) = convoState s
  /\ effectsOf r = [].
Proof.
  intros Hall. cbv zeta.
  change (wp (run (streaming chunks))
             (fun _ s' es =>
                aiEl s' = aiEl s ++ List.concat (List.map snd chunks)
                /\ confirmationRequested s' = confirmationRequested s
                /\ confirmationGranted s' = confirmationGranted s
                /\ confirmationAskedAt s' = confirmationAskedAt s
                /\ confirmAskedTurnIndex s' = confirmAskedTurnIndex s
                /\ convoState s' = convoState s
                /\ es = []) s).
  revert s. induction Hall as [| [now text] chunks Hq _ IH]; intros s.
  - apply wp_ret. rewrite app_nil_r. auto 10.
  - cbn [streaming List.map fst snd run step] in *. apply wp_bind.
    apply wp_assistantDelta.
    assert (wp ((match text with
                 | _ :: _ => append_ai text ;; maybeMarkConfirmationRequested text now
                 | [] => ret tt
                 end) ;; markDirty)
               (fun _ s1 e1 =>
                  aiEl s1 = aiEl s ++ text
                  /\ confirmationRequested s1 = confirmationRequested s
                  /\ confirmationGranted s1 = confirmationGranted s
                  /\ confirmationAskedAt s1 = confirmationAskedAt s
                  /\ confirmAskedTurnIndex s1 = confirmAskedTurnIndex s
                  /\ convoState s1 = convoState s
                  /\ e1 = []) s) as Hstep.
    { rewrite maybeMarkConfirmationRequested_asks, Hq.
      open_state s. destruct text; wp_exec; fields; rewrite ?app_nil_r; auto 10. }
    eapply wp_mono; [ exact Hstep | ].
    cbv beta. intros _ s1 e1 (Ha & Hr & Hg & Hat & Hix & Hc & ->).
    eapply wp_mono; [ apply IH | ].
    cbv beta. intros _ s2 e2 (Ha2 & Hr2 & Hg2 & Hat2 & Hix2 & Hc2 & ->).
    rewrite Ha2, Ha, Hr2, Hr, Hg2, Hg, Hat2, Hat, Hix2, Hix, Hc2, Hc.
    cbn [List.concat List.app]. rewrite app_assoc. auto 10.
Qed.

End A2.

Lemma question_withdraws_grant_witness :
  let s := stateOf (run (askedToConfirm ++ userSays (t0 + 5000) (lit "yes"))
                        bootState) in
  let text := lit "Are you sure you want to end the call?" in
  let r := handleRealtimeEvent (assistantDelta text) (t0 + 5500) noNet s in
  (confirmationGranted s = true /\ hasFinalizePermission s (t0 + 5500) = true)
  /\ confirmationRequested (stateOf r) = true
  /\ confirmationGranted (stateOf r) = false
  /\ confirmationAskedAt (stateOf r) = t0 + 5500
  /\ confirmAskedTurnIndex (stateOf r) = turnIndex s
  /\ convoState (stateOf r) = pending_confirm
  /\ finalizeFallbackTimer (stateOf r) = finalizeFallbackTimer s
  /\ aiEl (stateOf r) = aiEl s ++ text
  /\ savesOf (effectsOf r) = []
  /\ (forall t : Z, hasFinalizePermission (stateOf r) t = false).
Proof.
  intros s text r. split; [ vm_compute; split; reflexivity | ].
  apply (@question_withdraws_grant MiniEngine.miniEngine s (assistantDelta text) text);
    vm_compute; reflexivity.
Defined.

Lemma question_must_fit_one_delta_witness :
  let chunks := [(t0, lit "Are you sure you want to ");
                 (t0 + 40, lit "end the conversation?")] in
  let r := run (streaming chunks) bootState in
  asksToEnd (List.concat (List.map snd chunks)) = true
  /\ aiEl (stateOf r) = aiEl bootState ++ List.concat (List.map snd chunks)
  /\ confirmationRequested (stateOf r) = confirmationRequested bootState
  /\ confirmationGranted (stateOf r) = confirmationGranted bootState
  /\ confirmationAskedAt (stateOf r) = confirmationAskedAt bootState
  /\ confirmAskedTurnIndex (stateOf r) = confirmAskedTurnIndex bootState
  /\ convoState (stateOf r) = convoState bootState
  /\ effectsOf r = [].
Proof.
  intros chunks r. split; [ vm_compute; reflexivity | ].
  apply (@question_must_fit_one_delta MiniEngine.miniEngine chunks bootState).
  repeat constructor.
Defined.

Section A4.
Context {engine : JsEngine}.

Lemma userDelta_step (text : jsstring) (now : Z) (net : Net) (s : State) :
  step now (InMessage (userDelta text) net) s = (tt, heard text s, []).
Proof.
  unfold heard. cbn [step]. rewrite !userDelta_handled.
  open_state s. destruct text, fin; reflexivity.
Qed.

Lemma heard_heard (a b : jsstring) (s : State) :
  heard b (heard a s) = heard (a ++ b) s.
Proof.
  unfold heard. rewrite !userDelta_handled.
  open_state s. destruct a, b, fin; cbn; rewrite <- ?app_assoc, ?app_nil_r;
    reflexivity.
Qed.

Lemma dictating_heard (chunks : list (Z * jsstring)) (s : State) :
  chunks <> [] ->
  run (dictating chunks) s = (tt, heard (List.concat (List.map snd chunks)) s, []).
Proof.
  intros Hne. destruct chunks as [| [t a] chunks]; [ contradiction | clear Hne ].
  revert t a s. induction chunks as [| [t' b] chunks IH]; intros t a s.
  - cbn [dictating List.map run fst snd List.concat].
    unfold bind. rewrite userDelta_step. cbn. now rewrite app_nil_r.
  - cbn [dictating List.map run fst snd List.concat] in *.
    unfold bind at 1. rewrite userDelta_step.
    specialize (IH t' b (heard a s)). unfold dictating in IH.
    cbn [List.map run fst snd List.concat] in IH.
    rewrite IH. cbn [List.app]. now rewrite heard_heard, app_assoc.
Qed.

(** How the transcript of a user turn is cut into deltas does not matter:
    the page ends in the same state, having emitted the same effects, as
    if the turn had arrived in one piece. *)
Theorem user_turn_chunking (chunks : list (Z * jsstring)) (now : Z) (s : State) :
  chunks <> [] ->
  run (dictating chunks ++ [(now, InMessage userTurnCompleted noNet)]) s
  = run (userSays now (List.concat (List.map snd chunks))) s.
Proof.
  intros Hne. rewrite run_app. unfold bind at 1.
  rewrite dictating_heard by assumption.
  unfold userSays. cbn [run]. unfold bind. rewrite userDelta_step.
  reflexivity.
Qed.

End A4.

Lemma user_turn_chunking_witness :
  let chunks := [(t0 + 5000, lit "ye"); (t0 + 5100, []); (t0 + 5200, lit "s please")] in
  let s := stateOf (run askedToConfirm bootState) in
  run (dictating chunks ++ [(t0 + 5300, InMessage userTurnCompleted noNet)]) s
  = run (userSays (t0 + 5300) (List.concat (List.map snd chunks))) s
  /\ confirmationGranted
       (stateOf (run (dictating chunks
                      ++ [(t0 + 5300, InMessage userTurnCompleted noNet)]) s)) = true.
Proof.
  intros chunks s. split; [ | vm_compute; reflexivity ].
  apply (@user_turn_chunking MiniEngine.miniEngine chunks (t0 + 5300) s).
  discriminate.
Defined.

Section A5.
Context {engine : JsEngine}.

(** The termination action is carried out exactly when it arrives outside
    the lockout, with confirmed among its arguments as the boolean true,
    and with permission: then one finalize request is sent, built from the
    page as it is and the reason given, and the server's answer decides
    between ending the conversation and continuing it.  Once the server
    accepted, the closing message is handed to the channel exactly when
    the channel is open, and the page tears the session down at once
    unless the channel was open and took the message.  In every case the
    buffered arguments of the call are dropped. *)
Theorem termination_action_outcome (s : State) (evt : Event) (now : Z) (net : Net) :
  isDoneType (e_type evt) = true ->
  fnNameOf evt = lit "finalize_conversation" ->
  let args := parseArgs (orDefault (fnArgBuffers s !! callIdOf evt) []) in
  let valid :=
    (rejectFinalizeUntilTs s <=? now) && argConfirmed args
    && hasFinalizePermission s now in
  let r := handleRealtimeEvent evt now net s in
  savesOf (effectsOf r)
  = (if valid then [payloadOf s (finalizeOptions (argReason args))] else [])
  /\ fnArgBuffers (stateOf r) !! callIdOf evt = None
  /\ (valid = false ->
      finalized (stateOf r) = finalized s /\ convoState (stateOf r) = active)
  /\ (valid = true -> fetchOk net = false ->
      finalized (stateOf r) = false /\ convoState (stateOf r) = active
      /\ ~ In (EffStopSoon STOP_AFTER_CLOSE_MS) (effectsOf r)
      /\ ~ In EffTeardown (effectsOf r))
  /\ (valid = true -> fetchOk net = true ->
      finalized (stateOf r) = true /\ convoState (stateOf r) = ended
      /\ dirty (stateOf r) = false
      /\ finalizeFallbackTimer (stateOf r) = TNull
      /\ In (EffStopSoon STOP_AFTER_CLOSE_MS) (effectsOf r)
      /\ (In (EffSendInstruction closingText) (effectsOf r)
          <-> channelOpen s = true)
      /\ (In EffTeardown (effectsOf r)
          <-> channelOpen s && negb (send_throws net) = false)).
Proof.
  intros Hdone Hname.
  destruct (isDoneType_routed _ Hdone) as [Hroute Hnd].
  cbv zeta. rewrite toolEvent_handled by assumption.
  unfold fetchOk, channelOpen, payloadOf. rewrite Z.leb_antisym.
  wp_goal (handleFunctionCallEvent evt now net) s.
  unfold handleFunctionCallEvent. rewrite Hnd, Hdone, Hname.
  rewrite bool_decide_eq_true_2 by reflexivity.
  unfold hasFinalizePermission. open_state s. fields.
  rewrite <- andb_assoc.
  match goal with
  | |- context [negb ?l && (?c && ?p)] =>
      rewrite <- (negb_involutive (c && p))
  end.
  wp_exec; fields.
  all: rewrite ?lookup_delete_eq.
  all: repeat match goal with
              | H : outcome _ = _ |- _ => rewrite H; clear H
              end.
  all: unfold channelOpen in *; fields in *.
  all: repeat split; intros; try discriminate; try reflexivity.
  all: unbool; subst; try reflexivity; try discriminate.
  all: try (destruct dc as [[] |]; cbn in *; try discriminate).
  all: try solve [ intuition (discriminate || auto) ].
  all: destruct fbT; cbn in *; congruence.
Qed.
End A5.

Lemma termination_action_outcome_witness :
  let s := stateOf (run (askedToConfirm ++ userSays (t0 + 5000) (lit "yes")
                         ++ [(t0 + 5400, InMessage (toolArgsDelta confirmedArgs) noNet)])
                        bootState) in
  let net := accepted (t0 + 5600) (Some 7) in
  let args := parseArgs (orDefault (fnArgBuffers s !! callIdOf toolArgsDone) []) in
  let valid :=
    (rejectFinalizeUntilTs s <=? t0 + 5500) && argConfirmed args
    && hasFinalizePermission s (t0 + 5500) in
  let r := handleRealtimeEvent toolArgsDone (t0 + 5500) net s in
  valid = true
  /\ savesOf (effectsOf r)
     = (if valid then [payloadOf s (finalizeOptions (argReason args))] else [])
  /\ fnArgBuffers (stateOf r) !! callIdOf toolArgsDone = None
  /\ (valid = false ->
      finalized (stateOf r) = finalized s /\ convoState (stateOf r) = active)
  /\ (valid = true -> fetchOk net = false ->
      finalized (stateOf r) = false /\ convoState (stateOf r) = active
      /\ ~ In (EffStopSoon STOP_AFTER_CLOSE_MS) (effectsOf r)
      /\ ~ In EffTeardown (effectsOf r))
  /\ (valid = true -> fetchOk net = true ->
      finalized (stateOf r) = true /\ convoState (stateOf r) = ended
      /\ dirty (stateOf r) = false
      /\ finalizeFallbackTimer (stateOf r) = TNull
      /\ In (EffStopSoon STOP_AFTER_CLOSE_MS) (effectsOf r)
      /\ (In (EffSendInstruction closingText) (effectsOf r)
          <-> channelOpen s = true)
      /\ (In EffTeardown (effectsOf r)
          <-> channelOpen s && negb (send_throws net) = false)).
Proof.
  intros s net args valid r. split; [ vm_compute; reflexivity | ].
  apply (@termination_action_outcome MiniEngine.miniEngine s toolArgsDone
           (t0 + 5500) net); vm_compute; reflexivity.
Defined.

Section A7.
Context {engine : JsEngine}.

Lemma affirmative_not_negative (text : jsstring) :
  isAffirmativeTurn text = true -> isNegativeTurn text = false /\ text <> [].
Proof.
  intros H. split.
  - rewrite isAffirmativeTurn_unfold in H.
    destruct (isNegativeTurn text); [ discriminate | reflexivity ].
  - intros ->. discriminate H.
Qed.

(** The fallback timer running with permission. *)
Lemma fallback_fires (s : State) (d : Z) (now : Z) (net : Net) :
  finalizeFallbackTimer s = TPending d ->
  hasFinalizePermission s now = true ->
  wp (step now (InFallbackTimer net))
     (fun _ s' es =>
        savesOf es = [payloadOf s (finalizeOptions (lit "user confirmed end (fallback)"))]
        /\ (fetchOk net = true -> finalized s' = true /\ convoState s' = ended)
        /\ (fetchOk net = false -> finalized s' = false /\ convoState s' = active)) s.
Proof.
  intros Htimer Hperm. cbn [step]. unfold finalizeClientSide, fetchOk, payloadOf.
  unfold hasFinalizePermission in *.
  open_state s. fields in Htimer. fields in Hperm. subst.
  wp_head. wp_head. wp_head. wp_head. wp_head. wp_head.
  rewrite Hperm. cbn [negb].
  wp_exec; fields.
  all: repeat match goal with
              | H : outcome _ = _ |- _ => rewrite H; clear H
              end.
  all: repeat split; intros; try discriminate; try reflexivity.
  all: unbool; subst; try reflexivity; try discriminate.
Qed.

(** An affirmative reply, and then the fallback timer: asked to confirm
    (and answering within the window), or asking to stop in the same
    breath, the user who says yes gets the conversation finalized by the
    page itself when the model sends no termination action. *)
Theorem affirmative_reply_finalizes (s : State) (text : jsstring) (now : Z) (net : Net) :
  currentUserTurn s = [] ->
  isAffirmativeTurn text = true ->
  (confirmationRequested s = true
   /\ confirmAskedTurnIndex s <= turnIndex s
   /\ now + FINALIZE_FALLBACK_MS - confirmationAskedAt s <= CONFIRM_WINDOW_MS)
  \/ (isStopIntent text = true
      /\ rejectFinalizeUntilTs s <= now + FINALIZE_FALLBACK_MS) ->
  let s1 := stateOf (run (userSays now text) s) in
  let r := step (now + FINALIZE_FALLBACK_MS) (InFallbackTimer net) s1 in
  confirmationGranted s1 = true
  /\ finalizeFallbackTimer s1 = TPending FINALIZE_FALLBACK_MS
  /\ savesOf (effectsOf (run (userSays now text) s)) = []
  /\ (exists p,
        savesOf (effectsOf r) = [p]
        /\ finalize p = true /\ confirmed p = true /\ close p = true
        /\ reason p = lit "user confirmed end (fallback)"
        /\ user_text p = userEl s ++ text ++ newline
        /\ ai_text p = aiEl s)
  /\ (fetchOk net = true ->
      finalized (stateOf r) = true /\ convoState (stateOf r) = ended)
  /\ (fetchOk net = false ->
      finalized (stateOf r) = false /\ convoState (stateOf r) = active).
Proof.
  intros Hcur Haff Hctx.
  destruct (affirmative_not_negative text Haff) as [Hneg Hne].
  assert (wp (run (userSays now text))
             (fun _ s1 es =>
                confirmationGranted s1 = true
                /\ finalizeFallbackTimer s1 = TPending FINALIZE_FALLBACK_MS
                /\ savesOf es = []
                /\ hasFinalizePermission s1 (now + FINALIZE_FALLBACK_MS) = true
                /\ userEl s1 = userEl s ++ text ++ newline
                /\ aiEl s1 = aiEl s) s) as Hsaid.
  { unfold userSays. cbn [run step]. apply wp_bind, wp_userDelta.
    destruct text as [| c text]; [ contradiction | ].
    unfold hasFinalizePermission, FINALIZE_FALLBACK_MS, CONFIRM_WINDOW_MS,
      STOP_INTENT_WINDOW_MS in *.
    open_state s. fields in Hcur. fields in Hctx. subst.
    wp_run.
    all: apply wp_userTurnCompleted; wp_run.
    all: unfold maybeEvaluateUserConfirmation; cbn [List.app isEmpty].
    all: rewrite Hneg, Haff.
    all: wp_run; fields.
    all: rewrite <- ?app_assoc; cbn [List.app].
    all: repeat split; try reflexivity.
    all: unbool; subst.
    all: destruct Hctx as [(Hreq & Hix & Hwin) | (Hstop & Hrej)];
      try discriminate; try congruence.
    all: apply orb_true_iff.
    all: first [ left; rewrite Hreq, !andb_true_iff, Z.leb_le, Z.ltb_lt;
                 repeat split; (lia || reflexivity)
               | right; rewrite !andb_true_iff, !Z.leb_le;
                 repeat split; (lia || reflexivity) ]. }
  cbv zeta. unfold wp in Hsaid.
  destruct Hsaid as (Hg & Htimer & Hsilent & Hperm & Huser & Hai).
  pose proof (fallback_fires _ _ _ net Htimer Hperm) as Hfire.
  unfold wp in Hfire. destruct Hfire as (Hsaves & Hok & Hfail).
  repeat split; try assumption; try (now apply Hok); try (now apply Hfail).
  eexists. split; [ exact Hsaves | ].
  cbn [payloadOf finalizeOptions finalize confirmed close reason user_text ai_text
       opt_finalize opt_confirmed opt_close opt_reason opt_autosave].
  rewrite Huser, Hai. repeat split; reflexivity.
Qed.
End A7.

Lemma affirmative_reply_finalizes_witness :
  let s := stateOf (run askedToConfirm bootState) in
  let text := lit "Yes, go ahead." in
  let now := t0 + 5000 in
  let net := accepted (t0 + 7000) (Some 7) in
  let s1 := stateOf (run (userSays now text) s) in
  let r := step (now + FINALIZE_FALLBACK_MS) (InFallbackTimer net) s1 in
  confirmationGranted s1 = true
  /\ finalizeFallbackTimer s1 = TPending FINALIZE_FALLBACK_MS
  /\ savesOf (effectsOf (run (userSays now text) s)) = []
  /\ (exists p,
        savesOf (effectsOf r) = [p]
        /\ finalize p = true /\ confirmed p = true /\ close p = true
        /\ reason p = lit "user confirmed end (fallback)"
        /\ user_text p = userEl s ++ text ++ newline
        /\ ai_text p = aiEl s)
  /\ (fetchOk net = true ->
      finalized (stateOf r) = true /\ convoState (stateOf r) = ended)
  /\ (fetchOk net = false ->
      finalized (stateOf r) = false /\ convoState (stateOf r) = active).
Proof.
  intros s text now net s1 r.
  apply (@affirmative_reply_finalizes MiniEngine.miniEngine s text now net).
  - vm_compute. reflexivity.
  - vm_compute. reflexivity.
  - left. vm_compute. repeat split; discriminate.
Defined.

Section A8.
Context {engine : JsEngine}.

Lemma stop_sameConfirmation (skipSave : bool) (now : Z) (net1 net2 : Net) :
  keeps sameConfirmation (stop skipSave now net1 net2).
Proof. keeps_run ltac:(unfold sameConfirmation; by_fields). Qed.

(** However it was called and however the saves went, [stop] leaves the
    page idle: no timer pending, lockout and stop intent forgotten, no
    channel, Start enabled and Stop disabled.  The timeouts it cancelled
    do nothing when their time comes, and stopping again changes nothing
    more.  The confirmation context is not reset. *)
Theorem stop_leaves_idle (skipSave : bool) (now : Z) (net1 net2 : Net) (s : State) :
  let s' := stateOf (stop skipSave now net1 net2 s) in
  (autosaveTimer s' = TNull /\ greetTimeoutHandle s' = TNull
   /\ finalizeFallbackTimer s' = TNull
   /\ rejectFinalizeUntilTs s' = 0 /\ lastStopIntentTs s' = 0
   /\ eventsDC s' = None
   /\ startBtn_disabled s' = false /\ stopBtn_disabled s' = true
   /\ statusEl s' = lit "Idle")
  /\ (forall (now' : Z) (net : Net),
        step now' (InAutosaveTimer net) s' = (tt, s', [])
        /\ step now' (InFallbackTimer net) s' = (tt, s', []))
  /\ (forall (now' : Z) (n1 n2 : Net),
        stop true now' n1 n2 s' = (tt, s', [EffTeardown]))
  /\ (confirmationRequested s' = confirmationRequested s
      /\ confirmationGranted s' = confirmationGranted s
      /\ confirmationAskedAt s' = confirmationAskedAt s
      /\ confirmAskedTurnIndex s' = confirmAskedTurnIndex s
      /\ lastUserTurnIndex s' = lastUserTurnIndex s
      /\ currentUserTurn s' = currentUserTurn s).
Proof.
  cbv zeta. wp_goal (stop skipSave now net1 net2) s.
  unfold stop. open_state s. wp_head. wp_head. wp_head. wp_head. wp_head.
  apply wp_bind.
  eapply wp_mono; [ apply (keeps_wp onlySaves) | ].
  { keeps_run ltac:(unfold onlySaves; by_fields). }
  cbv beta. intros _ s1 e1 Hs1. rewrite Hs1. clear Hs1.
  generalize (conversationId s1), (lastSnapshot s1), (lastSaveAt s1), (dirty s1),
    (saving s1), (finalized s1), (convoState s1), (statusEl s1).
  intros cid1 lsnap1 lsaved1 drt1 sav1 fin1 cst1 stel1. clear s1.
  wp_state. wp_run; fields.
  all: repeat match goal with
              | H : timerSet ?t = _ |- _ =>
                  destruct t; cbn in H; try discriminate H; clear H
              end.
  all: repeat split; reflexivity.
Qed.
(** What Stop sends from a page that is not finalized and has no save in
    flight.  Within the autosave interval the non-final save is skipped and
    the finalize request alone goes out; otherwise the finalize request
    follows an accepted non-final save and names the conversation row that
    this save returned. *)
Theorem stop_requests (s : State) (now : Z) (net1 net2 : Net) :
  finalized s = false ->
  saving s = false ->
  savesOf (effectsOf (stop false now net1 net2 s))
  = if now - lastSaveAt s <? MIN_SAVE_INTERVAL_MS
    then [payloadOf s (finalizeOptions (lit "manual_stop_finalize"))]
    else match outcome net1 with
         | FetchResponse true js_id =>
             [payloadOf s (autosaveOptions (lit "manual_stop"));
              payloadOf { s with conversationId :=
                                   match js_id with
                                   | Some i => Some i
                                   | None => conversationId s
                                   end }
                        (finalizeOptions (lit "manual_stop_finalize"))]
         | _ => [payloadOf s (autosaveOptions (lit "manual_stop"))]
         end.
Proof.
  intros Hfin Hsav.
  wp_goal (stop false now net1 net2) s.
  open_state s. fields in Hfin. fields in Hsav. subst. fields.
  wp_exec; fields.
  all: cbn [opt_finalize opt_autosave autosaveOptions finalizeOptions negb andb] in *.
  all: try discriminate.
  all: repeat match goal with
              | H : outcome _ = _ |- _ => rewrite H in *; clear H
              | H : (_ - _ <? _) = _ |- _ => rewrite H in *; clear H
              end.
  all: reflexivity.
Qed.

End A8.

Lemma stop_requests_witness :
  let s := stateOf (run (userSays t0 (lit "hello")) bootState) in
  let net1 := accepted (t0 + 1100) (Some 7) in
  let net2 := accepted (t0 + 1200) (Some 7) in
  List.map conversation_id (savesOf (effectsOf (stop false (t0 + 1000) net1 net2 s)))
  = [None; Some 7]
  /\ savesOf (effectsOf (stop false (t0 + 1000) net1 net2 s))
     = (if t0 + 1000 - lastSaveAt s <? MIN_SAVE_INTERVAL_MS
        then [payloadOf s (finalizeOptions (lit "manual_stop_finalize"))]
        else match outcome net1 with
             | FetchResponse true js_id =>
                 [payloadOf s (autosaveOptions (lit "manual_stop"));
                  payloadOf { s with conversationId :=
                                       match js_id with
                                       | Some i => Some i
                                       | None => conversationId s
                                       end }
                            (finalizeOptions (lit "manual_stop_finalize"))]
             | _ => [payloadOf s (autosaveOptions (lit "manual_stop"))]
             end).
Proof.
  intros s net1 net2. split; [ vm_compute; reflexivity | ].
  apply (stop_requests s (t0 + 1000) net1 net2); vm_compute; reflexivity.
Defined.

Lemma dispatched_app (e1 e2 : list Effect) :
  dispatched (e1 ++ e2) = dispatched e1 ++ dispatched e2.
Proof. induction e1 as [| [] e1 IH]; cbn; rewrite ?IH; reflexivity. Qed.

Lemma last_nonempty {A} (x : A) (l : list A) (a b : A) :
  List.last (x :: l) a = List.last (x :: l) b.
Proof.
  revert x. induction l as [| y l IH]; intros x; [ reflexivity | ].
  change (List.last (x :: y :: l) a) with (List.last (y :: l) a).
  change (List.last (x :: y :: l) b) with (List.last (y :: l) b).
  apply IH.
Qed.

Lemma follows_app (a : ConvoState) (d1 d2 : list ConvoState) :
  follows a d1 -> follows (List.last d1 a) d2 -> follows a (d1 ++ d2).
Proof.
  revert a. induction d1 as [| d d1 IH]; intros a H1 H2; cbn in *; [ exact H2 | ].
  destruct H1 as [Hne H1]. split; [ exact Hne | ].
  apply IH; [ exact H1 | ].
  destruct d1 as [| c d1]; [ exact H2 | ].
  now rewrite (last_nonempty c d1 d a).
Qed.

Lemma last_app_default {A} (l1 l2 : list A) (a : A) :
  List.last (l1 ++ l2) a = List.last l2 (List.last l1 a).
Proof.
  revert a. induction l1 as [| x l1 IH]; intros a; cbn [List.app]; [ reflexivity | ].
  destruct l1 as [| y l1].
  - cbn [List.app]. destruct l2 as [| z l2]; [ reflexivity | ].
    change (List.last (x :: z :: l2) a) with (List.last (z :: l2) a).
    apply last_nonempty.
  - change (List.last (x :: (y :: l1) ++ l2) a)
      with (List.last ((y :: l1) ++ l2) a).
    rewrite IH. reflexivity.
Qed.

#[local] Instance mirrors_chains : Chains mirrors.
Proof.
  split; unfold mirrors.
  - intros s. cbn. auto.
  - intros s1 e1 s2 e2 s3 [F1 L1] [F2 L2].
    rewrite dispatched_app, last_app_default, L1. split; [ | exact L2 ].
    apply follows_app; [ exact F1 | now rewrite L1 ].
Qed.

#[local] Instance turnsAdvance_chains : Chains turnsAdvance.
Proof.
  split; unfold turnsAdvance.
  - intros s. split; [ lia | auto ].
  - intros s1 e1 s2 e2 s3 [H1 K1] [H2 K2]. split; [ lia | auto ].
Qed.

#[local] Instance noGreetingPending_chains : Chains noGreetingPending.
Proof. split; unfold noGreetingPending; auto. Qed.

Ltac mirrors_tac := unfold mirrors; by_fields.
Ltac turns_tac := unfold turnsAdvance, ordered; by_fields; cbn in *; lia.
Ltac greeting_tac := unfold noGreetingPending; by_fields.

Section B1.
Context {engine : JsEngine}.

Lemma setConvoState_mirrors (newState : ConvoState) :
  keeps mirrors (setConvoState newState).
Proof.
  intros s. wp_goal (setConvoState newState) s.
  unfold mirrors. open_state s.
  wp_run; fields; unbool; subst; cbn; auto.
  all: destruct newState; cbn; auto.
Qed.

Lemma step_mirrors (now : Z) (i : Input) : keeps mirrors (step now i).
Proof.
  keeps_with ltac:(apply setConvoState_mirrors) mirrors_tac.
Qed.

Lemma step_turnsAdvance (now : Z) (i : Input) : keeps turnsAdvance (step now i).
Proof. keeps_run turns_tac. Qed.

Lemma step_noGreetingPending (now : Z) (i : Input) :
  keeps noGreetingPending (step now i).
Proof. keeps_run greeting_tac. Qed.

End B1.

Section B2.
Context {engine : JsEngine}.

(** The convo:state events mirror the lifecycle variable: over any run of
    the page, each event announces a state different from the one before
    it, and the last one announced is the state the page is in (the state
    it started in, when none was announced). *)
Theorem lifecycle_events_mirror_state (inputs : list (Z * Input)) (s : State) :
  let r := run inputs s in
  follows (convoState s) (dispatched (effectsOf r))
  /\ List.last (dispatched (effectsOf r)) (convoState s) = convoState (stateOf r).
Proof.
  exact (keeps_run_inputs mirrors inputs step_mirrors s).
Qed.

(** The turn counter never goes back, and the index recorded when the
    assistant asks and the index of the last completed user turn never
    run ahead of it. *)
Theorem turn_indices_ordered (inputs : list (Z * Input)) (s : State) :
  ordered s ->
  let s' := stateOf (run inputs s) in
  ordered s' /\ turnIndex s <= turnIndex s'.
Proof.
  intros Hord. cbv zeta.
  destruct (keeps_run_inputs turnsAdvance inputs step_turnsAdvance s) as [Hle Hkeep].
  auto.
Qed.

(** Nothing in this version of the script raises the flag greetingPending,
    so the stop on a completed response never runs: from a state with the
    flag down, no run raises it, and an event that ends the assistant's
    turn only closes the line of the transcript, advances the turn counter
    and re-arms the autosave. *)
Theorem safety_stop_unreachable (inputs : list (Z * Input)) (s : State)
    (evt : Event) (now : Z) (net : Net) :
  greetingPending s = false ->
  routeOf (e_type evt) = AssistantTurnEnd ->
  let s1 := stateOf (run inputs s) in
  greetingPending s1 = false
  /\ handleRealtimeEvent evt now net s1
     = (tt, { s1 with aiEl := aiEl s1 ++ newline;
                      turnIndex := turnIndex s1 + 1;
                      autosaveTimer := TPending 3000 }, []).
Proof.
  intros Hflag Hroute. cbv zeta.
  pose proof (keeps_run_inputs noGreetingPending inputs step_noGreetingPending s Hflag)
    as Hdown.
  split; [ exact Hdown | ].
  rewrite handleRealtimeEvent_routed, Hroute, Hdown.
  destruct (stateOf (run inputs s)). reflexivity.
Qed.

End B2.

Lemma turn_indices_ordered_witness :
  let inputs := askedToConfirm ++ userSays (t0 + 5000) (lit "yes") in
  ordered bootState
  /\ ordered (stateOf (run inputs bootState))
  /\ turnIndex bootState <= turnIndex (stateOf (run inputs bootState)).
Proof.
  intros inputs.
  assert (ordered bootState) as H by (unfold ordered; cbn; lia).
  split; [ exact H | ].
  exact (@turn_indices_ordered MiniEngine.miniEngine inputs bootState H).
Defined.

Lemma safety_stop_unreachable_witness :
  let inputs := askedToConfirm ++ userSays (t0 + 5000) (lit "no") in
  let s1 := stateOf (run inputs bootState) in
  greetingPending s1 = false
  /\ handleRealtimeEvent assistantDone (t0 + 6000) noNet s1
     = (tt, { s1 with aiEl := aiEl s1 ++ newline;
                      turnIndex := turnIndex s1 + 1;
                      autosaveTimer := TPending 3000 }, []).
Proof.
  intros inputs s1.
  apply (@safety_stop_unreachable MiniEngine.miniEngine inputs bootState
           assistantDone (t0 + 6000) noNet); reflexivity.
Defined.

Section B3.
Context {engine : JsEngine}.

(** Text that arrives while a save is in flight is marked clean by the
    answer to that save: the request carries the transcript as it was when
    it was sent, the answer resets dirty without comparing, and the
    autosave timeout that the new text armed then finds nothing to do. *)
Theorem text_during_save_is_marked_clean (s : State) (options : SaveOptions)
    (nowTs : Z) (text : jsstring) (now' : Z) (net : Net) (js_id : option Z) :
  finalized s = false ->
  blockedInFlight s options = false ->
  throttled s options nowTs = false ->
  text <> [] ->
  outcome net = FetchResponse true js_id ->
  let s1 := stateOf (saveConversation_begin options nowTs s) in
  let s2 := stateOf (handleRealtimeEvent (userDelta text) now' noNet s1) in
  let s3 := stateOf (saveConversation_end (currentSnapshot s) net s2) in
  valueOf (saveConversation_begin options nowTs s)
  = Send (payloadOf s options) (currentSnapshot s)
  /\ userEl s3 = userEl s ++ text
  /\ dirty s2 = true
  /\ dirty s3 = false
  /\ lastSnapshot s3 = currentSnapshot s
  /\ lastSnapshot s3 <> currentSnapshot s3
  /\ (forall (t : Z) (net' : Net),
        savesOf (effectsOf (step t (InAutosaveTimer net') s3)) = []).
Proof.
  intros Hfin Hblocked Hthr Hne Hok. cbv zeta.
  rewrite saveConversation_begin_eq, Hblocked, Hthr.
  cbn [valueOf stateOf fst snd].
  rewrite userDelta_handled.
  unfold saveConversation_end. rewrite Hok.
  destruct text as [| c text]; [ contradiction | ].
  open_state s. fields in Hfin. subst.
  cbn -[lit trim].
  repeat split.
  intros Heq. apply (f_equal (@List.length N)) in Heq.
  rewrite !length_app in Heq. cbn [List.length] in Heq.
  rewrite !length_app in Heq. lia.
Qed.

(** An autosave that comes due within the interval after the last save, or
    while a save is in flight, is dropped, not postponed: nothing is sent,
    the page stays dirty, and no autosave timeout is left pending, so the
    unsaved text waits for the next delta or for Stop. *)
Theorem skipped_autosave_is_dropped (s : State) (d : Z) (now : Z) (net : Net) :
  autosaveTimer s = TPending d ->
  dirty s = true ->
  saving s = true \/ now - lastSaveAt s < MIN_SAVE_INTERVAL_MS ->
  let r := step now (InAutosaveTimer net) s in
  r = (tt, { s with autosaveTimer := TStale }, [])
  /\ dirty (stateOf r) = true
  /\ (forall (t : Z) (net' : Net),
        step t (InAutosaveTimer net') (stateOf r) = (tt, stateOf r, [])).
Proof.
  intros Htimer Hdirty Hskip. cbv zeta.
  assert (step now (InAutosaveTimer net) s = (tt, { s with autosaveTimer := TStale }, []))
    as Hstep.
  { cbn [step]. rewrite bind_get, Htimer, bind_modify.
    unfold tryAutoSave. rewrite bind_get.
    replace (dirty { s with autosaveTimer := TStale }) with true
      by (destruct s; cbn in *; congruence).
    cbn [negb]. change (isEmpty (lit "idle")) with false. cbv iota.
    unfold bind.
    pose proof (wp_saveConversation (autosaveOptions (lit "idle")) now net
                  (fun _ s' es => s' = { s with autosaveTimer := TStale } /\ es = [])
                  { s with autosaveTimer := TStale }) as Hwp.
    unfold wp in Hwp.
    destruct Hwp as [Hs He].
    { unfold blockedInFlight, throttled.
      open_state s. cbn in *. subst.
      destruct Hskip as [-> | Hlt]; [ cbn; auto | ].
      apply Z.ltb_lt in Hlt. rewrite Hlt.
      destruct sav; cbn; auto. }
    destruct (saveConversation (autosaveOptions (lit "idle")) now net
                { s with autosaveTimer := TStale }) as [[ok s'] es].
    cbn [stateOf effectsOf fst snd] in *. subst. reflexivity. }
  rewrite Hstep. cbn [stateOf fst snd].
  repeat split.
  destruct s; cbn in *; exact Hdirty.
Qed.

End B3.

Lemma text_during_save_is_marked_clean_witness :
  let s := stateOf (run (userSays t0 (lit "hello")) bootState) in
  let options := autosaveOptions (lit "idle") in
  let net := accepted (t0 + 9000) (Some 7) in
  let s1 := stateOf (saveConversation_begin options (t0 + 8000) s) in
  let s2 := stateOf (handleRealtimeEvent (userDelta (lit "one more thing"))
                       (t0 + 8500) noNet s1) in
  let s3 := stateOf (saveConversation_end (currentSnapshot s) net s2) in
  valueOf (saveConversation_begin options (t0 + 8000) s)
  = Send (payloadOf s options) (currentSnapshot s)
  /\ userEl s3 = userEl s ++ lit "one more thing"
  /\ dirty s2 = true
  /\ dirty s3 = false
  /\ lastSnapshot s3 = currentSnapshot s
  /\ lastSnapshot s3 <> currentSnapshot s3
  /\ (forall (t : Z) (net' : Net),
        savesOf (effectsOf (step t (InAutosaveTimer net') s3)) = []).
Proof.
  intros s options net s1 s2 s3.
  apply (@text_during_save_is_marked_clean MiniEngine.miniEngine s options
           (t0 + 8000) (lit "one more thing") (t0 + 8500) net (Some 7));
    try (vm_compute; reflexivity).
  discriminate.
Defined.

Lemma skipped_autosave_is_dropped_witness :
  let s0 := stateOf (run (userSays t0 (lit "hello")) bootState) in
  let s1 := stateOf (saveConversation (autosaveOptions (lit "idle")) (t0 + 3000)
                       (accepted (t0 + 3100) (Some 7)) s0) in
  let s := stateOf (run (userSays (t0 + 4000) (lit "and then")) s1) in
  let r := step (t0 + 7000) (InAutosaveTimer (accepted (t0 + 7100) (Some 7))) s in
  userEl s <> user_text (payloadOf s0 (autosaveOptions (lit "idle")))
  /\ r = (tt, { s with autosaveTimer := TStale }, [])
  /\ dirty (stateOf r) = true
  /\ (forall (t : Z) (net' : Net),
        step t (InAutosaveTimer net') (stateOf r) = (tt, stateOf r, [])).
Proof.
  intros s0 s1 s r. split; [ vm_compute; discriminate | ].
  apply (@skipped_autosave_is_dropped MiniEngine.miniEngine s 3000 (t0 + 7000)
           (accepted (t0 + 7100) (Some 7))).
  - vm_compute. reflexivity.
  - vm_compute. reflexivity.
  - right. vm_compute. reflexivity.
Defined.

Section C1.
Context {engine : JsEngine}.

Lemma isDeltaType_routed (t : jsstring) :
  isDeltaType t = true -> isToolEvent t = true /\ isDoneType t = false.
Proof.
  unfold isDeltaType. rewrite orb_true_iff, !bool_decide_eq_true.
  intros [-> | ->]; vm_compute; auto.
Qed.

(** A delta event of the termination action appends its piece to the
    buffer of its call. *)
Lemma argsDelta_handled (evt : Event) (now : Z) (net : Net) (s : State) :
  isDeltaType (e_type evt) = true ->
  handleRealtimeEvent evt now net s
  = (tt,
     { s with fnArgBuffers :=
                <[ callIdOf evt :=
                     orDefault (fnArgBuffers s !! callIdOf evt) [] ++ argsChunk evt ]>
                  (fnArgBuffers s) },
     []).
Proof.
  intros Hdelta. destruct (isDeltaType_routed _ Hdelta) as [Htool _].
  rewrite toolEvent_handled by assumption.
  unfold handleFunctionCallEvent, argsChunk. rewrite Hdelta.
  unfold modify. f_equal. f_equal.
  destruct s. cbn.
  destruct (e_delta evt) as [| [| c d] | t]; cbn; rewrite ?app_nil_r; reflexivity.
Qed.

Lemma orDefault_app (a b : jsstring) : orDefault (Some (a ++ b)) [] = a ++ b.
Proof. destruct (a ++ b); reflexivity. Qed.

Lemma chunks_none (id : jsstring) (evts : list (Z * Event)) :
  existsb (fun e => bool_decide (callIdOf (snd e) = id)) evts = false ->
  flat_map (fun e => if bool_decide (callIdOf (snd e) = id)
                     then argsChunk (snd e) else []) evts = [].
Proof.
  induction evts as [| e evts IH]; cbn; [ reflexivity | ].
  intros H. apply orb_false_iff in H. destruct H as [-> H]. now rewrite IH.
Qed.

(** The pieces of the arguments are put together call by call: whatever
    the order in which the delta events of several calls arrive, the
    buffer of each call holds its own pieces in their order of arrival,
    after what it held before; a call that no event names keeps its
    buffer; nothing else on the page changes and nothing is emitted. *)
Theorem argument_chunks_kept_apart (evts : list (Z * Event)) (s : State) :
  Forall (fun e => isDeltaType (e_type (snd e)) = true) evts ->
  let r := run (arriving evts) s in
  (forall id : jsstring,
      fnArgBuffers (stateOf r) !! id
      = if mentions id evts
        then Some (orDefault (fnArgBuffers s !! id) [] ++ chunksFor id evts)
        else fnArgBuffers s !! id)
  /\ stateOf r = { s with fnArgBuffers := fnArgBuffers (stateOf r) }
  /\ effectsOf r = [].
Proof.
  intros Hall. cbv zeta. revert s.
  induction Hall as [| [now evt] evts Hdelta _ IH]; intros s.
  - cbn. repeat split; try reflexivity. destruct s; reflexivity.
  - cbn [arriving List.map run fst snd step] in *.
    unfold bind. rewrite argsDelta_handled by exact Hdelta.
    set (s1 := { s with fnArgBuffers :=
                   <[ callIdOf evt :=
                        orDefault (fnArgBuffers s !! callIdOf evt) [] ++ argsChunk evt ]>
                     (fnArgBuffers s) }).
    specialize (IH s1). fold (arriving evts) in IH |- *.
    destruct (run (arriving evts) s1) as [[u s2] e2].
    cbn [stateOf effectsOf fst snd] in *.
    destruct IH as (Hbuf & Hframe & ->).
    assert (fnArgBuffers s1
            = <[ callIdOf evt :=
                   orDefault (fnArgBuffers s !! callIdOf evt) [] ++ argsChunk evt ]>
                (fnArgBuffers s)) as Hs1 by (destruct s; reflexivity).
    repeat split.
    + intros id. rewrite Hbuf, Hs1.
      unfold mentions, chunksFor. cbn [existsb flat_map snd].
      destruct (bool_decide (callIdOf evt = id)) eqn:Hid.
      * apply bool_decide_eq_true in Hid. subst id.
        rewrite lookup_insert_eq. cbn [orb].
        rewrite orDefault_app.
        destruct (existsb _ evts) eqn:Hm.
        -- now rewrite app_assoc.
        -- rewrite (chunks_none _ _ Hm), app_nil_r, ?lookup_insert_eq. reflexivity.
      * apply bool_decide_eq_false in Hid.
        rewrite !lookup_insert_ne by exact Hid. cbn [orb List.app]. reflexivity.
    + rewrite Hframe. destruct s, s2. reflexivity.
Qed.

End C1.

Lemma argument_chunks_kept_apart_witness :
  let a := lit "call_a" in
  let b := lit "call_b" in
  let piece (id chunk : jsstring) : Event :=
    { toolArgsDelta chunk with e_id := Some id } in
  let evts := [(t0, piece a (lit "{"));
               (t0 + 10, piece b (lit "{" ++ quote ++ lit "reason"));
               (t0 + 20, piece a (quote ++ lit "confirmed" ++ quote));
               (t0 + 30, piece a (lit ":true}"))] in
  let r := run (arriving evts) bootState in
  fnArgBuffers (stateOf r) !! a = Some confirmedArgs
  /\ (forall id : jsstring,
        fnArgBuffers (stateOf r) !! id
        = if mentions id evts
          then Some (orDefault (fnArgBuffers bootState !! id) [] ++ chunksFor id evts)
          else fnArgBuffers bootState !! id)
  /\ stateOf r = { bootState with fnArgBuffers := fnArgBuffers (stateOf r) }
  /\ effectsOf r = [].
Proof.
  intros a b piece evts r.
  assert (forall id : jsstring,
             fnArgBuffers (stateOf r) !! id
             = if mentions id evts
               then Some (orDefault (fnArgBuffers bootState !! id) [] ++ chunksFor id evts)
               else fnArgBuffers bootState !! id) as Hbuf.
  { apply (@argument_chunks_kept_apart MiniEngine.miniEngine evts bootState).
    repeat constructor. }
  split.
  - rewrite Hbuf. vm_compute. reflexivity.
  - apply (@argument_chunks_kept_apart MiniEngine.miniEngine evts bootState).
    repeat constructor.
Defined.

Section D1.
Context {engine : JsEngine}.

Lemma start_sameConfirmation (env : StartEnv) (now : Z) (net1 net2 : Net) :
  keeps sameConfirmation (start env now net1 net2).
Proof.
  unfold start.
  keeps_with ltac:(apply stop_sameConfirmation) ltac:(unfold sameConfirmation; by_fields).
Qed.

(** Starting a new session does not reset the confirmation context: what
    was requested and granted, when it was asked, the turn indices, the
    text of an unfinished user turn and the buffered arguments of calls
    all carry over from the session before.  A permission that held on the
    classic path before Start therefore still holds after it, for the new
    conversation, without any question having been asked in it. *)
Theorem restart_keeps_confirmation (env : StartEnv) (now : Z) (net1 net2 : Net)
    (s : State) :
  let s' := stateOf (start env now net1 net2 s) in
  (confirmationRequested s' = confirmationRequested s
   /\ confirmationGranted s' = confirmationGranted s
   /\ confirmationAskedAt s' = confirmationAskedAt s
   /\ confirmAskedTurnIndex s' = confirmAskedTurnIndex s
   /\ lastUserTurnIndex s' = lastUserTurnIndex s
   /\ turnIndex s' = turnIndex s
   /\ currentUserTurn s' = currentUserTurn s
   /\ fnArgBuffers s' = fnArgBuffers s)
  /\ (forall t : Z,
        confirmationRequested s = true ->
        t - confirmationAskedAt s <= CONFIRM_WINDOW_MS ->
        confirmAskedTurnIndex s < lastUserTurnIndex s ->
        confirmationGranted s = true ->
        hasFinalizePermission s' t = true).
Proof.
  cbv zeta.
  pose proof (start_sameConfirmation env now net1 net2 s) as Hsame.
  unfold sameConfirmation in Hsame.
  split; [ exact Hsame | ].
  destruct Hsame as (Hr & Hg & Ha & Hix & Hlast & _).
  intros t Hreq Hwin Hturn Hgr. unfold hasFinalizePermission.
  rewrite Hr, Hg, Ha, Hix, Hlast, Hreq, Hgr.
  apply orb_true_iff. left.
  rewrite !andb_true_iff, Z.leb_le, Z.ltb_lt. auto.
Qed.

End D1.

(** A grant given in one session finalizes the next: asked and answered
    yes, the user stops; a new session is started, and a termination action
    that arrives in it is carried out at once. *)
Example stale_grant_finalizes_next_session :
  let s1 := stateOf (run (askedToConfirm ++ userSays (t0 + 5000) (lit "yes")
                          ++ [(t0 + 5500,
                               InStopClick (refused (t0 + 5600)) (refused (t0 + 5700)))])
                         bootState) in
  let env := {| micGranted := true;
                sessionReply := SessionBody (Some (lit "sess_2")) true;
                sdpAnswered := true |} in
  let s2 := stateOf (start env (t0 + 9000) noNet noNet s1) in
  let r := run ([(t0 + 10000, InChannelOpen)]
                ++ toolCall (t0 + 12000) (accepted (t0 + 12100) (Some 8))) s2 in
  userEl s2 = [] /\ aiEl s2 = []
  /\ confirmationGranted s2 = true
  /\ List.map finalize (savesOf (effectsOf r)) = [true]
  /\ List.map session_id (savesOf (effectsOf r)) = [lit "sess_2"]
  /\ finalized (stateOf r) = true.
Proof. vm_compute. repeat split; reflexivity. Qed.

(** ** The helper scripts *)

Lemma includes_char (s : jsstring) (c : N) :
  In c s -> includes s [c] = true.
Proof.
  intros Hin. unfold includes. apply negb_true_iff, Z.eqb_neq.
  intros Hnone.
  assert (negb (indexOf s [c] =? -1) = false) as H
    by (rewrite Hnone; reflexivity).
  apply not_true_iff_false in H. apply H. apply indexOf_found.
  apply in_split in Hin. destruct Hin as (pre & post & ->).
  exists pre, post. reflexivity.
Qed.

Section D2.
Context {engine : JsEngine}.

Import ConfirmingHelper.

(** The text is searched for the tokens as substrings, and the letters s
    and y are among the tokens: a confirmation text in which either letter
    occurs, in either case, is taken for a yes. *)
Theorem helper_confirms_on_s_or_y (a : HelperArgs) (c : N) :
  c = 115%N \/ c = 83%N \/ c = 121%N \/ c = 89%N ->
  In c (h_confirmText a) ->
  confirmedOf a = true
  /\ getField (payload a) (lit "finalize") = Some (JBool true).
Proof.
  intros Hc Hin.
  assert (confirmedOf a = true) as Hconf.
  { unfold confirmedOf.
    destruct (h_confirmed a) eqn:Hflag; [ reflexivity | ].
    destruct (h_confirmText a) as [| x text] eqn:Htext; [ destruct Hin | ].
    cbn [negb andb isEmpty]. rewrite <- Htext in *. clear Htext x text.
    assert (isWhiteSpace c = false) as Hsolid
      by (destruct Hc as [-> | [-> | [-> | ->]]]; reflexivity).
    assert (In c (trim (h_confirmText a))) as Htrim.
    { destruct (trim_decompose (h_confirmText a)) as (pre & post & Hs & Hpre & Hpost).
      rewrite Hs in Hin. rewrite !in_app_iff in Hin.
      destruct Hin as [Hin | [Hin | Hin]]; [ | exact Hin | ].
      - rewrite forallb_forall in Hpre. rewrite (Hpre c Hin) in Hsolid. discriminate.
      - rewrite forallb_forall in Hpost. rewrite (Hpost c Hin) in Hsolid. discriminate. }
    apply existsb_exists.
    assert (exists d, (d = 115%N \/ d = 121%N)
                      /\ In d (toLowerCase (trim (h_confirmText a)))) as (d & Hd & Hind).
    { unfold toLowerCase.
      destruct Hc as [-> | [-> | [-> | ->]]].
      - exists 115%N. split; [ auto | ]. apply in_flat_map. eexists. split; [ exact Htrim | ].
        cbn. auto.
      - exists 115%N. split; [ auto | ]. apply in_flat_map. eexists. split; [ exact Htrim | ].
        cbn. auto.
      - exists 121%N. split; [ auto | ]. apply in_flat_map. eexists. split; [ exact Htrim | ].
        cbn. auto.
      - exists 121%N. split; [ auto | ]. apply in_flat_map. eexists. split; [ exact Htrim | ].
        cbn. auto. }
    exists [d]. split.
    - destruct Hd as [-> | ->]; vm_compute; auto.
    - now apply includes_char. }
  split; [ exact Hconf | ].
  unfold payload. rewrite Hconf. reflexivity.
Qed.

End D2.

Lemma helper_confirms_on_s_or_y_witness :
  let a := {| ConfirmingHelper.h_sessionId := Some (lit "sess_1");
              ConfirmingHelper.h_userText := lit "no thanks";
              ConfirmingHelper.h_aiText := lit "Shall I end the call?";
              ConfirmingHelper.h_conversationId := None;
              ConfirmingHelper.h_reason := [];
              ConfirmingHelper.h_confirmed := false;
              ConfirmingHelper.h_confirmText := lit "no thanks" |} in
  isNegativeTurn (lit "no thanks") = true
  /\ isAffirmativeTurn (lit "no thanks") = false
  /\ ConfirmingHelper.confirmedOf a = true
  /\ getField (ConfirmingHelper.payload a) (lit "finalize") = Some (JBool true).
Proof.
  intros a. split; [ vm_compute; reflexivity | ].
  split; [ vm_compute; reflexivity | ].
  apply (@helper_confirms_on_s_or_y MiniEngine.miniEngine a 115%N).
  - left. reflexivity.
  - vm_compute. tauto.
Defined.

(** ** Escaping in the history sidebar *)

Section Escaping.
Import History.

(** Escaped text is inert markup: it holds none of the characters that
    open or close a tag or end an attribute value, and each ampersand in it
    starts one of the five entities that the function writes. *)
Theorem htmlEscape_inert (s : jsstring) :
  Forall (fun c => c <> 60%N /\ c <> 62%N /\ c <> 34%N /\ c <> 39%N) (htmlEscape s)
  /\ ampersandsEscaped (htmlEscape s) = true.
Proof.
  unfold htmlEscape. induction s as [| c s [IH1 IH2]]; cbn [flat_map].
  - split; [ constructor | reflexivity ].
  - unfold escapeChar at 1 3.
    change (lit "&amp;") with [38; 97; 109; 112; 59]%N.
    change (lit "&lt;") with [38; 108; 116; 59]%N.
    change (lit "&gt;") with [38; 103; 116; 59]%N.
    change (lit "&quot;") with [38; 113; 117; 111; 116; 59]%N.
    change (lit "&#39;") with [38; 35; 51; 57; 59]%N.
    destruct (c =? 38)%N eqn:H38; [ | destruct (c =? 60)%N eqn:H60;
      [ | destruct (c =? 62)%N eqn:H62;
        [ | destruct (c =? 34)%N eqn:H34; [ | destruct (c =? 39)%N eqn:H39 ] ] ] ].
    1-5: split;
      [ apply Forall_app; split;
        [ repeat constructor; discriminate | exact IH1 ]
      | cbn [List.app ampersandsEscaped]; rewrite IH2; vm_compute; reflexivity ].
    apply N.eqb_neq in H38, H60, H62, H34, H39.
    split.
    + constructor; [ auto | exact IH1 ].
    + cbn [List.app ampersandsEscaped].
      destruct (c =? 38)%N eqn:H; [ apply N.eqb_eq in H; contradiction | ].
      exact IH2.
Qed.

(** What [escapeChar] writes, case by case. *)
Lemma escapeChar_cases (c : N) :
  (c = 38%N /\ escapeChar c = [38; 97; 109; 112; 59]%N)
  \/ (c = 60%N /\ escapeChar c = [38; 108; 116; 59]%N)
  \/ (c = 62%N /\ escapeChar c = [38; 103; 116; 59]%N)
  \/ (c = 34%N /\ escapeChar c = [38; 113; 117; 111; 116; 59]%N)
  \/ (c = 39%N /\ escapeChar c = [38; 35; 51; 57; 59]%N)
  \/ (c <> 38%N /\ escapeChar c = [c]).
Proof.
  unfold escapeChar.
  destruct (c =? 38)%N eqn:H38; [ apply N.eqb_eq in H38; auto | ].
  destruct (c =? 60)%N eqn:H60; [ apply N.eqb_eq in H60; auto 6 | ].
  destruct (c =? 62)%N eqn:H62; [ apply N.eqb_eq in H62; auto 6 | ].
  destruct (c =? 34)%N eqn:H34; [ apply N.eqb_eq in H34; auto 8 | ].
  destruct (c =? 39)%N eqn:H39; [ apply N.eqb_eq in H39; auto 10 | ].
  apply N.eqb_neq in H38. auto 10.
Qed.

Lemma escapeChar_inj (x y : N) (r1 r2 : jsstring) :
  escapeChar x ++ r1 = escapeChar y ++ r2 -> x = y /\ r1 = r2.
Proof.
  destruct (escapeChar_cases x) as [[-> ->] | [[-> ->] | [[-> ->] | [[-> ->] | [[-> ->] | [Hx ->]]]]]];
  destruct (escapeChar_cases y) as [[-> ->] | [[-> ->] | [[-> ->] | [[-> ->] | [[-> ->] | [Hy ->]]]]]];
  cbn [List.app]; intros H; try discriminate H.
  all: try (injection H as H; split; [ reflexivity | exact H ]).
  all: try (injection H as Hc _; congruence).
  injection H as -> ->. split; reflexivity.
Qed.

(** Escaping loses nothing: two texts with the same escaped form are the
    same text. *)
Theorem htmlEscape_injective (a b : jsstring) :
  htmlEscape a = htmlEscape b -> a = b.
Proof.
  unfold htmlEscape. revert b.
  induction a as [| x a IH]; intros b H.
  - destruct b as [| y b]; [ reflexivity | ].
    cbn [flat_map] in H.
    destruct (escapeChar_cases y) as [[_ E] | [[_ E] | [[_ E] | [[_ E] | [[_ E] | [_ E]]]]]];
      rewrite E in H; discriminate H.
  - destruct b as [| y b].
    + cbn [flat_map] in H.
      destruct (escapeChar_cases x) as [[_ E] | [[_ E] | [[_ E] | [[_ E] | [[_ E] | [_ E]]]]]];
        rewrite E in H; discriminate H.
    + cbn [flat_map] in H. apply escapeChar_inj in H. destruct H as [-> H].
      f_equal. apply IH. exact H.
Qed.

End Escaping.

Lemma htmlEscape_injective_witness :
  History.htmlEscape (lit "<b>Tom & Jerry</b>") = lit "&lt;b&gt;Tom &amp; Jerry&lt;/b&gt;"
  /\ lit "<b>Tom & Jerry</b>" = lit "<b>Tom & Jerry</b>".
Proof.
  split; [ vm_compute; reflexivity | ].
  apply (htmlEscape_injective (lit "<b>Tom & Jerry</b>") (lit "<b>Tom & Jerry</b>")).
  reflexivity.
Defined.
